(** * Write-ahead log manager: shallow embedding of [log/log_manager.cc]

  The log manager appends typed records to a byte-addressable file,
  rolls back single transactions by scanning that file, and rebuilds
  its in-memory indexes during recovery.  The development follows the
  C++ methods one by one: unsigned 64-bit arithmetic is carried out in
  [N] with the wrap-around written out, the log file is a list of
  bytes, the two [std::map] members are finite maps, and every method
  is a state transformer over the log manager and the buffer manager
  it is handed. *)

From Stdlib Require Import NArith Lia List.
From Stdlib Require Import Strings.Byte.
From stdpp Require Import base option list gmap sorting strings pretty.

Local Open Scope N_scope.

(** ** Machine integers *)

Module U64.

Definition modulus : N := 2 ^ 64.

(** Arithmetic on [uint64_t] and [size_t] is modulo [2^64]. *)
Definition wrap (n : N) : N := n mod modulus.

Definition add (a b : N) : N := wrap (a + b).

Definition mul (a b : N) : N := wrap (a * b).

End U64.

Infix "+!" := U64.add (at level 50, left associativity).
Infix "*!" := U64.mul (at level 40, left associativity).

(** [sizeof(unsigned char)] and [sizeof(uint64_t)]. *)
Definition sizeof_uchar : N := 1.

Definition sizeof_u64 : N := 8.

(** ** Bytes and host-order integers

  Integers are written to the log by copying their object
  representation ([reinterpret_cast<char*>(&txn_id)]); the embedding
  fixes a little-endian host. *)

Module Bytes.

Definition byte_of_N (n : N) : byte :=
  match Byte.of_N (n mod 256) with
  | Some b => b
  | None => x00
  end.

Fixpoint le_decode (bs : list byte) : N :=
  match bs with
  | [] => 0
  | b :: rest => Byte.to_N b + 256 * le_decode rest
  end.

Fixpoint le_encode (width : nat) (v : N) : list byte :=
  match width with
  | O => []
  | S k => byte_of_N v :: le_encode k (v / 256)
  end.

(** The eight bytes of a [uint64_t] object. *)
Definition encode_u64 (v : N) : list byte := le_encode 8 v.

End Bytes.

(** ** Outcomes

  A method either returns, or touches bytes outside the file or outside
  a page (the C++ has no defined behaviour there), or it is still
  looping when the fuel of the embedding runs out. *)

Inductive outcome (A : Type) : Type :=
  | Done (a : A)
  | Fault
  | OutOfFuel.

Arguments Done {A} a.
Arguments Fault {A}.
Arguments OutOfFuel {A}.

Definition outcome_bind {A B} (f : A → outcome B) (c : outcome A) : outcome B :=
  match c with
  | Done a => f a
  | Fault => Fault
  | OutOfFuel => OutOfFuel
  end.

#[export] Instance outcome_mret : MRet outcome := @Done.

#[export] Instance outcome_mbind : MBind outcome := @outcome_bind.

Definition outcome_map {A B} (f : A → B) (c : outcome A) : outcome B :=
  match c with
  | Done a => Done (f a)
  | Fault => Fault
  | OutOfFuel => OutOfFuel
  end.

#[export] Instance outcome_fmap : FMap outcome := @outcome_map.

Definition of_option {A} (o : option A) : outcome A :=
  match o with
  | Some a => Done a
  | None => Fault
  end.

(** One iteration of a [while] loop either leaves it or goes round. *)
Inductive flow (St : Type) : Type :=
  | Break (s : St)
  | Continue (s : St).

Arguments Break {St} s.
Arguments Continue {St} s.

(** ** The log file *)

Module File.

(** Modelled from the spec: [storage/test_file.h] is not among the
  sources.  Section 6 describes the file primitive as a growable flat
  byte array with random-access reads and writes and an explicit resize
  that zeroes new bytes; an access that leaves the array is a fault. *)
Definition t : Type := list byte.

Definition size (f : t) : N := N.of_nat (length f).

Definition resize (f : t) (new_size : N) : t :=
  take (N.to_nat new_size) f
    ++ replicate (N.to_nat new_size - length f) x00.

Definition read_block (f : t) (offset size : N) : option (list byte) :=
  if decide (offset + size ≤ N.of_nat (length f))
  then Some (take (N.to_nat size) (drop (N.to_nat offset) f))
  else None.

Definition write_block (f : t) (data : list byte) (offset size : N) : option t :=
  if decide (offset + size ≤ N.of_nat (length f) ∧ size ≤ N.of_nat (length data))
  then Some (take (N.to_nat offset) f
               ++ take (N.to_nat size) data
               ++ drop (N.to_nat (offset + size)) f)
  else None.

(** Reading one [unsigned char] and one [uint64_t] object. *)
Definition read_uchar (f : t) (offset : N) : option N :=
  bs ← read_block f offset sizeof_uchar;
  Some (Bytes.le_decode bs).

Definition read_u64 (f : t) (offset : N) : option N :=
  bs ← read_block f offset sizeof_u64;
  Some (Bytes.le_decode bs).

End File.

(** ** The buffer manager *)

Module BufferManager.

(** Modelled from the spec: [buffer/buffer_manager.h] is not among the
  sources.  Following section 6, the pool is the byte contents of the
  pages as seen through [fix_page], addressed by page id and index in
  the page, the set of dirty page ids, and the durable copy that
  flushing writes to. *)
Record t : Type := mk {
  page_size : N;
  data : gmap (N * N) byte;
  dirty : gset N;
  disk : gmap (N * N) byte;
}.

Definition on_page (page_id : N) (entry : (N * N) * byte) : Prop :=
  entry.1.1 = page_id.

#[export] Instance on_page_dec page_id entry : Decision (on_page page_id entry).
Proof. unfold on_page. apply _. Defined.

(** The bytes [bytes] laid out from index [offset] of page [page_id]. *)
Definition image_at (page_id offset : N) (bytes : list byte) : gmap (N * N) byte :=
  list_to_map (imap (λ i b, ((page_id, offset + N.of_nat i), b)) bytes).

(** [fix_page(page_id, true)], [memcpy(&frame.get_data()[offset], src,
  length)], [unfix_page(frame, true)]: the bracket the log manager
  uses for every page write. *)
Definition write_page (bm : t) (page_id offset : N) (src : list byte) (length : N) : option t :=
  if decide (offset + length ≤ page_size bm ∧ length ≤ N.of_nat (List.length src))
  then Some {| page_size := page_size bm;
               data := image_at page_id offset (take (N.to_nat length) src) ∪ data bm;
               dirty := {[page_id]} ∪ dirty bm;
               disk := disk bm |}
  else None.

(** [flush_page(page_id)]: write the page back if it is dirty. *)
Definition flush_page (bm : t) (page_id : N) : t :=
  if decide (page_id ∈ dirty bm)
  then {| page_size := page_size bm;
          data := data bm;
          dirty := dirty bm ∖ {[page_id]};
          disk := filter (on_page page_id) (data bm) ∪ disk bm |}
  else bm.

(** [get_dirty_page_ids()]: the dirty page ids, in ascending order. *)
Definition get_dirty_page_ids (bm : t) : list N :=
  merge_sort N.le (elements (dirty bm)).

(** [flush_all_pages()]. *)
Definition flush_all_pages (bm : t) : t :=
  foldl flush_page bm (get_dirty_page_ids bm).

End BufferManager.

(** ** Log records *)

Inductive LogRecordType : Type :=
  | INVALID_RECORD_TYPE
  | ABORT_RECORD
  | COMMIT_RECORD
  | UPDATE_RECORD
  | BEGIN_RECORD
  | CHECKPOINT_RECORD
  | BEGIN_FUZZY_CHECKPOINT_RECORD
  | END_FUZZY_CHECKPOINT_RECORD.

(** [static_cast<unsigned char>(type)]. *)
Definition tag_of (type : LogRecordType) : N :=
  match type with
  | INVALID_RECORD_TYPE => 0
  | ABORT_RECORD => 1
  | COMMIT_RECORD => 2
  | UPDATE_RECORD => 3
  | BEGIN_RECORD => 4
  | CHECKPOINT_RECORD => 5
  | BEGIN_FUZZY_CHECKPOINT_RECORD => 6
  | END_FUZZY_CHECKPOINT_RECORD => 7
  end.

Definition type_of_tag (tag : N) : option LogRecordType :=
  match tag with
  | 0 => Some INVALID_RECORD_TYPE
  | 1 => Some ABORT_RECORD
  | 2 => Some COMMIT_RECORD
  | 3 => Some UPDATE_RECORD
  | 4 => Some BEGIN_RECORD
  | 5 => Some CHECKPOINT_RECORD
  | 6 => Some BEGIN_FUZZY_CHECKPOINT_RECORD
  | 7 => Some END_FUZZY_CHECKPOINT_RECORD
  | _ => None
  end.

#[export] Instance LogRecordType_eq_dec : EqDecision LogRecordType.
Proof. solve_decision. Defined.

#[export] Instance LogRecordType_countable : Countable LogRecordType.
Proof.
  apply (inj_countable tag_of type_of_tag).
  intros []; reflexivity.
Defined.

(** The seven kinds that are counted, in the order in which
  [get_total_log_records] adds them up. *)
Definition counted_types : list LogRecordType :=
  [ABORT_RECORD; COMMIT_RECORD; UPDATE_RECORD; BEGIN_RECORD;
   CHECKPOINT_RECORD; BEGIN_FUZZY_CHECKPOINT_RECORD;
   END_FUZZY_CHECKPOINT_RECORD].

(** The one-byte object [TYPE] that every append writes last. *)
Definition tag_bytes (type : LogRecordType) : list byte :=
  [Bytes.byte_of_N (tag_of type)].

(** [class UpdateInfo]. *)
Module UpdateInfo.

Record t : Type := mk {
  txn_id : N;
  page_id : N;
  length : N;
  offset : N;
  before_img : list byte;
  after_img : list byte;
}.

End UpdateInfo.

(** ** The log manager *)

Module LogManager.

Record t : Type := mk {
  fuzzy_checkpoint_page_ids : list N;
  log_file_ : File.t;
  current_offset_ : N;
  txn_id_to_first_log_record : gmap N N;
  log_record_type_to_count : gmap LogRecordType N;
}.

Definition with_file (lm : t) (f : File.t) : t :=
  mk (fuzzy_checkpoint_page_ids lm) f (current_offset_ lm)
     (txn_id_to_first_log_record lm) (log_record_type_to_count lm).

Definition with_offset (lm : t) (o : N) : t :=
  mk (fuzzy_checkpoint_page_ids lm) (log_file_ lm) o
     (txn_id_to_first_log_record lm) (log_record_type_to_count lm).

Definition with_txns (lm : t) (m : gmap N N) : t :=
  mk (fuzzy_checkpoint_page_ids lm) (log_file_ lm) (current_offset_ lm)
     m (log_record_type_to_count lm).

Definition with_counts (lm : t) (c : gmap LogRecordType N) : t :=
  mk (fuzzy_checkpoint_page_ids lm) (log_file_ lm) (current_offset_ lm)
     (txn_id_to_first_log_record lm) c.

Definition with_page_ids (lm : t) (ids : list N) : t :=
  mk ids (log_file_ lm) (current_offset_ lm)
     (txn_id_to_first_log_record lm) (log_record_type_to_count lm).

(** *** [std::map] accessors *)

(** The value read by [log_record_type_to_count[type]]. *)
Definition count_at (c : gmap LogRecordType N) (type : LogRecordType) : N :=
  default 0 (c !! type).

(** [operator[]] inserts a zero for a key that is missing. *)
Definition touch (c : gmap LogRecordType N) (type : LogRecordType) : gmap LogRecordType N :=
  match c !! type with
  | Some _ => c
  | None => <[type := 0]> c
  end.

(** [log_record_type_to_count[type]++]. *)
Definition incr (type : LogRecordType) (lm : t) : t :=
  with_counts lm
    (<[type := U64.wrap (count_at (log_record_type_to_count lm) type + 1)]>
       (log_record_type_to_count lm)).

(** [log_record_type_to_count[type] = 0]. *)
Definition zero (type : LogRecordType) (lm : t) : t :=
  with_counts lm (<[type := 0]> (log_record_type_to_count lm)).

(** [txn_id_to_first_log_record.insert({txn_id, n})] keeps an entry that
  is already there. *)
Definition map_insert (txn_id n : N) (m : gmap N N) : gmap N N :=
  match m !! txn_id with
  | Some _ => m
  | None => <[txn_id := n]> m
  end.

(** *** Construction, reset, counters *)

Definition new (log_file : File.t) : t :=
  foldl (λ lm type, zero type lm) (mk [] log_file 0 ∅ ∅) counted_types.

Definition reset (lm : t) (log_file : File.t) : t :=
  mk [] log_file 0 ∅ ∅.

Definition get_total_log_records (lm : t) : N * t :=
  let c := log_record_type_to_count lm in
  (U64.wrap (count_at c ABORT_RECORD
             + count_at c COMMIT_RECORD
             + count_at c UPDATE_RECORD
             + count_at c BEGIN_RECORD
             + count_at c CHECKPOINT_RECORD
             + count_at c BEGIN_FUZZY_CHECKPOINT_RECORD
             + count_at c END_FUZZY_CHECKPOINT_RECORD),
   with_counts lm (foldl touch c counted_types)).

Definition get_total_log_records_of_type (lm : t) (type : LogRecordType) : N * t :=
  let c := log_record_type_to_count lm in
  (count_at c type, with_counts lm (touch c type)).

(** *** Appending records

  Every append enlarges the file, writes the payload, writes the tag
  byte last, advances [current_offset_] and counts the record. *)

Definition log_commit (txn_id : N) (lm : t) : option t :=
  let f0 := File.resize (log_file_ lm) (current_offset_ lm +! sizeof_uchar +! sizeof_u64) in
  f1 ← File.write_block f0 (Bytes.encode_u64 txn_id)
         (current_offset_ lm +! sizeof_uchar) sizeof_u64;
  f2 ← File.write_block f1 (tag_bytes COMMIT_RECORD) (current_offset_ lm) sizeof_uchar;
  let lm1 := with_file lm f2 in
  let lm2 := with_offset lm1 (current_offset_ lm1 +! (sizeof_uchar + sizeof_u64)) in
  let lm3 := incr COMMIT_RECORD lm2 in
  Some (with_txns lm3 (delete txn_id (txn_id_to_first_log_record lm3))).

Definition log_update (txn_id page_id length offset : N)
    (before_img after_img : list byte) (lm : t) : option t :=
  let o := current_offset_ lm in
  let f0 := File.resize (log_file_ lm)
              (o +! sizeof_uchar +! 4 *! sizeof_u64 +! 2 *! length) in
  f1 ← File.write_block f0 (Bytes.encode_u64 txn_id) (o +! sizeof_uchar) sizeof_u64;
  f2 ← File.write_block f1 (Bytes.encode_u64 page_id)
         (o +! sizeof_uchar +! sizeof_u64) sizeof_u64;
  f3 ← File.write_block f2 (Bytes.encode_u64 length)
         (o +! sizeof_uchar +! 2 *! sizeof_u64) sizeof_u64;
  f4 ← File.write_block f3 (Bytes.encode_u64 offset)
         (o +! sizeof_uchar +! 3 *! sizeof_u64) sizeof_u64;
  f5 ← File.write_block f4 before_img (o +! sizeof_uchar +! 4 *! sizeof_u64) length;
  f6 ← File.write_block f5 after_img
         (o +! sizeof_uchar +! 4 *! sizeof_u64 +! length) length;
  f7 ← File.write_block f6 (tag_bytes UPDATE_RECORD) o sizeof_uchar;
  let lm1 := with_file lm f7 in
  let lm2 := with_offset lm1
               (current_offset_ lm1 +! (sizeof_uchar + 4 * sizeof_u64 +! 2 *! length)) in
  Some (incr UPDATE_RECORD lm2).

Definition log_txn_begin (txn_id : N) (lm : t) : option t :=
  let f0 := File.resize (log_file_ lm) (current_offset_ lm +! sizeof_uchar +! sizeof_u64) in
  f1 ← File.write_block f0 (Bytes.encode_u64 txn_id)
         (current_offset_ lm +! sizeof_uchar) sizeof_u64;
  f2 ← File.write_block f1 (tag_bytes BEGIN_RECORD) (current_offset_ lm) sizeof_uchar;
  let lm1 := with_file lm f2 in
  let lm2 := with_offset lm1 (current_offset_ lm1 +! (sizeof_uchar + sizeof_u64)) in
  let '(total_records, lm3) := get_total_log_records lm2 in
  let lm4 := incr BEGIN_RECORD lm3 in
  Some (with_txns lm4 (map_insert txn_id total_records (txn_id_to_first_log_record lm4))).

Definition log_checkpoint (lm : t) (bm : BufferManager.t) : option (t * BufferManager.t) :=
  let bm1 := BufferManager.flush_all_pages bm in
  let f0 := File.resize (log_file_ lm) (current_offset_ lm +! sizeof_uchar) in
  f1 ← File.write_block f0 (tag_bytes CHECKPOINT_RECORD) (current_offset_ lm) sizeof_uchar;
  let lm1 := with_file lm f1 in
  let lm2 := with_offset lm1 (current_offset_ lm1 +! sizeof_uchar) in
  Some (incr CHECKPOINT_RECORD lm2, bm1).

Definition log_fuzzy_checkpoint_begin (lm : t) (bm : BufferManager.t) : option (N * t) :=
  let lm0 := with_page_ids lm (BufferManager.get_dirty_page_ids bm) in
  let f0 := File.resize (log_file_ lm0) (current_offset_ lm0 +! sizeof_uchar) in
  f1 ← File.write_block f0 (tag_bytes BEGIN_FUZZY_CHECKPOINT_RECORD)
         (current_offset_ lm0) sizeof_uchar;
  let lm1 := with_file lm0 f1 in
  let lm2 := with_offset lm1 (current_offset_ lm1 +! sizeof_uchar) in
  let lm3 := incr BEGIN_FUZZY_CHECKPOINT_RECORD lm2 in
  Some (N.of_nat (List.length (fuzzy_checkpoint_page_ids lm3)), lm3).

Definition log_fuzzy_checkpoint_do_step (lm : t) (bm : BufferManager.t) (step : N)
    : t * BufferManager.t :=
  if decide (N.of_nat (List.length (fuzzy_checkpoint_page_ids lm)) ≤ step)
  then (lm, bm)
  else
    let page_id := fuzzy_checkpoint_page_ids lm !!! N.to_nat step in
    (lm, BufferManager.flush_page bm page_id).

Definition log_fuzzy_checkpoint_end (lm : t) : option t :=
  let f0 := File.resize (log_file_ lm) (current_offset_ lm +! sizeof_uchar) in
  f1 ← File.write_block f0 (tag_bytes END_FUZZY_CHECKPOINT_RECORD)
         (current_offset_ lm) sizeof_uchar;
  let lm1 := with_file lm f1 in
  let lm2 := with_offset lm1 (current_offset_ lm1 +! sizeof_uchar) in
  let lm3 := incr END_FUZZY_CHECKPOINT_RECORD lm2 in
  Some (with_page_ids lm3 []).

(** *** Rollback *)

(** The locals of the scan in [rollback_txn]. *)
Record rollback_state : Type := mk_rollback {
  rb_offset : N;
  rb_updates : list UpdateInfo.t;
}.

(** The body of the [while] loop of [rollback_txn]. *)
Definition rollback_body (lm : t) (txn_id : N) (st : rollback_state)
    : option (flow rollback_state) :=
  let current_offset := rb_offset st in
  type ← File.read_uchar (log_file_ lm) current_offset;
  if decide (type = tag_of INVALID_RECORD_TYPE) then Some (Break st)
  else if decide (type = tag_of CHECKPOINT_RECORD) then
    Some (Continue (mk_rollback (current_offset +! sizeof_uchar) (rb_updates st)))
  else if decide (type = tag_of BEGIN_FUZZY_CHECKPOINT_RECORD) then
    Some (Continue (mk_rollback (current_offset +! sizeof_uchar) (rb_updates st)))
  else if decide (type = tag_of END_FUZZY_CHECKPOINT_RECORD) then
    Some (Continue (mk_rollback (current_offset +! sizeof_uchar) (rb_updates st)))
  else if decide (type = tag_of BEGIN_RECORD ∨ type = tag_of COMMIT_RECORD) then
    Some (Continue (mk_rollback (current_offset +! (sizeof_uchar + sizeof_u64))
                                (rb_updates st)))
  else if decide (type = tag_of ABORT_RECORD) then
    current_txn_id ← File.read_u64 (log_file_ lm) (current_offset +! sizeof_uchar);
    let st' := mk_rollback (current_offset +! (sizeof_uchar + sizeof_u64)) (rb_updates st) in
    if decide (current_txn_id = txn_id) then Some (Break st') else Some (Continue st')
  else
    current_txn_id ← File.read_u64 (log_file_ lm) (current_offset +! sizeof_uchar);
    if decide (current_txn_id = txn_id) then
      page_id ← File.read_u64 (log_file_ lm) (current_offset +! sizeof_uchar +! sizeof_u64);
      length ← File.read_u64 (log_file_ lm)
                 (current_offset +! sizeof_uchar +! 2 *! sizeof_u64);
      offset ← File.read_u64 (log_file_ lm)
                 (current_offset +! sizeof_uchar +! 3 *! sizeof_u64);
      before_img ← File.read_block (log_file_ lm)
                     (current_offset +! sizeof_uchar +! 4 *! sizeof_u64) length;
      after_img ← File.read_block (log_file_ lm)
                    (current_offset +! sizeof_uchar +! 4 *! sizeof_u64 +! length) length;
      Some (Continue
              (mk_rollback
                 (current_offset +! (sizeof_uchar + 4 * sizeof_u64 +! 2 *! length))
                 (rb_updates st
                    ++ [UpdateInfo.mk current_txn_id page_id length offset
                          before_img after_img])))
    else
      length ← File.read_u64 (log_file_ lm)
                 (current_offset +! sizeof_uchar +! 2 *! sizeof_u64);
      Some (Continue
              (mk_rollback
                 (current_offset +! (sizeof_uchar + 4 * sizeof_u64 +! 2 *! length))
                 (rb_updates st))).

(** [while (current_offset < this->current_offset_) { ... }]. *)
Fixpoint rollback_loop (fuel : nat) (lm : t) (txn_id : N) (st : rollback_state)
    : outcome rollback_state :=
  match fuel with
  | O => OutOfFuel
  | S fuel' =>
      if decide (rb_offset st < current_offset_ lm) then
        match rollback_body lm txn_id st with
        | None => Fault
        | Some (Break st') => Done st'
        | Some (Continue st') => rollback_loop fuel' lm txn_id st'
        end
      else Done st
  end.

(** The reverse loop over [updates]: write every before-image back. *)
Fixpoint undo_updates (reversed : list UpdateInfo.t) (bm : BufferManager.t)
    : option BufferManager.t :=
  match reversed with
  | [] => Some bm
  | it :: rest =>
      bm' ← BufferManager.write_page bm (UpdateInfo.page_id it) (UpdateInfo.offset it)
              (UpdateInfo.before_img it) (UpdateInfo.length it);
      undo_updates rest bm'
  end.

Definition rollback_txn (fuel : nat) (txn_id : N) (lm : t) (bm : BufferManager.t)
    : outcome (t * BufferManager.t) :=
  match txn_id_to_first_log_record lm !! txn_id with
  | None => Done (lm, bm)
  | Some _ =>
      st ← rollback_loop fuel lm txn_id (mk_rollback 0 []);
      bm' ← of_option (undo_updates (rev (rb_updates st)) bm);
      Done (lm, bm')
  end.

Definition log_abort (fuel : nat) (txn_id : N) (lm : t) (bm : BufferManager.t)
    : outcome (t * BufferManager.t) :=
  let f0 := File.resize (log_file_ lm) (current_offset_ lm +! sizeof_uchar +! sizeof_u64) in
  f1 ← of_option (File.write_block f0 (Bytes.encode_u64 txn_id)
                    (current_offset_ lm +! sizeof_uchar) sizeof_u64);
  f2 ← of_option (File.write_block f1 (tag_bytes ABORT_RECORD)
                    (current_offset_ lm) sizeof_uchar);
  let lm1 := with_file lm f2 in
  let lm2 := with_offset lm1 (current_offset_ lm1 +! (sizeof_uchar + sizeof_u64)) in
  let lm3 := incr ABORT_RECORD lm2 in
  '(lm4, bm') ← rollback_txn fuel txn_id lm3 bm;
  Done (with_txns lm4 (delete txn_id (txn_id_to_first_log_record lm4)), bm').

(** *** Recovery *)

(** [for (auto& x : src) dst.push_back(std::move(x));] *)
Definition push_all {A} (dst src : list A) : list A :=
  foldl (λ acc x, acc ++ [x]) dst src.

(** The locals of the scan in [recovery], with the log manager whose
  counters and transaction map the scan rebuilds. *)
Record recovery_state : Type := mk_recovery {
  rc_lm : t;
  rc_offset : N;
  updatesPending : list UpdateInfo.t;
  updatesSinceLastCheckpoint : list UpdateInfo.t;
  aborted_txns : gset N;
}.

(** The body of the [while] loop of [recovery]. *)
Definition recovery_body (st : recovery_state) : option (flow recovery_state) :=
  let lm := rc_lm st in
  let current_offset := rc_offset st in
  type ← File.read_uchar (log_file_ lm) current_offset;
  if decide (type = tag_of INVALID_RECORD_TYPE) then Some (Break st)
  else if decide (type = tag_of CHECKPOINT_RECORD) then
    Some (Continue
            (mk_recovery (incr CHECKPOINT_RECORD lm) (current_offset +! sizeof_uchar)
               [] [] (aborted_txns st)))
  else if decide (type = tag_of BEGIN_FUZZY_CHECKPOINT_RECORD) then
    Some (Continue
            (mk_recovery (incr BEGIN_FUZZY_CHECKPOINT_RECORD lm)
               (current_offset +! sizeof_uchar)
               (push_all [] (updatesSinceLastCheckpoint st)) [] (aborted_txns st)))
  else if decide (type = tag_of END_FUZZY_CHECKPOINT_RECORD) then
    Some (Continue
            (mk_recovery (incr END_FUZZY_CHECKPOINT_RECORD lm)
               (current_offset +! sizeof_uchar)
               [] (updatesSinceLastCheckpoint st) (aborted_txns st)))
  else if decide (type = tag_of BEGIN_RECORD) then
    txn_id ← File.read_u64 (log_file_ lm) (current_offset +! sizeof_uchar);
    let '(total_records, lm1) := get_total_log_records lm in
    let lm2 := with_txns lm1
                 (map_insert txn_id total_records (txn_id_to_first_log_record lm1)) in
    Some (Continue
            (mk_recovery (incr BEGIN_RECORD lm2)
               (current_offset +! (sizeof_uchar + sizeof_u64))
               (updatesPending st) (updatesSinceLastCheckpoint st) (aborted_txns st)))
  else if decide (type = tag_of COMMIT_RECORD) then
    txn_id ← File.read_u64 (log_file_ lm) (current_offset +! sizeof_uchar);
    let lm1 := with_txns lm (delete txn_id (txn_id_to_first_log_record lm)) in
    Some (Continue
            (mk_recovery (incr COMMIT_RECORD lm1)
               (current_offset +! (sizeof_uchar + sizeof_u64))
               (updatesPending st) (updatesSinceLastCheckpoint st) (aborted_txns st)))
  else if decide (type = tag_of ABORT_RECORD) then
    txn_id ← File.read_u64 (log_file_ lm) (current_offset +! sizeof_uchar);
    Some (Continue
            (mk_recovery (incr ABORT_RECORD lm)
               (current_offset +! (sizeof_uchar + sizeof_u64))
               (updatesPending st) (updatesSinceLastCheckpoint st)
               ({[txn_id]} ∪ aborted_txns st)))
  else
    current_txn_id ← File.read_u64 (log_file_ lm) (current_offset +! sizeof_uchar);
    page_id ← File.read_u64 (log_file_ lm) (current_offset +! sizeof_uchar +! sizeof_u64);
    length ← File.read_u64 (log_file_ lm)
               (current_offset +! sizeof_uchar +! 2 *! sizeof_u64);
    offset ← File.read_u64 (log_file_ lm)
               (current_offset +! sizeof_uchar +! 3 *! sizeof_u64);
    before_img ← File.read_block (log_file_ lm)
                   (current_offset +! sizeof_uchar +! 4 *! sizeof_u64) length;
    after_img ← File.read_block (log_file_ lm)
                  (current_offset +! sizeof_uchar +! 4 *! sizeof_u64 +! length) length;
    Some (Continue
            (mk_recovery (incr UPDATE_RECORD lm)
               (current_offset +! (sizeof_uchar + 4 * sizeof_u64 +! 2 *! length))
               (updatesPending st)
               (updatesSinceLastCheckpoint st
                  ++ [UpdateInfo.mk current_txn_id page_id length offset
                        before_img after_img])
               (aborted_txns st))).

(** [while (current_offset < this->current_offset_) { ... }]. *)
Fixpoint recovery_loop (fuel : nat) (st : recovery_state) : outcome recovery_state :=
  match fuel with
  | O => OutOfFuel
  | S fuel' =>
      if decide (rc_offset st < current_offset_ (rc_lm st)) then
        match recovery_body st with
        | None => Fault
        | Some (Break st') => Done st'
        | Some (Continue st') => recovery_loop fuel' st'
        end
      else Done st
  end.

(** The state in which [recovery] enters its scan: the seven counters
  zeroed, [current_offset_] set to the size of the file. *)
Definition recovery_init (lm : t) : recovery_state :=
  let lm1 := foldl (λ lm type, zero type lm) lm counted_types in
  let lm2 := with_offset lm1 (File.size (log_file_ lm1)) in
  mk_recovery lm2 0 [] [] ∅.

(** [if (!updatesPending.empty()) { ... }]: the updates that are
  considered for redo. *)
Definition redo_candidates (st : recovery_state) : list UpdateInfo.t :=
  match updatesPending st with
  | [] => updatesSinceLastCheckpoint st
  | _ :: _ =>
      let pending := push_all (updatesPending st) (updatesSinceLastCheckpoint st) in
      push_all [] pending
  end.

(** Write the after-image of every candidate of an aborted transaction. *)
Fixpoint redo_aborted (aborted : gset N) (updates : list UpdateInfo.t)
    (bm : BufferManager.t) : option BufferManager.t :=
  match updates with
  | [] => Some bm
  | update :: rest =>
      if decide (UpdateInfo.txn_id update ∈ aborted) then
        bm' ← BufferManager.write_page bm (UpdateInfo.page_id update)
                (UpdateInfo.offset update) (UpdateInfo.after_img update)
                (UpdateInfo.length update);
        redo_aborted aborted rest bm'
      else redo_aborted aborted rest bm
  end.

(** [for (auto& txn_id : txns) rollback_txn(txn_id, buffer_manager);] *)
Fixpoint rollback_all (fuel : nat) (txns : list N) (lm : t) (bm : BufferManager.t)
    : outcome (t * BufferManager.t) :=
  match txns with
  | [] => Done (lm, bm)
  | txn_id :: rest =>
      '(lm', bm') ← rollback_txn fuel txn_id lm bm;
      rollback_all fuel rest lm' bm'
  end.

(** Iteration over a [std::set] or the keys of a [std::map] is in
  ascending order. *)
Definition ascending (s : gset N) : list N := merge_sort N.le (elements s).

Definition recovery (fuel : nat) (lm : t) (bm : BufferManager.t)
    : outcome (t * BufferManager.t) :=
  st ← recovery_loop fuel (recovery_init lm);
  let aborted := aborted_txns st in
  bm1 ← of_option (redo_aborted aborted (redo_candidates st) bm);
  '(lm2, bm2) ← rollback_all fuel (ascending aborted) (rc_lm st) bm1;
  let live := filter (λ txn_id, txn_id ∉ aborted)
                (ascending (dom (txn_id_to_first_log_record lm2))) in
  rollback_all fuel live lm2 bm2.

End LogManager.

(** ** The log as a sequence of records

  The record-level view of the file that the append operations lay
  down, used to state what the scans compute. *)

Inductive LogRecord : Type :=
  | Abort (txn_id : N)
  | Commit (txn_id : N)
  | Update (u : UpdateInfo.t)
  | Begin (txn_id : N)
  | Checkpoint
  | BeginFuzzy
  | EndFuzzy.

Definition record_type (r : LogRecord) : LogRecordType :=
  match r with
  | Abort _ => ABORT_RECORD
  | Commit _ => COMMIT_RECORD
  | Update _ => UPDATE_RECORD
  | Begin _ => BEGIN_RECORD
  | Checkpoint => CHECKPOINT_RECORD
  | BeginFuzzy => BEGIN_FUZZY_CHECKPOINT_RECORD
  | EndFuzzy => END_FUZZY_CHECKPOINT_RECORD
  end.

(** The payload that follows the tag byte. *)
Definition encode_payload (r : LogRecord) : list byte :=
  match r with
  | Abort txn_id | Commit txn_id | Begin txn_id => Bytes.encode_u64 txn_id
  | Update u =>
      Bytes.encode_u64 (UpdateInfo.txn_id u)
        ++ Bytes.encode_u64 (UpdateInfo.page_id u)
        ++ Bytes.encode_u64 (UpdateInfo.length u)
        ++ Bytes.encode_u64 (UpdateInfo.offset u)
        ++ UpdateInfo.before_img u
        ++ UpdateInfo.after_img u
  | Checkpoint | BeginFuzzy | EndFuzzy => []
  end.

Definition encode_record (r : LogRecord) : list byte :=
  tag_bytes (record_type r) ++ encode_payload r.

Fixpoint encode_log (recs : list LogRecord) : list byte :=
  match recs with
  | [] => []
  | r :: rest => encode_record r ++ encode_log rest
  end.

(** Every integer of a record is a [uint64_t], and both images of an
  UPDATE have [length] bytes. *)
Definition wf_record (r : LogRecord) : Prop :=
  match r with
  | Abort txn_id | Commit txn_id | Begin txn_id => txn_id < U64.modulus
  | Update u =>
      UpdateInfo.txn_id u < U64.modulus
      ∧ UpdateInfo.page_id u < U64.modulus
      ∧ UpdateInfo.length u < U64.modulus
      ∧ UpdateInfo.offset u < U64.modulus
      ∧ N.of_nat (length (UpdateInfo.before_img u)) = UpdateInfo.length u
      ∧ N.of_nat (length (UpdateInfo.after_img u)) = UpdateInfo.length u
  | Checkpoint | BeginFuzzy | EndFuzzy => True
  end.

(** What lies behind the last record: nothing, or a byte that is still
  zero because the tag of a torn append was never written. *)
Definition torn_tail (tail : list byte) : Prop :=
  match tail with
  | [] => True
  | b :: _ => b = x00
  end.

(** The UPDATE records of [txn_id] up to its first ABORT record. *)
Fixpoint updates_to_undo (txn_id : N) (recs : list LogRecord) : list UpdateInfo.t :=
  match recs with
  | [] => []
  | Abort t :: rest =>
      if decide (t = txn_id) then [] else updates_to_undo txn_id rest
  | Update u :: rest =>
      if decide (UpdateInfo.txn_id u = txn_id)
      then u :: updates_to_undo txn_id rest
      else updates_to_undo txn_id rest
  | _ :: rest => updates_to_undo txn_id rest
  end.

(** One page write per update, its before-image copied to the page at
  the update's offset for [length] bytes. *)
Definition write_before_image (bm : option BufferManager.t) (u : UpdateInfo.t)
    : option BufferManager.t :=
  bm ≫= λ b, BufferManager.write_page b (UpdateInfo.page_id u) (UpdateInfo.offset u)
               (UpdateInfo.before_img u) (UpdateInfo.length u).

(** How a scan decodes an UPDATE record at [offset]: the descriptor and
  the offset of the next record. *)
Definition decode_update (f : File.t) (offset : N) : option (UpdateInfo.t * N) :=
  txn_id ← File.read_u64 f (offset +! 1);
  page_id ← File.read_u64 f (offset +! 1 +! 8);
  length ← File.read_u64 f (offset +! 1 +! 16);
  page_offset ← File.read_u64 f (offset +! 1 +! 24);
  before_img ← File.read_block f (offset +! 1 +! 32) length;
  after_img ← File.read_block f (offset +! 1 +! 32 +! length) length;
  Some (UpdateInfo.mk txn_id page_id length page_offset before_img after_img,
        offset +! (33 +! 2 *! length)).

(** How the rollback scan steps over an UPDATE record of another
  transaction: only [length] is read. *)
Definition skip_update (f : File.t) (offset : N) : option N :=
  length ← File.read_u64 f (offset +! 1 +! 16);
  Some (offset +! (33 +! 2 *! length)).

(** A recovery state with other contents in its two update buffers. *)
Definition with_buffers (st : LogManager.recovery_state)
    (pending since : list UpdateInfo.t) : LogManager.recovery_state :=
  LogManager.mk_recovery (LogManager.rc_lm st) (LogManager.rc_offset st)
    pending since (LogManager.aborted_txns st).

(** The page bytes that a sequence of before-image writes leaves
  behind, a later write covering an earlier one, and the pages it
  marks dirty. *)
Fixpoint undo_image (ws : list UpdateInfo.t) : gmap (N * N) byte :=
  match ws with
  | [] => ∅
  | w :: rest =>
      undo_image rest
        ∪ BufferManager.image_at (UpdateInfo.page_id w) (UpdateInfo.offset w)
            (take (N.to_nat (UpdateInfo.length w)) (UpdateInfo.before_img w))
  end.

Fixpoint undo_pages (ws : list UpdateInfo.t) : gset N :=
  match ws with
  | [] => ∅
  | w :: rest => undo_pages rest ∪ {[UpdateInfo.page_id w]}
  end.

(** A before-image write that stays inside a page of [page_size] bytes
  and inside the image buffer. *)
Definition undo_in_bounds (page_size : N) (w : UpdateInfo.t) : Prop :=
  UpdateInfo.offset w + UpdateInfo.length w ≤ page_size
  ∧ UpdateInfo.length w ≤ N.of_nat (length (UpdateInfo.before_img w)).

#[export] Instance undo_in_bounds_dec page_size w : Decision (undo_in_bounds page_size w).
Proof. unfold undo_in_bounds. apply _. Defined.

(** ** The scan of recovery, record by record

  What one iteration of the scan does with the record it decodes, and
  the state the scan reaches behind a sequence of records. *)

Definition apply_record (r : LogRecord) (st : LogManager.recovery_state)
    : LogManager.recovery_state :=
  let lm := LogManager.rc_lm st in
  let next := LogManager.rc_offset st + N.of_nat (length (encode_record r)) in
  let pending := LogManager.updatesPending st in
  let since := LogManager.updatesSinceLastCheckpoint st in
  let aborted := LogManager.aborted_txns st in
  match r with
  | Checkpoint =>
      LogManager.mk_recovery (LogManager.incr CHECKPOINT_RECORD lm) next [] [] aborted
  | BeginFuzzy =>
      LogManager.mk_recovery (LogManager.incr BEGIN_FUZZY_CHECKPOINT_RECORD lm) next
        since [] aborted
  | EndFuzzy =>
      LogManager.mk_recovery (LogManager.incr END_FUZZY_CHECKPOINT_RECORD lm) next
        [] since aborted
  | Begin txn_id =>
      let '(total, lm1) := LogManager.get_total_log_records lm in
      let lm2 :=
        LogManager.with_txns lm1
          (LogManager.map_insert txn_id total
             (LogManager.txn_id_to_first_log_record lm1)) in
      LogManager.mk_recovery (LogManager.incr BEGIN_RECORD lm2) next pending since aborted
  | Commit txn_id =>
      let lm1 :=
        LogManager.with_txns lm
          (delete txn_id (LogManager.txn_id_to_first_log_record lm)) in
      LogManager.mk_recovery (LogManager.incr COMMIT_RECORD lm1) next pending since
        aborted
  | Abort txn_id =>
      LogManager.mk_recovery (LogManager.incr ABORT_RECORD lm) next pending since
        ({[txn_id]} ∪ aborted)
  | Update u =>
      LogManager.mk_recovery (LogManager.incr UPDATE_RECORD lm) next pending
        (since ++ [u]) aborted
  end.

Definition scan_records (recs : list LogRecord) (st : LogManager.recovery_state)
    : LogManager.recovery_state :=
  foldl (λ st r, apply_record r st) st recs.

(** The number of records of one kind in a log. *)
Definition count_records (type : LogRecordType) (recs : list LogRecord) : N :=
  N.of_nat (length (filter (λ r, record_type r = type) recs)).

(** ** Sequences of appends *)

Inductive append_op : Type :=
  | OpAbort (txn_id : N)
  | OpCommit (txn_id : N)
  | OpUpdate (txn_id page_id length offset : N) (before_img after_img : list byte)
  | OpBegin (txn_id : N)
  | OpCheckpoint
  | OpFuzzyBegin
  | OpFuzzyEnd.

Definition op_type (op : append_op) : LogRecordType :=
  match op with
  | OpAbort _ => ABORT_RECORD
  | OpCommit _ => COMMIT_RECORD
  | OpUpdate _ _ _ _ _ _ => UPDATE_RECORD
  | OpBegin _ => BEGIN_RECORD
  | OpCheckpoint => CHECKPOINT_RECORD
  | OpFuzzyBegin => BEGIN_FUZZY_CHECKPOINT_RECORD
  | OpFuzzyEnd => END_FUZZY_CHECKPOINT_RECORD
  end.

Definition run_op (fuel : nat) (op : append_op) (lm : LogManager.t) (bm : BufferManager.t)
    : outcome (LogManager.t * BufferManager.t) :=
  match op with
  | OpAbort txn_id => LogManager.log_abort fuel txn_id lm bm
  | OpCommit txn_id =>
      lm' ← of_option (LogManager.log_commit txn_id lm); Done (lm', bm)
  | OpUpdate txn_id page_id length offset before_img after_img =>
      lm' ← of_option
              (LogManager.log_update txn_id page_id length offset before_img after_img lm);
      Done (lm', bm)
  | OpBegin txn_id =>
      lm' ← of_option (LogManager.log_txn_begin txn_id lm); Done (lm', bm)
  | OpCheckpoint => of_option (LogManager.log_checkpoint lm bm)
  | OpFuzzyBegin =>
      r ← of_option (LogManager.log_fuzzy_checkpoint_begin lm bm); Done (r.2, bm)
  | OpFuzzyEnd =>
      lm' ← of_option (LogManager.log_fuzzy_checkpoint_end lm); Done (lm', bm)
  end.

Fixpoint run_ops (fuel : nat) (ops : list append_op) (lm : LogManager.t)
    (bm : BufferManager.t) : outcome (LogManager.t * BufferManager.t) :=
  match ops with
  | [] => Done (lm, bm)
  | op :: rest =>
      '(lm', bm') ← run_op fuel op lm bm;
      run_ops fuel rest lm' bm'
  end.

(** The number of operations of one kind. *)
Definition count_ops (type : LogRecordType) (ops : list append_op) : N :=
  N.of_nat (length (filter (λ op, op_type op = type) ops)).

(** The total over all kinds that a log manager reports. *)
Definition total_records (lm : LogManager.t) : N :=
  (LogManager.get_total_log_records lm).1.

(** ** Example inputs *)

Module Examples.

(** A pool of 128-byte pages with nothing buffered. *)
Definition empty_pool : BufferManager.t := BufferManager.mk 128 ∅ ∅ ∅.

Definition u1 : UpdateInfo.t := UpdateInfo.mk 1 7 1 0 [x00] [x01].

(** UPDATE, BEGIN_FUZZY, BEGIN_FUZZY. *)
Definition two_fuzzy_log : File.t := encode_log [Update u1; BeginFuzzy; BeginFuzzy].

(** A record with the undefined tag 8 whose four integers are zero,
  followed by BEGIN 7. *)
Definition unknown_tag_log : File.t :=
  [x08] ++ replicate 32 x00 ++ encode_record (Begin 7).

(** BEGIN 1, ABORT 1. *)
Definition begin_abort_log : File.t := encode_log [Begin 1; Abort 1].

(** A log manager in which transaction 1 is live and two page ids are
  waiting for their fuzzy-checkpoint step. *)
Definition fuzzy_lm : LogManager.t :=
  LogManager.mk [7; 9] (encode_log [Begin 1]) 9 {[1 := 0]} {[BEGIN_RECORD := 1]}.

Definition u2 : UpdateInfo.t := UpdateInfo.mk 2 7 1 1 [x00] [x02].

(** UPDATE, CHECKPOINT, UPDATE, and the scan of recovery standing at
  the CHECKPOINT with the first update buffered. *)
Definition checkpoint_log : File.t := encode_log [Update u1; Checkpoint; Update u2].

Definition at_checkpoint : LogManager.recovery_state :=
  LogManager.mk_recovery
    (LogManager.with_offset (LogManager.new checkpoint_log) 71) 35 [] [u1] ∅.

(** The scan of recovery standing at the second BEGIN_FUZZY of
  [two_fuzzy_log], the first update pending. *)
Definition at_second_fuzzy : LogManager.recovery_state :=
  LogManager.mk_recovery
    (LogManager.with_offset (LogManager.new two_fuzzy_log) 37) 36 [u1] [] ∅.

(** The scan of recovery standing at BEGIN 1 of [begin_abort_log]. *)
Definition at_begin : LogManager.recovery_state :=
  LogManager.recovery_init (LogManager.new begin_abort_log).

(** The scans standing at the undefined tag of [unknown_tag_log]. *)
Definition at_unknown : LogManager.recovery_state :=
  LogManager.recovery_init (LogManager.new unknown_tag_log).

Definition rollback_at_unknown : LogManager.rollback_state :=
  LogManager.mk_rollback 0 [].

(** Two transactions interleaved; the two updates of transaction 1
  overlap at index 11 of page 7. *)
Definition ua : UpdateInfo.t := UpdateInfo.mk 1 7 2 10 [x00; x00] [x11; x11].

Definition ub : UpdateInfo.t := UpdateInfo.mk 2 7 2 12 [x00; x00] [x33; x33].

Definition uc : UpdateInfo.t := UpdateInfo.mk 1 7 2 11 [x11; x00] [x44; x44].

Definition interleaved : list LogRecord :=
  [Begin 1; Update ua; Begin 2; Update ub; Update uc; Commit 2].

Definition interleaved_lm : LogManager.t :=
  LogManager.mk [] (encode_log interleaved)
    (File.size (encode_log interleaved)) {[1 := 0]} ∅.

(** One transaction that begins, updates twice and commits. *)
Definition single_commit : list append_op :=
  [OpBegin 1; OpUpdate 1 7 2 10 [x00; x00] [x11; x11];
   OpUpdate 1 7 2 12 [x00; x00] [x33; x33]; OpCommit 1].

(** The value an outcome carries, [d] if there is none. *)
Definition value {A} (d : A) (c : outcome A) : A :=
  match c with
  | Done a => a
  | _ => d
  end.

Definition after_single_commit : LogManager.t * BufferManager.t :=
  value (LogManager.new [], empty_pool)
    (run_ops 7 single_commit (LogManager.reset (LogManager.new []) []) empty_pool).

Definition after_recovery : LogManager.t * BufferManager.t :=
  value (LogManager.new [], empty_pool)
    (LogManager.recovery 7 (LogManager.new (encode_log interleaved)) empty_pool).

End Examples.

(** ** Appends, page writes and recovery at the level of records *)

(** The record that an append operation lays down. *)
Definition record_of_op (op : append_op) : LogRecord :=
  match op with
  | OpAbort txn_id => Abort txn_id
  | OpCommit txn_id => Commit txn_id
  | OpUpdate txn_id page_id length offset before_img after_img =>
      Update (UpdateInfo.mk txn_id page_id length offset
                (take (N.to_nat length) before_img)
                (take (N.to_nat length) after_img))
  | OpBegin txn_id => Begin txn_id
  | OpCheckpoint => Checkpoint
  | OpFuzzyBegin => BeginFuzzy
  | OpFuzzyEnd => EndFuzzy
  end.

(** The number of bytes by which an append enlarges the file. *)
Definition op_size (op : append_op) : N :=
  match op with
  | OpAbort _ | OpCommit _ | OpBegin _ => 9
  | OpUpdate _ _ length _ _ _ => 33 + 2 * length
  | OpCheckpoint | OpFuzzyBegin | OpFuzzyEnd => 1
  end.

(** Every integer argument of an append is a [uint64_t]. *)
Definition wf_op (op : append_op) : Prop :=
  match op with
  | OpAbort txn_id | OpCommit txn_id | OpBegin txn_id => txn_id < U64.modulus
  | OpUpdate txn_id page_id length offset _ _ =>
      txn_id < U64.modulus ∧ page_id < U64.modulus
      ∧ length < U64.modulus ∧ offset < U64.modulus
  | OpCheckpoint | OpFuzzyBegin | OpFuzzyEnd => True
  end.

Definition ops_size (ops : list append_op) : N :=
  foldr (λ op n, op_size op + n) 0 ops.

(** A recovery state whose log manager is pointed at another file. *)
Definition retarget (f : File.t) (st : LogManager.recovery_state)
    : LogManager.recovery_state :=
  LogManager.mk_recovery
    (LogManager.with_offset (LogManager.with_file (LogManager.rc_lm st) f) (File.size f))
    (LogManager.rc_offset st) (LogManager.updatesPending st)
    (LogManager.updatesSinceLastCheckpoint st) (LogManager.aborted_txns st).

(** The rollbacks of a list of transactions over a log of records: each
  transaction that has an entry gets its before-images written back. *)
Fixpoint undo_transactions (recs : list LogRecord) (entries : gmap N N)
    (txns : list N) (bm : BufferManager.t) : option BufferManager.t :=
  match txns with
  | [] => Some bm
  | txn_id :: rest =>
      match entries !! txn_id with
      | None => undo_transactions recs entries rest bm
      | Some _ =>
          bm' ← LogManager.undo_updates (rev (updates_to_undo txn_id recs)) bm;
          undo_transactions recs entries rest bm'
      end
  end.

(** What is observable of a log manager apart from its file. *)
Definition indexes (lm : LogManager.t)
    : list N * gmap N N * gmap LogRecordType N :=
  (LogManager.fuzzy_checkpoint_page_ids lm,
   LogManager.txn_id_to_first_log_record lm,
   LogManager.log_record_type_to_count lm).

(** Fuzzy-checkpoint steps run one after the other. *)
Definition run_steps (lm : LogManager.t) (bm : BufferManager.t) (steps : list N)
    : BufferManager.t :=
  foldl (λ b step, (LogManager.log_fuzzy_checkpoint_do_step lm b step).2) bm steps.

(** The byte range that the before-image of an update is written to. *)
Definition covers (u : UpdateInfo.t) (page_id index : N) : Prop :=
  UpdateInfo.page_id u = page_id
  ∧ UpdateInfo.offset u ≤ index < UpdateInfo.offset u + UpdateInfo.length u.

(** ** Printing the log *)

Module PrintLog.

(** The locals of the scan in [printLog], with the lines written to
  [std::cout] so far. *)
Record print_state : Type := mk_print {
  pr_offset : N;
  pr_lines : list string;
}.

(** The body of the [while] loop of [printLog]. *)
Definition printLog_body (f : File.t) (st : print_state) : option (flow print_state) :=
  let current_offset := pr_offset st in
  type ← File.read_uchar f current_offset;
  if decide (type = tag_of INVALID_RECORD_TYPE) then Some (Break st)
  else if decide (type = tag_of CHECKPOINT_RECORD) then
    Some (Continue (mk_print (current_offset +! sizeof_uchar)
                      (pr_lines st ++ ["CHECKPOINT"%string])))
  else if decide (type = tag_of BEGIN_FUZZY_CHECKPOINT_RECORD) then
    Some (Continue (mk_print (current_offset +! sizeof_uchar)
                      (pr_lines st ++ ["BEGIN_FUZZY_CHECKPOINT_RECORD"%string])))
  else if decide (type = tag_of END_FUZZY_CHECKPOINT_RECORD) then
    Some (Continue (mk_print (current_offset +! sizeof_uchar)
                      (pr_lines st ++ ["END_FUZZY_CHECKPOINT_RECORD"%string])))
  else if decide (type = tag_of BEGIN_RECORD) then
    current_txn_id ← File.read_u64 f (current_offset +! sizeof_uchar);
    Some (Continue (mk_print (current_offset +! (sizeof_uchar + sizeof_u64))
                      (pr_lines st ++ ["BEGIN " +:+ pretty current_txn_id])))
  else if decide (type = tag_of COMMIT_RECORD) then
    current_txn_id ← File.read_u64 f (current_offset +! sizeof_uchar);
    Some (Continue (mk_print (current_offset +! (sizeof_uchar + sizeof_u64))
                      (pr_lines st ++ ["COMMIT " +:+ pretty current_txn_id])))
  else if decide (type = tag_of ABORT_RECORD) then
    current_txn_id ← File.read_u64 f (current_offset +! sizeof_uchar);
    Some (Continue (mk_print (current_offset +! (sizeof_uchar + sizeof_u64))
                      (pr_lines st ++ ["ABORT " +:+ pretty current_txn_id])))
  else
    current_txn_id ← File.read_u64 f (current_offset +! sizeof_uchar);
    page_id ← File.read_u64 f (current_offset +! sizeof_uchar +! sizeof_u64);
    length ← File.read_u64 f (current_offset +! sizeof_uchar +! 2 *! sizeof_u64);
    offset ← File.read_u64 f (current_offset +! sizeof_uchar +! 3 *! sizeof_u64);
    Some (Continue
            (mk_print (current_offset +! (sizeof_uchar + 4 * sizeof_u64 +! 2 *! length))
               (pr_lines st
                  ++ ["UPDATE " +:+ pretty current_txn_id +:+ " " +:+ pretty page_id
                        +:+ " " +:+ pretty length +:+ " " +:+ pretty offset]))).

(** [while (current_offset < size) { ... }]. *)
Fixpoint printLog_loop (fuel : nat) (f : File.t) (st : print_state)
    : outcome print_state :=
  match fuel with
  | O => OutOfFuel
  | S fuel' =>
      if decide (pr_offset st < File.size f) then
        match printLog_body f st with
        | None => Fault
        | Some (Break st') => Done st'
        | Some (Continue st') => printLog_loop fuel' f st'
        end
      else Done st
  end.

(** [printLog(f)]: the lines it writes. *)
Definition printLog (fuel : nat) (f : File.t) : outcome (list string) :=
  pr_lines <$> printLog_loop fuel f (mk_print 0 []).

End PrintLog.

(** The line that stands for a record. *)
Definition record_line (r : LogRecord) : string :=
  match r with
  | Abort txn_id => "ABORT " +:+ pretty txn_id
  | Commit txn_id => "COMMIT " +:+ pretty txn_id
  | Update u =>
      "UPDATE " +:+ pretty (UpdateInfo.txn_id u) +:+ " " +:+ pretty (UpdateInfo.page_id u)
        +:+ " " +:+ pretty (UpdateInfo.length u) +:+ " " +:+ pretty (UpdateInfo.offset u)
  | Begin txn_id => "BEGIN " +:+ pretty txn_id
  | Checkpoint => "CHECKPOINT"
  | BeginFuzzy => "BEGIN_FUZZY_CHECKPOINT_RECORD"
  | EndFuzzy => "END_FUZZY_CHECKPOINT_RECORD"
  end.

(** ** More example inputs *)

Module MoreExamples.

Definition one_update : append_op := OpUpdate 1 7 2 10 [x00; x00] [x11; x11].

Definition after_one_update : LogManager.t * BufferManager.t :=
  Examples.value (LogManager.new [], Examples.empty_pool)
    (run_op 0 one_update (LogManager.new []) Examples.empty_pool).

(** Transaction 1 begins, updates and commits while transaction 2
  begins and updates. *)
Definition history : list append_op :=
  [OpBegin 1; one_update; OpBegin 2; OpUpdate 2 7 2 12 [x00; x00] [x33; x33];
   OpCommit 1].

Definition after_history : LogManager.t * BufferManager.t :=
  Examples.value (LogManager.new [], Examples.empty_pool)
    (run_ops 7 history (LogManager.new []) Examples.empty_pool).

Definition after_crash : LogManager.t * BufferManager.t :=
  Examples.value (LogManager.new [], Examples.empty_pool)
    (LogManager.recovery 7
       (LogManager.reset after_history.1 (LogManager.log_file_ after_history.1))
       Examples.empty_pool).

Definition after_rollback : LogManager.t * BufferManager.t :=
  Examples.value (Examples.interleaved_lm, Examples.empty_pool)
    (LogManager.rollback_txn 7 1 Examples.interleaved_lm Examples.empty_pool).

(** BEGIN 1, BEGIN 2, ABORT 2. *)
Definition begin_begin_abort : list LogRecord := [Begin 1; Begin 2; Abort 2].

Definition after_begin_begin_abort : LogManager.t * BufferManager.t :=
  Examples.value (LogManager.new [], Examples.empty_pool)
    (LogManager.recovery 4 (LogManager.new (encode_log begin_begin_abort))
       Examples.empty_pool).

(** A log manager that still holds an entry for transaction 5 when it
  is pointed at the interleaved log. *)
Definition stale_lm : LogManager.t :=
  LogManager.mk [] (encode_log Examples.interleaved) 0 {[5 := 3]} ∅.

Definition after_stale : LogManager.t * BufferManager.t :=
  Examples.value (LogManager.new [], Examples.empty_pool)
    (LogManager.recovery 7 stale_lm Examples.empty_pool).

(** BEGIN 1, a zero tag, two stray bytes. *)
Definition torn_lm : LogManager.t :=
  LogManager.new (encode_log [Begin 1] ++ x00 :: [x04; x09]).

(** The interleaved log after the resize and the payload write of a
  COMMIT of transaction 2, its tag not yet written. *)
Definition torn_commit : File.t :=
  default []
    (File.write_block
       (File.resize (LogManager.log_file_ Examples.interleaved_lm)
          (LogManager.current_offset_ Examples.interleaved_lm +! sizeof_uchar
             +! sizeof_u64))
       (Bytes.encode_u64 2)
       (LogManager.current_offset_ Examples.interleaved_lm +! sizeof_uchar)
       sizeof_u64).

(** A pool in which pages 7 and 9 are dirty. *)
Definition dirty_pool : BufferManager.t := BufferManager.mk 128 ∅ {[7; 9]} ∅.

Definition after_fuzzy_begin : N * LogManager.t :=
  default (0, LogManager.new [])
    (LogManager.log_fuzzy_checkpoint_begin (LogManager.new []) dirty_pool).

Definition after_interleaved : LogManager.t * BufferManager.t :=
  Examples.value (LogManager.new [], Examples.empty_pool)
    (LogManager.recovery 7 (LogManager.new (encode_log Examples.interleaved))
       Examples.empty_pool).

(** The interleaved log followed by a zero tag and one stray byte. *)
Definition torn_interleaved : File.t :=
  encode_log Examples.interleaved ++ [x00; x04].

Definition after_torn : LogManager.t * BufferManager.t :=
  Examples.value (LogManager.new [], Examples.empty_pool)
    (LogManager.recovery 3 torn_lm Examples.empty_pool).

Definition after_lost_update : LogManager.t :=
  default (LogManager.new [])
    (LogManager.log_update 1 7 2 10 [x00; x00] [x11; x11] after_torn.1).

End MoreExamples.

(** * Properties *)

(** ** Arithmetic and list facts *)

Lemma wrap_small n : n < U64.modulus → U64.wrap n = n.
Proof. intros H. unfold U64.wrap. now apply N.mod_small. Qed.

Lemma wrap_lt n : U64.wrap n < U64.modulus.
Proof. unfold U64.wrap. apply N.mod_lt. discriminate. Qed.

Lemma add64_small a b : a + b < U64.modulus → a +! b = a + b.
Proof. apply wrap_small. Qed.

Lemma mul64_small a b : a * b < U64.modulus → a *! b = a * b.
Proof. apply wrap_small. Qed.

Lemma wrap_succ_wrap n : U64.wrap (U64.wrap n + 1) = U64.wrap (n + 1).
Proof. unfold U64.wrap. now rewrite N.Div0.add_mod_idemp_l. Qed.

Lemma push_all_app {A} (dst src : list A) : LogManager.push_all dst src = dst ++ src.
Proof.
  unfold LogManager.push_all. revert dst.
  induction src as [|x src IH]; intros dst; simpl.
  - now rewrite app_nil_r.
  - rewrite IH. now rewrite <- app_assoc.
Qed.

Ltac solve_wrap :=
  unfold U64.add, U64.mul, U64.wrap, U64.modulus in *;
  zify; Z.to_euclidean_division_equations; lia.

Ltac tag_cases :=
  cbn [tag_of] in *;
  repeat (destruct (decide _) as [?|?];
          try (exfalso; (discriminate || congruence || lia || naive_solver))).

Ltac norm_sizes :=
  change sizeof_uchar with 1 in *;
  change sizeof_u64 with 8 in *;
  change (2 *! 8) with 16 in *;
  change (3 *! 8) with 24 in *;
  change (4 *! 8) with 32 in *;
  change (1 + 8) with 9 in *;
  change (1 + 4 * 8) with 33 in *.

(** Decide the comparisons of one constant tag with another. *)
Ltac tag_consts :=
  repeat match goal with
         | |- context [decide ?P] =>
             rewrite (decide_False (P := P))
               by (let H := fresh in
                   intros H; first [discriminate H | destruct H as [H|H]; discriminate H])
         | |- context [decide ?P] =>
             rewrite (decide_True (P := P))
               by first [reflexivity | left; reflexivity | right; reflexivity]
         end.

(** Offsets that stay below [2^64] do not wrap. *)
Ltac unwrap :=
  norm_sizes;
  repeat match goal with
         | |- context [?a +! ?b] =>
             rewrite (add64_small a b) by (unfold U64.modulus in *; lia)
         | |- context [?a *! ?b] =>
             rewrite (mul64_small a b) by (unfold U64.modulus in *; lia)
         end.

(** ** Counters *)

Section Counters.

Import LogManager.

Lemma count_at_touch c k k' : count_at (touch c k) k' = count_at c k'.
Proof.
  unfold touch, count_at. destruct (c !! k) eqn:E; [done|].
  destruct (decide (k = k')) as [->|Hne].
  - now rewrite lookup_insert_eq, E.
  - now rewrite lookup_insert_ne.
Qed.

Lemma count_at_touch_all c ks k' : count_at (foldl touch c ks) k' = count_at c k'.
Proof.
  revert c. induction ks as [|k ks IH]; intros c; simpl; [done|].
  now rewrite IH, count_at_touch.
Qed.

Lemma count_at_incr k lm k' :
  count_at (log_record_type_to_count (incr k lm)) k'
  = if decide (k = k')
    then U64.wrap (count_at (log_record_type_to_count lm) k' + 1)
    else count_at (log_record_type_to_count lm) k'.
Proof.
  unfold incr, count_at. simpl. case_decide as H.
  - subst. now rewrite lookup_insert_eq.
  - now rewrite lookup_insert_ne.
Qed.

Lemma total_records_touch lm :
  total_records (get_total_log_records lm).2 = total_records lm.
Proof.
  unfold total_records, get_total_log_records.
  cbn [fst snd with_counts log_record_type_to_count].
  now rewrite !count_at_touch_all.
Qed.

Lemma total_records_touched lm :
  total_records (with_counts lm (foldl touch (log_record_type_to_count lm) counted_types))
  = total_records lm.
Proof. exact (total_records_touch lm). Qed.

Lemma total_records_incr k lm :
  k ≠ INVALID_RECORD_TYPE →
  total_records (incr k lm) = U64.wrap (total_records lm + 1).
Proof.
  intros Hk. unfold total_records, get_total_log_records. cbn [fst].
  rewrite !count_at_incr.
  destruct k; try congruence; repeat case_decide; try congruence; solve_wrap.
Qed.

Lemma total_records_with_txns lm m :
  total_records (with_txns lm m) = total_records lm.
Proof. reflexivity. Qed.

End Counters.

(** ** The file primitive *)

Section FileFacts.

Lemma length_resize f n : length (File.resize f n) = N.to_nat n.
Proof.
  unfold File.resize. rewrite length_app, length_take, length_replicate. lia.
Qed.

Lemma write_block_Some f data offset size :
  offset + size ≤ N.of_nat (length f) →
  size ≤ N.of_nat (length data) →
  ∃ f', File.write_block f data offset size = Some f' ∧ length f' = length f.
Proof.
  intros H1 H2. unfold File.write_block.
  rewrite decide_True by done. eexists; split; [reflexivity|].
  rewrite !length_app, !length_take, length_drop. lia.
Qed.

Lemma length_tag_bytes type : length (tag_bytes type) = 1%nat.
Proof. reflexivity. Qed.

Lemma length_encode_u64 v : length (Bytes.encode_u64 v) = 8%nat.
Proof. reflexivity. Qed.

End FileFacts.

(** ** Degenerate calls, and the fuzzy-checkpoint step *)

Section Steps.

Import LogManager.

(** C9: rolling back a transaction that has no entry in
  [txn_id_to_first_log_record], and a fuzzy-checkpoint step whose index
  is not below the number of stored page ids, return at once; the log
  manager (file, offset, counters, maps, page ids) and the buffer
  manager are what they were. *)
Theorem degenerate_calls_are_noops fuel txn_id step lm bm
    (Hunknown : txn_id_to_first_log_record lm !! txn_id = None)
    (Hrange : N.of_nat (length (fuzzy_checkpoint_page_ids lm)) ≤ step) :
  rollback_txn fuel txn_id lm bm = Done (lm, bm)
  ∧ log_fuzzy_checkpoint_do_step lm bm step = (lm, bm).
Proof.
  split.
  - unfold rollback_txn. now rewrite Hunknown.
  - unfold log_fuzzy_checkpoint_do_step. now rewrite decide_True.
Qed.

Lemma degenerate_calls_are_noops_witness :
  (txn_id_to_first_log_record Examples.fuzzy_lm !! 5 = None
   ∧ N.of_nat (length (fuzzy_checkpoint_page_ids Examples.fuzzy_lm)) ≤ 2)
  ∧ rollback_txn 0 5 Examples.fuzzy_lm Examples.empty_pool
    = Done (Examples.fuzzy_lm, Examples.empty_pool)
  ∧ log_fuzzy_checkpoint_do_step Examples.fuzzy_lm Examples.empty_pool 2
    = (Examples.fuzzy_lm, Examples.empty_pool).
Proof.
  assert (H1 : txn_id_to_first_log_record Examples.fuzzy_lm !! 5 = None)
    by (vm_compute; reflexivity).
  assert (H2 : N.of_nat (length (fuzzy_checkpoint_page_ids Examples.fuzzy_lm)) ≤ 2)
    by (vm_compute; discriminate).
  split; [split; assumption|].
  exact (degenerate_calls_are_noops 0 5 2 Examples.fuzzy_lm Examples.empty_pool H1 H2).
Defined.

(** C10: for a step index below the number of stored page ids,
  [log_fuzzy_checkpoint_do_step] returns the log manager it was given,
  every field untouched and no record appended, and the buffer manager
  after one [flush_page] of the page id stored at that index. *)
Theorem fuzzy_step_only_flushes lm bm step
    (Hrange : step < N.of_nat (length (fuzzy_checkpoint_page_ids lm))) :
  ∃ page_id,
    fuzzy_checkpoint_page_ids lm !! N.to_nat step = Some page_id
    ∧ log_fuzzy_checkpoint_do_step lm bm step
      = (lm, BufferManager.flush_page bm page_id).
Proof.
  destruct (lookup_lt_is_Some_2 (fuzzy_checkpoint_page_ids lm) (N.to_nat step))
    as [page_id Hp]; [lia|].
  exists page_id. split; [exact Hp|].
  unfold log_fuzzy_checkpoint_do_step.
  rewrite decide_False by lia.
  now rewrite (list_lookup_total_correct _ _ _ Hp).
Qed.

Lemma fuzzy_step_only_flushes_witness :
  1 < N.of_nat (length (fuzzy_checkpoint_page_ids Examples.fuzzy_lm))
  ∧ ∃ page_id,
      fuzzy_checkpoint_page_ids Examples.fuzzy_lm !! N.to_nat 1 = Some page_id
      ∧ log_fuzzy_checkpoint_do_step Examples.fuzzy_lm Examples.empty_pool 1
        = (Examples.fuzzy_lm, BufferManager.flush_page Examples.empty_pool page_id).
Proof.
  assert (H : 1 < N.of_nat (length (fuzzy_checkpoint_page_ids Examples.fuzzy_lm)))
    by (vm_compute; reflexivity).
  split; [exact H|].
  exact (fuzzy_step_only_flushes Examples.fuzzy_lm Examples.empty_pool 1 H).
Defined.

End Steps.

(** ** The forward scan of recovery, one record at a time *)

Section RecoveryScan.

Import LogManager.

Lemma recovery_loop_buffers_irrelevant fuel st pending since st' :
  recovery_body (with_buffers st pending since) = Some (Continue st') →
  recovery_body st = Some (Continue st') →
  rc_offset st < current_offset_ (rc_lm st) →
  recovery_loop fuel (with_buffers st pending since) = recovery_loop fuel st.
Proof.
  intros H1 H2 Hin. destruct fuel as [|fuel]; [reflexivity|].
  cbn [recovery_loop]. rewrite H1, H2.
  cbn [with_buffers rc_offset rc_lm].
  destruct (decide _); [reflexivity|contradiction].
Qed.

(** C5: at a CHECKPOINT record the scan counts the record and empties
  both [updatesSinceLastCheckpoint] and [updatesPending]; from there
  on the scan, and with it the set of updates considered for redo,
  does not depend on what the two buffers held, so no UPDATE that
  precedes the CHECKPOINT reaches that set. *)
Theorem checkpoint_discards_redo_state fuel st pending since
    (Hin : rc_offset st < current_offset_ (rc_lm st))
    (Htag : File.read_uchar (log_file_ (rc_lm st)) (rc_offset st)
            = Some (tag_of CHECKPOINT_RECORD)) :
  recovery_body st
  = Some (Continue (mk_recovery (incr CHECKPOINT_RECORD (rc_lm st))
                      (rc_offset st +! 1) [] [] (aborted_txns st)))
  ∧ recovery_loop fuel (with_buffers st pending since) = recovery_loop fuel st
  ∧ redo_candidates <$> recovery_loop fuel (with_buffers st pending since)
    = redo_candidates <$> recovery_loop fuel st.
Proof.
  assert (Hbody : ∀ p s, recovery_body (with_buffers st p s)
            = Some (Continue (mk_recovery (incr CHECKPOINT_RECORD (rc_lm st))
                                (rc_offset st +! 1) [] [] (aborted_txns st)))).
  { intros p s. unfold recovery_body, with_buffers.
    cbn [rc_lm rc_offset aborted_txns]. rewrite Htag. cbn [mbind option_bind].
    tag_cases. reflexivity. }
  assert (Hst : recovery_body st
            = Some (Continue (mk_recovery (incr CHECKPOINT_RECORD (rc_lm st))
                                (rc_offset st +! 1) [] [] (aborted_txns st)))).
  { specialize (Hbody (updatesPending st) (updatesSinceLastCheckpoint st)).
    destruct st; exact Hbody. }
  assert (Hloop : recovery_loop fuel (with_buffers st pending since)
                  = recovery_loop fuel st).
  { eapply recovery_loop_buffers_irrelevant; [apply Hbody|apply Hst|exact Hin]. }
  split; [exact Hst|]. split; [exact Hloop|]. now rewrite Hloop.
Qed.

Lemma checkpoint_discards_redo_state_witness :
  (rc_offset Examples.at_checkpoint < current_offset_ (rc_lm Examples.at_checkpoint)
   ∧ File.read_uchar (log_file_ (rc_lm Examples.at_checkpoint))
       (rc_offset Examples.at_checkpoint) = Some (tag_of CHECKPOINT_RECORD))
  ∧ redo_candidates
      <$> recovery_loop 3 (with_buffers Examples.at_checkpoint [Examples.u2] [Examples.u2])
    = redo_candidates <$> recovery_loop 3 Examples.at_checkpoint.
Proof.
  assert (H1 : rc_offset Examples.at_checkpoint
               < current_offset_ (rc_lm Examples.at_checkpoint))
    by (vm_compute; reflexivity).
  assert (H2 : File.read_uchar (log_file_ (rc_lm Examples.at_checkpoint))
                 (rc_offset Examples.at_checkpoint) = Some (tag_of CHECKPOINT_RECORD))
    by (vm_compute; reflexivity).
  split; [split; assumption|].
  exact (proj2 (proj2 (checkpoint_discards_redo_state 3 Examples.at_checkpoint
                         [Examples.u2] [Examples.u2] H1 H2))).
Defined.

(** C1, as the code has it: at a BEGIN_FUZZY_CHECKPOINT record the scan
  counts the record, makes [updatesPending] exactly the contents of
  [updatesSinceLastCheckpoint] (what was pending before is dropped, not
  kept), and clears [updatesSinceLastCheckpoint]; from there on the
  scan does not depend on what was pending, so after a second
  BEGIN_FUZZY the updates recorded before the first one are pending no
  more. *)
Theorem begin_fuzzy_replaces_pending fuel st pending
    (Hin : rc_offset st < current_offset_ (rc_lm st))
    (Htag : File.read_uchar (log_file_ (rc_lm st)) (rc_offset st)
            = Some (tag_of BEGIN_FUZZY_CHECKPOINT_RECORD)) :
  recovery_body st
  = Some (Continue (mk_recovery (incr BEGIN_FUZZY_CHECKPOINT_RECORD (rc_lm st))
                      (rc_offset st +! 1) (updatesSinceLastCheckpoint st) []
                      (aborted_txns st)))
  ∧ recovery_loop fuel (with_buffers st pending (updatesSinceLastCheckpoint st))
    = recovery_loop fuel st.
Proof.
  assert (Hbody : ∀ p, recovery_body (with_buffers st p (updatesSinceLastCheckpoint st))
            = Some (Continue (mk_recovery (incr BEGIN_FUZZY_CHECKPOINT_RECORD (rc_lm st))
                                (rc_offset st +! 1) (updatesSinceLastCheckpoint st) []
                                (aborted_txns st)))).
  { intros p. unfold recovery_body, with_buffers.
    cbn [rc_lm rc_offset aborted_txns updatesSinceLastCheckpoint].
    rewrite Htag. cbn [mbind option_bind].
    tag_cases. rewrite push_all_app. reflexivity. }
  assert (Hst : recovery_body st
            = Some (Continue (mk_recovery (incr BEGIN_FUZZY_CHECKPOINT_RECORD (rc_lm st))
                                (rc_offset st +! 1) (updatesSinceLastCheckpoint st) []
                                (aborted_txns st)))).
  { specialize (Hbody (updatesPending st)). destruct st; exact Hbody. }
  split; [exact Hst|].
  eapply recovery_loop_buffers_irrelevant; [apply Hbody|apply Hst|exact Hin].
Qed.

Lemma begin_fuzzy_replaces_pending_witness :
  (rc_offset Examples.at_second_fuzzy < current_offset_ (rc_lm Examples.at_second_fuzzy)
   ∧ File.read_uchar (log_file_ (rc_lm Examples.at_second_fuzzy))
       (rc_offset Examples.at_second_fuzzy)
     = Some (tag_of BEGIN_FUZZY_CHECKPOINT_RECORD))
  ∧ recovery_body Examples.at_second_fuzzy
    = Some (Continue
              (mk_recovery
                 (incr BEGIN_FUZZY_CHECKPOINT_RECORD (rc_lm Examples.at_second_fuzzy))
                 (rc_offset Examples.at_second_fuzzy +! 1) [] [] ∅)).
Proof.
  assert (H1 : rc_offset Examples.at_second_fuzzy
               < current_offset_ (rc_lm Examples.at_second_fuzzy))
    by (vm_compute; reflexivity).
  assert (H2 : File.read_uchar (log_file_ (rc_lm Examples.at_second_fuzzy))
                 (rc_offset Examples.at_second_fuzzy)
               = Some (tag_of BEGIN_FUZZY_CHECKPOINT_RECORD))
    by (vm_compute; reflexivity).
  split; [split; assumption|].
  exact (proj1 (begin_fuzzy_replaces_pending 0 Examples.at_second_fuzzy [] H1 H2)).
Defined.

(** C1 as stated fails: on the log UPDATE, BEGIN_FUZZY, BEGIN_FUZZY the
  update is pending after the first BEGIN_FUZZY and gone after the
  second, where appending would have kept it. *)
Lemma begin_fuzzy_append_counterexample :
  updatesPending <$> recovery_loop 4 (recovery_init (new Examples.two_fuzzy_log))
  = Done []
  ∧ updatesPending Examples.at_second_fuzzy = [Examples.u1]
  ∧ ∃ st', recovery_body Examples.at_second_fuzzy = Some (Continue st')
           ∧ updatesPending st' = []
           ∧ updatesPending st'
             ≠ updatesPending Examples.at_second_fuzzy
                 ++ updatesSinceLastCheckpoint Examples.at_second_fuzzy.
Proof.
  split; [vm_compute; reflexivity|].
  split; [reflexivity|].
  eexists. split; [vm_compute; reflexivity|].
  split; [reflexivity|]. discriminate.
Qed.

Lemma map_insert_lookup txn_id n (m : gmap N N) :
  map_insert txn_id n m !! txn_id = Some (default n (m !! txn_id)).
Proof.
  unfold map_insert. destruct (m !! txn_id) as [v|] eqn:E; simpl.
  - exact E.
  - apply lookup_insert_eq.
Qed.

Lemma map_insert_lookup_ne txn_id txn_id' n (m : gmap N N) :
  txn_id ≠ txn_id' → map_insert txn_id n m !! txn_id' = m !! txn_id'.
Proof.
  intros Hne. unfold map_insert. destruct (m !! txn_id); [done|].
  now apply lookup_insert_ne.
Qed.

(** C6, as the code has it: [log_txn_begin] enters the total record
  count taken before the BEGIN is counted under a transaction id that
  has no entry yet, and leaves an entry that is already there as it
  is ([std::map::insert] does not overwrite); the total grows by one,
  so a freshly entered ordinal [n] makes this BEGIN the [(n+1)]-th
  record.  The BEGIN branch of the scan of recovery does the same. *)
Theorem begin_records_ordinal txn_id lm st
    (Hoff : current_offset_ lm + 9 < U64.modulus)
    (Htag : File.read_uchar (log_file_ (rc_lm st)) (rc_offset st)
            = Some (tag_of BEGIN_RECORD))
    (Hid : File.read_u64 (log_file_ (rc_lm st)) (rc_offset st +! 1) = Some txn_id) :
  (∃ lm', log_txn_begin txn_id lm = Some lm'
     ∧ txn_id_to_first_log_record lm' !! txn_id
       = Some (default (total_records lm) (txn_id_to_first_log_record lm !! txn_id))
     ∧ total_records lm' = U64.wrap (total_records lm + 1))
  ∧ (∃ st', recovery_body st = Some (Continue st')
     ∧ txn_id_to_first_log_record (rc_lm st') !! txn_id
       = Some (default (total_records (rc_lm st))
                 (txn_id_to_first_log_record (rc_lm st) !! txn_id))
     ∧ total_records (rc_lm st') = U64.wrap (total_records (rc_lm st) + 1)).
Proof.
  split.
  - unfold log_txn_begin.
    assert (E1 : current_offset_ lm +! sizeof_uchar = current_offset_ lm + 1)
      by (apply add64_small; unfold sizeof_uchar; lia).
    assert (E2 : current_offset_ lm + 1 +! sizeof_u64 = current_offset_ lm + 9).
    { unfold sizeof_u64. rewrite add64_small by lia. lia. }
    rewrite E1, E2.
    destruct (write_block_Some (File.resize (log_file_ lm) (current_offset_ lm + 9))
                (Bytes.encode_u64 txn_id) (current_offset_ lm + 1) sizeof_u64)
      as (f1 & -> & Hl1).
    { rewrite length_resize. unfold sizeof_u64. lia. }
    { rewrite length_encode_u64. unfold sizeof_u64. lia. }
    cbn [mbind option_bind].
    destruct (write_block_Some f1 (tag_bytes BEGIN_RECORD) (current_offset_ lm)
                sizeof_uchar) as (f2 & -> & Hl2).
    { rewrite Hl1, length_resize. unfold sizeof_uchar. lia. }
    { rewrite length_tag_bytes. unfold sizeof_uchar. lia. }
    cbn [mbind option_bind]. eexists. split; [reflexivity|]. split.
    + cbn [with_txns txn_id_to_first_log_record]. apply map_insert_lookup.
    + rewrite total_records_with_txns, total_records_incr by done.
      rewrite total_records_touched. reflexivity.
  - unfold recovery_body. rewrite Htag. cbn [mbind option_bind].
    tag_cases. unfold sizeof_uchar. rewrite Hid. cbn [mbind option_bind].
    eexists. split; [reflexivity|]. split.
    + cbn [rc_lm incr with_counts with_txns txn_id_to_first_log_record].
      apply map_insert_lookup.
    + cbn [rc_lm]. rewrite total_records_incr by done.
      rewrite total_records_with_txns, total_records_touched. reflexivity.
Qed.

Lemma begin_records_ordinal_witness :
  (current_offset_ (new []) + 9 < U64.modulus
   ∧ File.read_uchar (log_file_ (rc_lm Examples.at_begin)) (rc_offset Examples.at_begin)
     = Some (tag_of BEGIN_RECORD)
   ∧ File.read_u64 (log_file_ (rc_lm Examples.at_begin))
       (rc_offset Examples.at_begin +! 1) = Some 1)
  ∧ ∃ lm', log_txn_begin 1 (new []) = Some lm'
      ∧ txn_id_to_first_log_record lm' !! 1
        = Some (default (total_records (new []))
                  (txn_id_to_first_log_record (new []) !! 1))
      ∧ total_records lm' = U64.wrap (total_records (new []) + 1).
Proof.
  assert (H1 : current_offset_ (new []) + 9 < U64.modulus)
    by (vm_compute; reflexivity).
  assert (H2 : File.read_uchar (log_file_ (rc_lm Examples.at_begin))
                 (rc_offset Examples.at_begin) = Some (tag_of BEGIN_RECORD))
    by (vm_compute; reflexivity).
  assert (H3 : File.read_u64 (log_file_ (rc_lm Examples.at_begin))
                 (rc_offset Examples.at_begin +! 1) = Some 1)
    by (vm_compute; reflexivity).
  split; [repeat split; assumption|].
  exact (proj1 (begin_records_ordinal 1 (new []) Examples.at_begin H1 H2 H3)).
Defined.

(** C6 as stated fails for a transaction id that already has an entry:
  after two BEGINs of transaction 1 on an empty log the entry is still
  the ordinal 0 of the first BEGIN, while the total record count before
  the second BEGIN was 1. *)
Lemma begin_existing_txn_counterexample :
  ∃ lm1 lm2,
    log_txn_begin 1 (new []) = Some lm1
    ∧ log_txn_begin 1 lm1 = Some lm2
    ∧ total_records lm1 = 1
    ∧ txn_id_to_first_log_record lm2 !! 1 = Some 0
    ∧ txn_id_to_first_log_record lm2 !! 1 ≠ Some (total_records lm1).
Proof.
  eexists. eexists.
  split; [vm_compute; reflexivity|].
  split; [vm_compute; reflexivity|].
  split; [vm_compute; reflexivity|].
  split; [vm_compute; reflexivity|].
  vm_compute. discriminate.
Qed.

Ltac destruct_reads f o :=
  try (destruct (File.read_u64 f (o +! 1)) as [?t|];
       cbn [mbind option_bind]; [|reflexivity]);
  destruct (File.read_u64 f (o +! 1 +! 8)) as [?p|];
    cbn [mbind option_bind]; [|reflexivity];
  destruct (File.read_u64 f (o +! 1 +! 16)) as [len|];
    cbn [mbind option_bind]; [|reflexivity];
  destruct (File.read_u64 f (o +! 1 +! 24)) as [?po|];
    cbn [mbind option_bind]; [|reflexivity];
  destruct (File.read_block f (o +! 1 +! 32) len) as [?bi|];
    cbn [mbind option_bind]; [|reflexivity];
  destruct (File.read_block f (o +! 1 +! 32 +! len) len) as [?ai|];
    cbn [mbind option_bind]; reflexivity.

Lemma unknown_tag_ge tag : type_of_tag tag = None → 8 ≤ tag.
Proof.
  intros H. destruct (N.lt_ge_cases tag 8) as [Hlt|Hge]; [|exact Hge].
  exfalso.
  assert (Hcases : tag = 0 ∨ tag = 1 ∨ tag = 2 ∨ tag = 3 ∨ tag = 4
                   ∨ tag = 5 ∨ tag = 6 ∨ tag = 7) by lia.
  repeat (destruct Hcases as [->|Hcases]; [discriminate H|]).
  subst. discriminate H.
Qed.

(** C2, as the code has it: a tag byte that is neither zero nor one of
  the seven defined kinds does not end a scan.  Both scans take their
  last branch, the one written for UPDATE: recovery decodes an update
  descriptor at that offset, buffers it and counts an UPDATE; rollback
  collects the descriptor if its transaction id matches and steps over
  it otherwise; either continues at the offset behind the images.
  Neither scan leaves its loop there. *)
Theorem unknown_tag_decoded_as_update st lm txn_id rst tag
    (Hunknown : type_of_tag tag = None)
    (Hrec : File.read_uchar (log_file_ (rc_lm st)) (rc_offset st) = Some tag)
    (Hrb : File.read_uchar (log_file_ lm) (rb_offset rst) = Some tag) :
  recovery_body st
  = ('(u, next) ← decode_update (log_file_ (rc_lm st)) (rc_offset st);
     Some (Continue
             (mk_recovery (incr UPDATE_RECORD (rc_lm st)) next (updatesPending st)
                (updatesSinceLastCheckpoint st ++ [u]) (aborted_txns st))))
  ∧ rollback_body lm txn_id rst
    = (current_txn_id ← File.read_u64 (log_file_ lm) (rb_offset rst +! 1);
       if decide (current_txn_id = txn_id) then
         '(u, next) ← decode_update (log_file_ lm) (rb_offset rst);
         Some (Continue (mk_rollback next (rb_updates rst ++ [u])))
       else
         next ← skip_update (log_file_ lm) (rb_offset rst);
         Some (Continue (mk_rollback next (rb_updates rst))))
  ∧ (∀ st', recovery_body st ≠ Some (Break st'))
  ∧ (∀ rst', rollback_body lm txn_id rst ≠ Some (Break rst')).
Proof.
  apply unknown_tag_ge in Hunknown.
  assert (Hr : recovery_body st
    = ('(u, next) ← decode_update (log_file_ (rc_lm st)) (rc_offset st);
       Some (Continue
               (mk_recovery (incr UPDATE_RECORD (rc_lm st)) next (updatesPending st)
                  (updatesSinceLastCheckpoint st ++ [u]) (aborted_txns st))))).
  { unfold recovery_body, decode_update. rewrite Hrec. cbn [mbind option_bind].
    tag_cases. norm_sizes.
    destruct_reads (log_file_ (rc_lm st)) (rc_offset st). }
  assert (Hb : rollback_body lm txn_id rst
    = (current_txn_id ← File.read_u64 (log_file_ lm) (rb_offset rst +! 1);
       if decide (current_txn_id = txn_id) then
         '(u, next) ← decode_update (log_file_ lm) (rb_offset rst);
         Some (Continue (mk_rollback next (rb_updates rst ++ [u])))
       else
         next ← skip_update (log_file_ lm) (rb_offset rst);
         Some (Continue (mk_rollback next (rb_updates rst))))).
  { unfold rollback_body, decode_update, skip_update. rewrite Hrb.
    cbn [mbind option_bind]. tag_cases. norm_sizes.
    destruct (File.read_u64 (log_file_ lm) (rb_offset rst +! 1)) as [cur|];
      cbn [mbind option_bind]; [|reflexivity].
    destruct (decide (cur = txn_id)).
    - destruct_reads (log_file_ lm) (rb_offset rst).
    - destruct (File.read_u64 (log_file_ lm) (rb_offset rst +! 1 +! 16));
        reflexivity. }
  split; [exact Hr|]. split; [exact Hb|]. split.
  - intros st'. rewrite Hr.
    destruct (decode_update (log_file_ (rc_lm st)) (rc_offset st)) as [[u next]|];
      cbn [mbind option_bind]; discriminate.
  - intros rst'. rewrite Hb.
    destruct (File.read_u64 (log_file_ lm) (rb_offset rst +! 1)) as [cur|];
      cbn [mbind option_bind]; [|discriminate].
    destruct (decide (cur = txn_id)).
    + destruct (decode_update (log_file_ lm) (rb_offset rst)) as [[u next]|];
        cbn [mbind option_bind]; discriminate.
    + destruct (skip_update (log_file_ lm) (rb_offset rst));
        cbn [mbind option_bind]; discriminate.
Qed.

Lemma unknown_tag_decoded_as_update_witness :
  (type_of_tag 8 = None
   ∧ File.read_uchar (log_file_ (rc_lm Examples.at_unknown))
       (rc_offset Examples.at_unknown) = Some 8
   ∧ File.read_uchar (log_file_ (rc_lm Examples.at_unknown))
       (rb_offset Examples.rollback_at_unknown) = Some 8)
  ∧ ∀ st', recovery_body Examples.at_unknown ≠ Some (Break st').
Proof.
  assert (H1 : type_of_tag 8 = None) by reflexivity.
  assert (H2 : File.read_uchar (log_file_ (rc_lm Examples.at_unknown))
                 (rc_offset Examples.at_unknown) = Some 8)
    by (vm_compute; reflexivity).
  assert (H3 : File.read_uchar (log_file_ (rc_lm Examples.at_unknown))
                 (rb_offset Examples.rollback_at_unknown) = Some 8)
    by (vm_compute; reflexivity).
  split; [repeat split; assumption|].
  exact (proj1 (proj2 (proj2
           (unknown_tag_decoded_as_update Examples.at_unknown
              (rc_lm Examples.at_unknown) 0 Examples.rollback_at_unknown 8 H1 H2 H3)))).
Defined.

(** C2 as stated fails: on a log that starts with a record of the
  undefined tag 8 and goes on with BEGIN 7, the scan of recovery runs
  through to the end of the file at offset 42, having counted one
  UPDATE and one BEGIN and entered transaction 7 with ordinal 1; the
  scan of rollback for transaction 0 collects the record of unknown
  tag as an update and also reaches offset 42. *)
Lemma unknown_tag_counterexample :
  (λ st, (rc_offset st,
          count_at (log_record_type_to_count (rc_lm st)) UPDATE_RECORD,
          count_at (log_record_type_to_count (rc_lm st)) BEGIN_RECORD,
          txn_id_to_first_log_record (rc_lm st) !! 7))
    <$> recovery_loop 3 Examples.at_unknown
  = Done (42, 1, 1, Some 1)
  ∧ (λ rst, (rb_offset rst, rb_updates rst))
      <$> rollback_loop 3 (rc_lm Examples.at_unknown) 0 Examples.rollback_at_unknown
    = Done (42, [UpdateInfo.mk 0 0 0 0 [] []]).
Proof. split; vm_compute; reflexivity. Qed.

(** C3, the code at the failing input: recovery of the log BEGIN 1,
  ABORT 1 returns with transaction 1 still entered in
  [txn_id_to_first_log_record], whereas the same two records appended
  through [log_txn_begin] and [log_abort] leave no entry. *)
Lemma recovery_keeps_aborted_entry :
  (λ r, txn_id_to_first_log_record r.1 !! 1)
    <$> recovery 3 (new Examples.begin_abort_log) Examples.empty_pool
  = Done (Some 0)
  ∧ (λ r, (log_file_ r.1, txn_id_to_first_log_record r.1 !! 1))
      <$> run_ops 3 [OpBegin 1; OpAbort 1] (new []) Examples.empty_pool
    = Done (Examples.begin_abort_log, None).
Proof. split; vm_compute; reflexivity. Qed.

End RecoveryScan.

(** ** Rollback applied twice *)

Section RollbackTwice.

Import LogManager.

Lemma undo_updates_spec ws bm :
  undo_updates ws bm
  = if decide (Forall (undo_in_bounds (BufferManager.page_size bm)) ws)
    then Some (BufferManager.mk (BufferManager.page_size bm)
                 (undo_image ws ∪ BufferManager.data bm)
                 (undo_pages ws ∪ BufferManager.dirty bm)
                 (BufferManager.disk bm))
    else None.
Proof.
  revert bm. induction ws as [|w ws IH]; intros bm.
  - cbn [undo_updates undo_image undo_pages].
    rewrite decide_True by constructor.
    rewrite (left_id_L ∅ (∪)), (left_id_L ∅ (∪)). now destruct bm.
  - cbn [undo_updates undo_image undo_pages]. unfold BufferManager.write_page.
    destruct (decide (UpdateInfo.offset w + UpdateInfo.length w
                        ≤ BufferManager.page_size bm
                      ∧ UpdateInfo.length w
                        ≤ N.of_nat (length (UpdateInfo.before_img w)))) as [Hw|Hw].
    + cbn [mbind option_bind]. rewrite IH. cbn [BufferManager.page_size
        BufferManager.data BufferManager.dirty BufferManager.disk].
      destruct (decide (Forall (undo_in_bounds (BufferManager.page_size bm)) ws))
        as [Hws|Hws].
      * rewrite decide_True by (constructor; assumption).
        now rewrite !(assoc_L (∪)).
      * rewrite decide_False; [reflexivity|].
        intros Hall. apply Hws. now inversion Hall.
    + cbn [mbind option_bind]. rewrite decide_False; [reflexivity|].
      intros Hall. apply Hw. now inversion Hall.
Qed.

Lemma undo_updates_twice ws bm bm' :
  undo_updates ws bm = Some bm' → undo_updates ws bm' = Some bm'.
Proof.
  rewrite !undo_updates_spec. intros H.
  destruct (decide (Forall (undo_in_bounds (BufferManager.page_size bm)) ws))
    as [Hws|Hws]; [|discriminate H].
  injection H as <-.
  cbn [BufferManager.page_size BufferManager.data BufferManager.dirty
       BufferManager.disk].
  rewrite decide_True by assumption.
  rewrite !(assoc_L (∪)), !(idemp_L (∪)). reflexivity.
Qed.

(** C7: for every transaction id, log manager and buffer manager,
  running [rollback_txn] and then running it again on what it returned
  (nothing appended in between) has the outcome of running it once:
  the same log manager and the same page contents, dirty set included. *)
Theorem rollback_txn_idempotent fuel txn_id lm bm :
  (rollback_txn fuel txn_id lm bm
     ≫= λ '(lm', bm'), rollback_txn fuel txn_id lm' bm')
  = rollback_txn fuel txn_id lm bm.
Proof.
  unfold rollback_txn.
  destruct (txn_id_to_first_log_record lm !! txn_id) as [n|] eqn:Hlive.
  - destruct (rollback_loop fuel lm txn_id (mk_rollback 0 [])) as [st| |] eqn:Hscan;
      [|reflexivity|reflexivity].
    cbn [mbind outcome_mbind outcome_bind].
    destruct (undo_updates (rev (rb_updates st)) bm) as [bm'|] eqn:Hundo;
      [|reflexivity].
    cbn [of_option mbind outcome_mbind outcome_bind].
    rewrite Hlive, Hscan. cbn [mbind outcome_mbind outcome_bind].
    rewrite (undo_updates_twice _ _ _ Hundo). reflexivity.
  - cbn [mbind outcome_mbind outcome_bind]. now rewrite Hlive.
Qed.

End RollbackTwice.

(** ** Reading back what the appends lay down *)

Section Layout.

Lemma to_N_byte_of_N n : Byte.to_N (Bytes.byte_of_N n) = n mod 256.
Proof.
  unfold Bytes.byte_of_N.
  destruct (Byte.of_N (n mod 256)) as [b|] eqn:E.
  - now apply Byte.to_of_N.
  - apply Byte.of_N_None_iff in E.
    assert (n mod 256 < 256) by (apply N.mod_lt; discriminate). lia.
Qed.

Lemma le_decode_encode width v :
  Bytes.le_decode (Bytes.le_encode width v) = v mod 256 ^ N.of_nat width.
Proof.
  revert v. induction width as [|k IH]; intros v.
  - simpl. now rewrite N.mod_1_r.
  - cbn [Bytes.le_encode Bytes.le_decode]. rewrite IH, to_N_byte_of_N.
    rewrite Nat2N.inj_succ, N.pow_succ_r'.
    rewrite (N.Div0.mod_mul_r v 256 (256 ^ N.of_nat k)). reflexivity.
Qed.

Lemma decode_encode_u64 v :
  v < U64.modulus → Bytes.le_decode (Bytes.encode_u64 v) = v.
Proof.
  intros H. unfold Bytes.encode_u64. rewrite le_decode_encode.
  apply N.mod_small. exact H.
Qed.

Lemma decode_tag_bytes type : Bytes.le_decode (tag_bytes type) = tag_of type.
Proof. destruct type; reflexivity. Qed.

Lemma read_block_segment (pre d post : list byte) f o n :
  f = pre ++ d ++ post →
  o = N.of_nat (length pre) →
  n = N.of_nat (length d) →
  File.read_block f o n = Some d.
Proof.
  intros -> -> ->. unfold File.read_block.
  rewrite decide_True by (rewrite !length_app; lia).
  rewrite !Nat2N.id, drop_app_length, take_app_length. reflexivity.
Qed.

Lemma read_u64_segment (pre post : list byte) v f o :
  f = pre ++ Bytes.encode_u64 v ++ post →
  o = N.of_nat (length pre) →
  v < U64.modulus →
  File.read_u64 f o = Some v.
Proof.
  intros Hf Ho Hv. unfold File.read_u64.
  rewrite (read_block_segment pre (Bytes.encode_u64 v) post f o sizeof_u64 Hf Ho)
    by reflexivity.
  cbn [mbind option_bind]. now rewrite decode_encode_u64.
Qed.

Lemma read_uchar_segment (pre post : list byte) type f o :
  f = pre ++ tag_bytes type ++ post →
  o = N.of_nat (length pre) →
  File.read_uchar f o = Some (tag_of type).
Proof.
  intros Hf Ho. unfold File.read_uchar.
  rewrite (read_block_segment pre (tag_bytes type) post f o sizeof_uchar Hf Ho)
    by reflexivity.
  cbn [mbind option_bind]. now rewrite decode_tag_bytes.
Qed.

(** A byte that is still zero reads as the tag that ends a scan. *)
Lemma read_uchar_zero (pre post : list byte) f o :
  f = pre ++ x00 :: post →
  o = N.of_nat (length pre) →
  File.read_uchar f o = Some 0.
Proof.
  intros Hf Ho. unfold File.read_uchar.
  rewrite (read_block_segment pre [x00] post f o sizeof_uchar Hf Ho) by reflexivity.
  reflexivity.
Qed.

Lemma length_encode_record r :
  wf_record r →
  N.of_nat (length (encode_record r))
  = match r with
    | Abort _ | Commit _ | Begin _ => 9
    | Update u => 33 + 2 * UpdateInfo.length u
    | Checkpoint | BeginFuzzy | EndFuzzy => 1
    end.
Proof.
  destruct r; intros Hwf; try reflexivity.
  destruct Hwf as (_ & _ & _ & _ & Hb & Ha).
  unfold encode_record, encode_payload.
  rewrite !length_app, !length_encode_u64, length_tag_bytes. lia.
Qed.

Lemma encode_record_tag r :
  encode_record r = tag_bytes (record_type r) ++ encode_payload r.
Proof. reflexivity. Qed.

Lemma encode_record_nonempty r : (0 < length (encode_record r))%nat.
Proof. unfold encode_record. rewrite length_app, length_tag_bytes. lia. Qed.

End Layout.

(** ** The scan of rollback over a well-formed log *)

Section RollbackScan.

Import LogManager.

Variables (lm : LogManager.t) (txn_id : N).

Hypothesis Hsize : N.of_nat (length (log_file_ lm)) < U64.modulus.

(** The loop body at the first byte of an encoded record. *)
Lemma rollback_body_record pre r rest acc :
  log_file_ lm = pre ++ encode_record r ++ rest →
  wf_record r →
  rollback_body lm txn_id (mk_rollback (N.of_nat (length pre)) acc)
  = Some match r with
         | Abort t =>
             if decide (t = txn_id)
             then Break (mk_rollback (N.of_nat (length (pre ++ encode_record r))) acc)
             else Continue (mk_rollback (N.of_nat (length (pre ++ encode_record r))) acc)
         | Update u =>
             Continue
               (mk_rollback (N.of_nat (length (pre ++ encode_record r)))
                  (if decide (UpdateInfo.txn_id u = txn_id) then acc ++ [u] else acc))
         | _ => Continue (mk_rollback (N.of_nat (length (pre ++ encode_record r))) acc)
         end.
Proof.
  intros Hfile Hwf.
  assert (Hlen : N.of_nat (length pre) + N.of_nat (length (encode_record r))
                 ≤ N.of_nat (length (log_file_ lm))).
  { rewrite Hfile, !length_app. lia. }
  assert (Hnext : N.of_nat (length (pre ++ encode_record r))
                  = N.of_nat (length pre) + N.of_nat (length (encode_record r))).
  { rewrite length_app. lia. }
  rewrite Hnext. rewrite (length_encode_record r Hwf) in *. clear Hnext.
  unfold rollback_body. cbn [rb_offset rb_updates].
  rewrite (read_uchar_segment pre (encode_payload r ++ rest) (record_type r));
    [|rewrite Hfile, encode_record_tag, <- app_assoc; reflexivity|reflexivity].
  cbn [mbind option_bind].
  destruct r as [t|t|u|t| | |]; cbn [record_type tag_of]; tag_consts.
  - (* ABORT *)
    unwrap.
    rewrite (read_u64_segment (pre ++ tag_bytes ABORT_RECORD) rest t
               (log_file_ lm) (N.of_nat (length pre) + 1));
      [|rewrite Hfile; unfold encode_record, encode_payload; cbn [record_type];
        rewrite <- !app_assoc; reflexivity
       |rewrite length_app, length_tag_bytes; lia
       |exact Hwf].
    cbn [mbind option_bind].
    destruct (decide (t = txn_id)); do 3 f_equal; lia.
  - (* COMMIT *) unwrap. do 3 f_equal; lia.
  - (* UPDATE *)
    destruct Hwf as (Ht & Hp & Hl & Ho & Hb & Ha).
    destruct u as [ut up ul uo ub ua]. cbn [UpdateInfo.txn_id UpdateInfo.page_id
      UpdateInfo.length UpdateInfo.offset UpdateInfo.before_img UpdateInfo.after_img] in *.
    unfold encode_record, encode_payload in Hfile.
    cbn [record_type UpdateInfo.txn_id UpdateInfo.page_id
      UpdateInfo.length UpdateInfo.offset UpdateInfo.before_img UpdateInfo.after_img]
      in Hfile.
    rewrite <- !app_assoc in Hfile.
    unwrap.
    rewrite (read_u64_segment (pre ++ tag_bytes UPDATE_RECORD)
               (Bytes.encode_u64 up ++ Bytes.encode_u64 ul ++ Bytes.encode_u64 uo
                  ++ ub ++ ua ++ rest) ut (log_file_ lm) (N.of_nat (length pre) + 1));
      [|rewrite Hfile, <- !app_assoc; reflexivity
       |rewrite length_app, length_tag_bytes; lia
       |exact Ht].
    cbn [mbind option_bind].
    assert (Hrl : File.read_u64 (log_file_ lm) (N.of_nat (length pre) + 1 + 16) = Some ul).
    { apply (read_u64_segment
               (pre ++ tag_bytes UPDATE_RECORD ++ Bytes.encode_u64 ut ++ Bytes.encode_u64 up)
               (Bytes.encode_u64 uo ++ ub ++ ua ++ rest) ul);
        [rewrite Hfile, <- !app_assoc; reflexivity
        |rewrite !length_app, !length_encode_u64, length_tag_bytes; lia
        |exact Hl]. }
    destruct (decide (ut = txn_id)) as [Heq|Hne].
    + rewrite (read_u64_segment (pre ++ tag_bytes UPDATE_RECORD ++ Bytes.encode_u64 ut)
                 (Bytes.encode_u64 ul ++ Bytes.encode_u64 uo ++ ub ++ ua ++ rest) up
                 (log_file_ lm) (N.of_nat (length pre) + 1 + 8));
        [|rewrite Hfile, <- !app_assoc; reflexivity
         |rewrite !length_app, !length_encode_u64, length_tag_bytes; lia
         |exact Hp].
      cbn [mbind option_bind]. rewrite Hrl. cbn [mbind option_bind].
      rewrite (read_u64_segment
                 (pre ++ tag_bytes UPDATE_RECORD ++ Bytes.encode_u64 ut
                    ++ Bytes.encode_u64 up ++ Bytes.encode_u64 ul)
                 (ub ++ ua ++ rest) uo (log_file_ lm) (N.of_nat (length pre) + 1 + 24));
        [|rewrite Hfile, <- !app_assoc; reflexivity
         |rewrite !length_app, !length_encode_u64, length_tag_bytes; lia
         |exact Ho].
      cbn [mbind option_bind]. unwrap.
      rewrite (read_block_segment
                 (pre ++ tag_bytes UPDATE_RECORD ++ Bytes.encode_u64 ut
                    ++ Bytes.encode_u64 up ++ Bytes.encode_u64 ul ++ Bytes.encode_u64 uo)
                 ub (ua ++ rest) (log_file_ lm) (N.of_nat (length pre) + 1 + 32) ul);
        [|rewrite Hfile, <- !app_assoc; reflexivity
         |rewrite !length_app, !length_encode_u64, length_tag_bytes; lia
         |lia].
      cbn [mbind option_bind].
      rewrite (read_block_segment
                 (pre ++ tag_bytes UPDATE_RECORD ++ Bytes.encode_u64 ut
                    ++ Bytes.encode_u64 up ++ Bytes.encode_u64 ul ++ Bytes.encode_u64 uo
                    ++ ub)
                 ua rest (log_file_ lm) (N.of_nat (length pre) + 1 + 32 + ul) ul);
        [|rewrite Hfile, <- !app_assoc; reflexivity
         |rewrite !length_app, !length_encode_u64, length_tag_bytes; lia
         |lia].
      cbn [mbind option_bind]. unwrap. do 3 f_equal; lia.
    + rewrite Hrl. cbn [mbind option_bind]. unwrap. do 3 f_equal; lia.
  - (* BEGIN *) unwrap. do 3 f_equal; lia.
  - (* CHECKPOINT *) unwrap. do 3 f_equal; lia.
  - (* BEGIN_FUZZY *) unwrap. do 3 f_equal; lia.
  - (* END_FUZZY *) unwrap. do 3 f_equal; lia.
Qed.

(** The whole loop over the encoded records that follow [pre]. *)
Lemma rollback_loop_log recs :
  ∀ pre acc fuel tail,
    log_file_ lm = pre ++ encode_log recs ++ tail →
    Forall wf_record recs →
    torn_tail tail →
    current_offset_ lm = File.size (log_file_ lm) →
    (length recs < fuel)%nat →
    ∃ off, rollback_loop fuel lm txn_id (mk_rollback (N.of_nat (length pre)) acc)
           = Done (mk_rollback off (acc ++ updates_to_undo txn_id recs)).
Proof.
  unfold File.size.
  induction recs as [|r recs IH]; intros pre acc fuel tail Hfile Hwf Htail Hoff Hfuel;
    (destruct fuel as [|fuel]; [cbn in Hfuel; lia|]);
    cbn [rollback_loop rb_offset].
  - cbn [encode_log app updates_to_undo] in *. rewrite app_nil_r.
    destruct tail as [|b tail].
    + rewrite decide_False; [eauto|].
      rewrite Hoff, Hfile, app_nil_r. lia.
    + cbn in Htail. subst b. rewrite decide_True
        by (rewrite Hoff, Hfile, length_app; cbn [length]; lia).
      unfold rollback_body. cbn [rb_offset].
      rewrite (read_uchar_zero pre tail (log_file_ lm) _ Hfile eq_refl).
      cbn [mbind option_bind tag_of]. rewrite decide_True by reflexivity. eauto.
  - cbn [encode_log] in Hfile. rewrite <- app_assoc in Hfile.
    apply Forall_cons in Hwf as [Hr Hwf].
    pose proof (encode_record_nonempty r) as Hne.
    rewrite decide_True
      by (rewrite Hoff, Hfile, !length_app; lia).
    rewrite (rollback_body_record pre r (encode_log recs ++ tail) acc Hfile Hr).
    assert (Hfile' : log_file_ lm = (pre ++ encode_record r) ++ encode_log recs ++ tail)
      by (rewrite Hfile, <- app_assoc; reflexivity).
    assert (Hfuel' : (length recs < fuel)%nat) by (cbn [length] in Hfuel; lia).
    destruct r as [t|t|u|t| | |]; cbn [updates_to_undo];
      try (apply (IH _ _ _ tail Hfile' Hwf Htail Hoff Hfuel')).
    + destruct (decide (t = txn_id)).
      * rewrite app_nil_r. eauto.
      * apply (IH _ _ _ tail Hfile' Hwf Htail Hoff Hfuel').
    + destruct (decide (UpdateInfo.txn_id u = txn_id)).
      * destruct (IH (pre ++ encode_record (Update u)) (acc ++ [u]) fuel tail
                    Hfile' Hwf Htail Hoff Hfuel') as [off Hoff'].
        exists off. rewrite Hoff'. now rewrite <- app_assoc.
      * apply (IH _ _ _ tail Hfile' Hwf Htail Hoff Hfuel').
Qed.

Lemma foldl_write_before_image_None ws :
  foldl write_before_image None ws = None.
Proof. induction ws as [|w ws IH]; [reflexivity|exact IH]. Qed.

Lemma undo_updates_foldl ws bm :
  undo_updates ws bm = foldl write_before_image (Some bm) ws.
Proof.
  revert bm. induction ws as [|w ws IH]; intros bm; [reflexivity|].
  cbn [undo_updates foldl]. unfold write_before_image at 2. cbn [mbind option_bind].
  destruct (BufferManager.write_page bm _ _ _ _) as [bm'|]; cbn [mbind option_bind].
  - apply IH.
  - now rewrite foldl_write_before_image_None.
Qed.

(** C4: for a transaction that has an entry in
  [txn_id_to_first_log_record], on a log that is a sequence of encoded
  records (possibly followed by a torn tail) and with enough fuel for
  one iteration per record, [rollback_txn] returns; it leaves the log
  manager as it was, and the buffer manager is the one obtained by
  taking the UPDATE records of that transaction up to its first ABORT
  record, every other record skipped, and writing their before-images
  in reverse order of appearance, each at its record's page and offset
  for [length] bytes, the page marked dirty.  (A write that leaves its
  page is a fault.) *)
Theorem rollback_txn_undoes_in_reverse fuel bm recs tail
    (Hlive : is_Some (txn_id_to_first_log_record lm !! txn_id))
    (Hlog : log_file_ lm = encode_log recs ++ tail)
    (Hwf : Forall wf_record recs)
    (Htail : torn_tail tail)
    (Hoff : current_offset_ lm = File.size (log_file_ lm))
    (Hfuel : (length recs < fuel)%nat) :
  rollback_txn fuel txn_id lm bm
  = of_option
      (pair lm <$> foldl write_before_image (Some bm)
                     (rev (updates_to_undo txn_id recs))).
Proof.
  unfold rollback_txn. destruct Hlive as [n ->].
  destruct (rollback_loop_log recs [] [] fuel tail Hlog Hwf Htail Hoff Hfuel)
    as [off Hscan].
  cbn [length] in Hscan. change (N.of_nat 0) with 0 in Hscan.
  rewrite Hscan. cbn [mbind outcome_mbind outcome_bind rb_updates app].
  rewrite undo_updates_foldl.
  destruct (foldl write_before_image (Some bm) (rev (updates_to_undo txn_id recs)));
    reflexivity.
Qed.

End RollbackScan.

Lemma rollback_txn_undoes_in_reverse_witness :
  (File.size (LogManager.log_file_ Examples.interleaved_lm) < U64.modulus
   ∧ is_Some (LogManager.txn_id_to_first_log_record Examples.interleaved_lm !! 1)
   ∧ LogManager.log_file_ Examples.interleaved_lm = encode_log Examples.interleaved ++ []
   ∧ Forall wf_record Examples.interleaved
   ∧ torn_tail []
   ∧ LogManager.current_offset_ Examples.interleaved_lm
     = File.size (LogManager.log_file_ Examples.interleaved_lm)
   ∧ (length Examples.interleaved < 7)%nat)
  ∧ LogManager.rollback_txn 7 1 Examples.interleaved_lm Examples.empty_pool
    = of_option
        (pair Examples.interleaved_lm
           <$> foldl write_before_image (Some Examples.empty_pool)
                 (rev (updates_to_undo 1 Examples.interleaved))).
Proof.
  assert (H0 : File.size (LogManager.log_file_ Examples.interleaved_lm) < U64.modulus)
    by (vm_compute; reflexivity).
  assert (H1 : is_Some
                 (LogManager.txn_id_to_first_log_record Examples.interleaved_lm !! 1))
    by (exists 0; vm_compute; reflexivity).
  assert (H2 : LogManager.log_file_ Examples.interleaved_lm
               = encode_log Examples.interleaved ++ [])
    by (vm_compute; reflexivity).
  assert (H3 : Forall wf_record Examples.interleaved).
  { unfold Examples.interleaved.
    repeat (apply Forall_cons; split; [vm_compute; intuition congruence|]).
    apply Forall_nil_2. }
  assert (H4 : torn_tail []) by exact I.
  assert (H5 : LogManager.current_offset_ Examples.interleaved_lm
               = File.size (LogManager.log_file_ Examples.interleaved_lm))
    by reflexivity.
  assert (H6 : (length Examples.interleaved < 7)%nat) by (vm_compute; lia).
  split; [repeat split; assumption|].
  exact (rollback_txn_undoes_in_reverse Examples.interleaved_lm 1 H0 7
           Examples.empty_pool Examples.interleaved [] H1 H2 H3 H4 H5 H6).
Defined.

(** The example evaluated: the before-image of the later update is
  written first, so index 11 of page 7 ends with the byte it had before
  the earlier update. *)
Example rollback_interleaved_pages :
  (λ r, (BufferManager.data r.2 !! (7, 10), BufferManager.data r.2 !! (7, 11),
         BufferManager.data r.2 !! (7, 12), BufferManager.data r.2 !! (7, 13),
         elements (BufferManager.dirty r.2)))
    <$> LogManager.rollback_txn 7 1 Examples.interleaved_lm Examples.empty_pool
  = Done (Some x00, Some x00, Some x00, None, [7]).
Proof. vm_compute. reflexivity. Qed.

(** ** The scan of recovery over a well-formed log *)

Section RecoveryLog.

Import LogManager.

Lemma update_layout f pre u rest :
  f = pre ++ encode_record (Update u) ++ rest →
  wf_record (Update u) →
  File.read_u64 f (N.of_nat (length pre) + 1) = Some (UpdateInfo.txn_id u)
  ∧ File.read_u64 f (N.of_nat (length pre) + 1 + 8) = Some (UpdateInfo.page_id u)
  ∧ File.read_u64 f (N.of_nat (length pre) + 1 + 16) = Some (UpdateInfo.length u)
  ∧ File.read_u64 f (N.of_nat (length pre) + 1 + 24) = Some (UpdateInfo.offset u)
  ∧ File.read_block f (N.of_nat (length pre) + 1 + 32) (UpdateInfo.length u)
    = Some (UpdateInfo.before_img u)
  ∧ File.read_block f (N.of_nat (length pre) + 1 + 32 + UpdateInfo.length u)
      (UpdateInfo.length u)
    = Some (UpdateInfo.after_img u).
Proof.
  intros Hfile (Ht & Hp & Hl & Ho & Hb & Ha).
  destruct u as [ut up ul uo ub ua].
  cbn [UpdateInfo.txn_id UpdateInfo.page_id UpdateInfo.length UpdateInfo.offset
       UpdateInfo.before_img UpdateInfo.after_img] in *.
  unfold encode_record, encode_payload in Hfile.
  cbn [record_type UpdateInfo.txn_id UpdateInfo.page_id UpdateInfo.length
       UpdateInfo.offset UpdateInfo.before_img UpdateInfo.after_img] in Hfile.
  rewrite <- !app_assoc in Hfile.
  repeat split.
  - apply (read_u64_segment (pre ++ tag_bytes UPDATE_RECORD)
             (Bytes.encode_u64 up ++ Bytes.encode_u64 ul ++ Bytes.encode_u64 uo
                ++ ub ++ ua ++ rest) ut);
      [rewrite Hfile, <- !app_assoc; reflexivity
      |rewrite length_app, length_tag_bytes; lia
      |exact Ht].
  - apply (read_u64_segment (pre ++ tag_bytes UPDATE_RECORD ++ Bytes.encode_u64 ut)
             (Bytes.encode_u64 ul ++ Bytes.encode_u64 uo ++ ub ++ ua ++ rest) up);
      [rewrite Hfile, <- !app_assoc; reflexivity
      |rewrite !length_app, !length_encode_u64, length_tag_bytes; lia
      |exact Hp].
  - apply (read_u64_segment
             (pre ++ tag_bytes UPDATE_RECORD ++ Bytes.encode_u64 ut ++ Bytes.encode_u64 up)
             (Bytes.encode_u64 uo ++ ub ++ ua ++ rest) ul);
      [rewrite Hfile, <- !app_assoc; reflexivity
      |rewrite !length_app, !length_encode_u64, length_tag_bytes; lia
      |exact Hl].
  - apply (read_u64_segment
             (pre ++ tag_bytes UPDATE_RECORD ++ Bytes.encode_u64 ut
                ++ Bytes.encode_u64 up ++ Bytes.encode_u64 ul)
             (ub ++ ua ++ rest) uo);
      [rewrite Hfile, <- !app_assoc; reflexivity
      |rewrite !length_app, !length_encode_u64, length_tag_bytes; lia
      |exact Ho].
  - apply (read_block_segment
             (pre ++ tag_bytes UPDATE_RECORD ++ Bytes.encode_u64 ut
                ++ Bytes.encode_u64 up ++ Bytes.encode_u64 ul ++ Bytes.encode_u64 uo)
             ub (ua ++ rest));
      [rewrite Hfile, <- !app_assoc; reflexivity
      |rewrite !length_app, !length_encode_u64, length_tag_bytes; lia
      |lia].
  - apply (read_block_segment
             (pre ++ tag_bytes UPDATE_RECORD ++ Bytes.encode_u64 ut
                ++ Bytes.encode_u64 up ++ Bytes.encode_u64 ul ++ Bytes.encode_u64 uo
                ++ ub)
             ua rest);
      [rewrite Hfile, <- !app_assoc; reflexivity
      |rewrite !length_app, !length_encode_u64, length_tag_bytes; lia
      |lia].
Qed.

Lemma txn_layout f pre r rest txn_id :
  f = pre ++ encode_record r ++ rest →
  r = Abort txn_id ∨ r = Commit txn_id ∨ r = Begin txn_id →
  wf_record r →
  File.read_u64 f (N.of_nat (length pre) + 1) = Some txn_id.
Proof.
  intros Hfile Hr Hwf.
  apply (read_u64_segment (pre ++ tag_bytes (record_type r)) rest txn_id).
  - rewrite Hfile, <- !app_assoc.
    destruct Hr as [->|[->| ->]]; reflexivity.
  - rewrite length_app, length_tag_bytes. lia.
  - destruct Hr as [->|[->| ->]]; exact Hwf.
Qed.

(** The loop body at the first byte of an encoded record. *)
Lemma recovery_body_record st pre r rest :
  log_file_ (rc_lm st) = pre ++ encode_record r ++ rest →
  rc_offset st = N.of_nat (length pre) →
  File.size (log_file_ (rc_lm st)) < U64.modulus →
  wf_record r →
  recovery_body st = Some (Continue (apply_record r st)).
Proof.
  unfold File.size. intros Hfile Hoff Hsize Hwf.
  assert (Hlen : N.of_nat (length pre) + N.of_nat (length (encode_record r))
                 ≤ N.of_nat (length (log_file_ (rc_lm st)))).
  { rewrite Hfile, !length_app. lia. }
  unfold apply_record. rewrite (length_encode_record r Hwf) in *.
  unfold recovery_body. rewrite Hoff.
  rewrite (read_uchar_segment pre (encode_payload r ++ rest) (record_type r));
    [|rewrite Hfile, encode_record_tag, <- app_assoc; reflexivity|reflexivity].
  cbn [mbind option_bind].
  destruct r as [t|t|u|t| | |]; cbn [record_type tag_of]; tag_consts.
  - unwrap. rewrite (txn_layout _ pre (Abort t) rest t Hfile) by (auto; exact Hwf).
    reflexivity.
  - unwrap. rewrite (txn_layout _ pre (Commit t) rest t Hfile) by (auto; exact Hwf).
    reflexivity.
  - destruct (update_layout _ pre u rest Hfile Hwf) as (Rt & Rp & Rl & Ro & Rb & Ra).
    destruct Hwf as (Ht & Hp & Hl & Ho & Hb & Ha).
    unwrap. rewrite Rt. cbn [mbind option_bind].
    rewrite Rp. cbn [mbind option_bind].
    rewrite Rl. cbn [mbind option_bind].
    rewrite Ro. cbn [mbind option_bind]. unwrap.
    rewrite Rb. cbn [mbind option_bind].
    rewrite Ra. cbn [mbind option_bind]. unwrap.
    destruct u. do 3 f_equal; cbn [UpdateInfo.length]; lia.
  - unwrap. rewrite (txn_layout _ pre (Begin t) rest t Hfile) by (auto; exact Hwf).
    reflexivity.
  - unwrap. reflexivity.
  - unwrap. rewrite push_all_app. reflexivity.
  - unwrap. reflexivity.
Qed.

Lemma apply_record_frame r st :
  log_file_ (rc_lm (apply_record r st)) = log_file_ (rc_lm st)
  ∧ current_offset_ (rc_lm (apply_record r st)) = current_offset_ (rc_lm st)
  ∧ rc_offset (apply_record r st)
    = rc_offset st + N.of_nat (length (encode_record r)).
Proof. destruct r; repeat split; reflexivity. Qed.

Lemma recovery_loop_log recs :
  ∀ st pre tail fuel,
    log_file_ (rc_lm st) = pre ++ encode_log recs ++ tail →
    rc_offset st = N.of_nat (length pre) →
    current_offset_ (rc_lm st) = File.size (log_file_ (rc_lm st)) →
    File.size (log_file_ (rc_lm st)) < U64.modulus →
    Forall wf_record recs →
    torn_tail tail →
    recovery_loop fuel st
    = if decide (length recs < fuel)%nat
      then Done (scan_records recs st)
      else OutOfFuel.
Proof.
  induction recs as [|r recs IH];
    intros st pre tail fuel Hfile Hoff Hlimit Hsize Hwf Htail;
    (destruct fuel as [|fuel];
     [rewrite decide_False by (cbn [length]; lia); reflexivity|]);
    cbn [recovery_loop].
  - rewrite (decide_True (P := (length (@nil LogRecord) < S fuel)%nat))
      by (cbn [length]; lia).
    cbn [encode_log app scan_records foldl] in *.
    destruct tail as [|b tail].
    + rewrite decide_False; [reflexivity|].
      rewrite Hlimit, Hoff. unfold File.size. rewrite Hfile, app_nil_r. lia.
    + cbn in Htail. subst b.
      rewrite decide_True
        by (rewrite Hlimit, Hoff; unfold File.size;
            rewrite Hfile, length_app; cbn [length]; lia).
      unfold recovery_body.
      rewrite (read_uchar_zero pre tail (log_file_ (rc_lm st)) _ Hfile Hoff).
      cbn [mbind option_bind tag_of]. rewrite decide_True by reflexivity.
      reflexivity.
  - cbn [encode_log] in Hfile. rewrite <- app_assoc in Hfile.
    apply Forall_cons in Hwf as [Hr Hwf].
    pose proof (encode_record_nonempty r) as Hne.
    rewrite decide_True
      by (rewrite Hlimit, Hoff; unfold File.size; rewrite Hfile, !length_app; lia).
    rewrite (recovery_body_record st pre r (encode_log recs ++ tail) Hfile Hoff Hsize Hr).
    destruct (apply_record_frame r st) as (Ef & El & Eo).
    rewrite (IH (apply_record r st) (pre ++ encode_record r) tail fuel).
    + cbn [length scan_records foldl].
      destruct (decide (length recs < fuel)%nat);
        [rewrite decide_True by lia|rewrite decide_False by lia]; reflexivity.
    + rewrite Ef, Hfile, <- app_assoc. reflexivity.
    + rewrite Eo, Hoff, length_app. lia.
    + rewrite El, Ef. exact Hlimit.
    + rewrite Ef. exact Hsize.
    + exact Hwf.
    + exact Htail.
Qed.

Lemma total_records_wrapped lm : U64.wrap (total_records lm) = total_records lm.
Proof.
  unfold total_records, get_total_log_records. cbn [fst].
  unfold U64.wrap. apply N.Div0.mod_mod.
Qed.

Lemma total_records_apply_record r st :
  total_records (rc_lm (apply_record r st))
  = U64.wrap (total_records (rc_lm st) + 1).
Proof.
  destruct r; cbn [apply_record rc_lm];
    try (rewrite total_records_incr by done; reflexivity).
  unfold get_total_log_records. cbn [rc_lm].
  rewrite total_records_incr by done.
  now rewrite total_records_with_txns, total_records_touched.
Qed.

Lemma wrap_add_succ a n :
  U64.wrap (U64.wrap (a + 1) + N.of_nat n) = U64.wrap (a + N.of_nat (S n)).
Proof. solve_wrap. Qed.

Lemma total_records_scan_records recs st :
  total_records (rc_lm (scan_records recs st))
  = U64.wrap (total_records (rc_lm st) + N.of_nat (length recs)).
Proof.
  revert st. induction recs as [|r recs IH]; intros st.
  - cbn [scan_records foldl length]. rewrite N.add_0_r.
    symmetry. apply total_records_wrapped.
  - cbn [scan_records foldl]. fold (scan_records recs (apply_record r st)).
    rewrite IH, total_records_apply_record. apply wrap_add_succ.
Qed.

Lemma count_at_apply_record r st type :
  count_at (log_record_type_to_count (rc_lm (apply_record r st))) type
  = if decide (record_type r = type)
    then U64.wrap (count_at (log_record_type_to_count (rc_lm st)) type + 1)
    else count_at (log_record_type_to_count (rc_lm st)) type.
Proof.
  destruct r; cbn [apply_record rc_lm record_type];
    try (rewrite count_at_incr; reflexivity).
  unfold get_total_log_records. cbn [rc_lm].
  rewrite count_at_incr.
  cbn [with_txns with_counts log_record_type_to_count].
  now rewrite count_at_touch_all.
Qed.

Lemma count_at_scan_records recs st type :
  count_at (log_record_type_to_count (rc_lm st)) type < U64.modulus →
  count_at (log_record_type_to_count (rc_lm (scan_records recs st))) type
  = U64.wrap (count_at (log_record_type_to_count (rc_lm st)) type
              + count_records type recs).
Proof.
  revert st. induction recs as [|r recs IH]; intros st Hc.
  - cbn [scan_records foldl]. unfold count_records. cbn [filter list_filter length].
    rewrite N.add_0_r. now rewrite wrap_small.
  - cbn [scan_records foldl]. fold (scan_records recs (apply_record r st)).
    rewrite IH.
    2: { rewrite count_at_apply_record.
         destruct (decide (record_type r = type)); [apply wrap_lt|exact Hc]. }
    rewrite count_at_apply_record. unfold count_records. rewrite filter_cons.
    destruct (decide (record_type r = type)).
    + cbn [length]. apply wrap_add_succ.
    + reflexivity.
Qed.

End RecoveryLog.

(** ** Counting appended and recovered records *)

Section RecordCounts.

Import LogManager.

Lemma rollback_txn_lm fuel txn_id lm bm lm' bm' :
  rollback_txn fuel txn_id lm bm = Done (lm', bm') → lm' = lm.
Proof.
  unfold rollback_txn. destruct (txn_id_to_first_log_record lm !! txn_id).
  - destruct (rollback_loop fuel lm txn_id (mk_rollback 0 [])) as [st| |];
      cbn [mbind outcome_mbind outcome_bind]; try discriminate.
    destruct (undo_updates (rev (rb_updates st)) bm);
      cbn [of_option mbind outcome_mbind outcome_bind]; try discriminate.
    now intros [= <- _].
  - now intros [= <- _].
Qed.

Lemma rollback_all_lm fuel txns lm bm lm' bm' :
  rollback_all fuel txns lm bm = Done (lm', bm') → lm' = lm.
Proof.
  revert lm bm. induction txns as [|txn_id txns IH]; intros lm bm.
  - now intros [= <- _].
  - cbn [rollback_all].
    destruct (rollback_txn fuel txn_id lm bm) as [[lm1 bm1]| |] eqn:E;
      cbn [mbind outcome_mbind outcome_bind]; try discriminate.
    intros H. apply IH in H. apply rollback_txn_lm in E. congruence.
Qed.

Lemma recovery_lm fuel lm bm lm' bm' :
  recovery fuel lm bm = Done (lm', bm') →
  ∃ st, recovery_loop fuel (recovery_init lm) = Done st ∧ lm' = rc_lm st.
Proof.
  unfold recovery.
  destruct (recovery_loop fuel (recovery_init lm)) as [st| |];
    cbn [mbind outcome_mbind outcome_bind]; try discriminate.
  destruct (redo_aborted (aborted_txns st) (redo_candidates st) bm) as [bm1|];
    cbn [of_option mbind outcome_mbind outcome_bind]; try discriminate.
  destruct (rollback_all fuel (ascending (aborted_txns st)) (rc_lm st) bm1)
    as [[lm2 bm2]| |] eqn:E2;
    cbn [mbind outcome_mbind outcome_bind]; try discriminate.
  intros E3. apply rollback_all_lm in E2, E3. exists st. split; congruence.
Qed.

Lemma count_at_recovery_init lm type :
  type ≠ INVALID_RECORD_TYPE →
  count_at (log_record_type_to_count (rc_lm (recovery_init lm))) type = 0.
Proof.
  intros Hne. unfold recovery_init, counted_types, zero, count_at.
  cbn [foldl rc_lm with_offset with_counts log_record_type_to_count].
  destruct type; try congruence; now simplify_map_eq.
Qed.

Lemma total_records_recovery_init lm : total_records (rc_lm (recovery_init lm)) = 0.
Proof.
  unfold total_records, get_total_log_records. cbn [fst].
  rewrite !count_at_recovery_init by done. reflexivity.
Qed.

Lemma recovery_init_frame lm :
  log_file_ (rc_lm (recovery_init lm)) = log_file_ lm
  ∧ current_offset_ (rc_lm (recovery_init lm)) = File.size (log_file_ lm)
  ∧ rc_offset (recovery_init lm) = 0.
Proof. repeat split; reflexivity. Qed.

Lemma count_records_le type recs : count_records type recs ≤ N.of_nat (length recs).
Proof.
  unfold count_records.
  pose proof (length_filter (λ r, record_type r = type) recs). lia.
Qed.

Lemma length_encode_log recs : (length recs ≤ length (encode_log recs))%nat.
Proof.
  induction recs as [|r recs IH]; [reflexivity|].
  cbn [encode_log length]. rewrite length_app.
  pose proof (encode_record_nonempty r). lia.
Qed.

(** What one counted kind of step does to the total. *)
Lemma total_records_step (type : LogRecordType) lm lm' :
  type ≠ INVALID_RECORD_TYPE →
  (∀ k, count_at (log_record_type_to_count lm') k
        = if decide (type = k)
          then U64.wrap (count_at (log_record_type_to_count lm) k + 1)
          else count_at (log_record_type_to_count lm) k) →
  total_records lm' = U64.wrap (total_records lm + 1).
Proof.
  intros Hne Hk. unfold total_records, get_total_log_records. cbn [fst].
  rewrite !Hk.
  destruct type; try congruence; repeat case_decide; try congruence; solve_wrap.
Qed.

Ltac split_writes H :=
  repeat match type of H with
         | context [File.write_block ?f ?d ?o ?n] =>
             destruct (File.write_block f d o n);
             cbn [mbind option_bind of_option outcome_mbind outcome_bind] in H;
             try discriminate H
         end.

Lemma run_op_counts fuel op lm bm lm' bm' :
  run_op fuel op lm bm = Done (lm', bm') →
  ∀ k, count_at (log_record_type_to_count lm') k
       = if decide (op_type op = k)
         then U64.wrap (count_at (log_record_type_to_count lm) k + 1)
         else count_at (log_record_type_to_count lm) k.
Proof.
  intros H k. destruct op; cbn [run_op op_type] in *.
  - unfold log_abort in H. split_writes H.
    match type of H with
    | context [rollback_txn ?a ?b ?c ?d] =>
        destruct (rollback_txn a b c d) as [[lm4 bm4]| |] eqn:E;
        cbn [mbind outcome_mbind outcome_bind] in H; try discriminate H
    end.
    apply rollback_txn_lm in E. subst lm4. injection H as <- _.
    exact (count_at_incr _ _ _).
  - unfold log_commit in H. split_writes H. injection H as <- _.
    exact (count_at_incr _ _ _).
  - unfold log_update in H. split_writes H. injection H as <- _.
    exact (count_at_incr _ _ _).
  - unfold log_txn_begin, get_total_log_records in H. split_writes H.
    injection H as <- _.
    cbn [with_txns log_record_type_to_count]. rewrite count_at_incr.
    cbn [with_counts log_record_type_to_count].
    now rewrite !count_at_touch.
  - unfold log_checkpoint in H. split_writes H. injection H as <- _.
    exact (count_at_incr _ _ _).
  - unfold log_fuzzy_checkpoint_begin in H. split_writes H. injection H as <- _.
    exact (count_at_incr _ _ _).
  - unfold log_fuzzy_checkpoint_end in H. split_writes H. injection H as <- _.
    exact (count_at_incr _ _ _).
Qed.

Lemma op_type_counted op : op_type op ≠ INVALID_RECORD_TYPE.
Proof. destruct op; discriminate. Qed.

Lemma run_ops_total fuel ops :
  ∀ lm bm lm' bm',
    run_ops fuel ops lm bm = Done (lm', bm') →
    total_records lm' = U64.wrap (total_records lm + N.of_nat (length ops)).
Proof.
  induction ops as [|op ops IH]; intros lm bm lm' bm' H.
  - injection H as <- _. cbn [length]. rewrite N.add_0_r.
    symmetry. apply total_records_wrapped.
  - cbn [run_ops] in H.
    destruct (run_op fuel op lm bm) as [[lm1 bm1]| |] eqn:E;
      cbn [mbind outcome_mbind outcome_bind] in H; try discriminate H.
    rewrite (IH _ _ _ _ H).
    rewrite (total_records_step (op_type op) lm lm1 (op_type_counted op)
               (run_op_counts _ _ _ _ _ _ E)).
    apply wrap_add_succ.
Qed.

Lemma run_ops_counts fuel ops :
  ∀ lm bm lm' bm' type,
    run_ops fuel ops lm bm = Done (lm', bm') →
    count_at (log_record_type_to_count lm) type < U64.modulus →
    count_at (log_record_type_to_count lm') type
    = U64.wrap (count_at (log_record_type_to_count lm) type + count_ops type ops).
Proof.
  induction ops as [|op ops IH]; intros lm bm lm' bm' type H Hc.
  - injection H as <- _. unfold count_ops. cbn [filter list_filter length].
    rewrite N.add_0_r. now rewrite wrap_small.
  - cbn [run_ops] in H.
    destruct (run_op fuel op lm bm) as [[lm1 bm1]| |] eqn:E;
      cbn [mbind outcome_mbind outcome_bind] in H; try discriminate H.
    pose proof (run_op_counts _ _ _ _ _ _ E type) as Hstep.
    rewrite (IH _ _ _ _ type H).
    2: { rewrite Hstep. destruct (decide (op_type op = type)); [apply wrap_lt|exact Hc]. }
    rewrite Hstep. unfold count_ops. rewrite filter_cons.
    destruct (decide (op_type op = type)).
    + cbn [length]. apply wrap_add_succ.
    + reflexivity.
Qed.

Lemma count_ops_le type ops : count_ops type ops ≤ N.of_nat (length ops).
Proof.
  unfold count_ops. pose proof (length_filter (λ op, op_type op = type) ops). lia.
Qed.

(** C8: after any sequence of appends on a log manager that was just
  reset, [get_total_log_records] is the number of appends and every
  per-kind counter is the number of appends of its kind (each append
  counts under exactly one kind); after recovery of a log that holds a
  sequence of encoded records, the total is the number of those records
  and each of the seven counters the number of records of its kind.
  Counters are 64 bits wide, so the number of appends is taken to fit. *)
Theorem total_records_counts_log fuel ops lm0 log_file bm lm1 bm1
    recs tail lm2 bm2 lm3 bm3
    (Hfit : N.of_nat (length ops) < U64.modulus)
    (Hrun : run_ops fuel ops (reset lm0 log_file) bm = Done (lm1, bm1))
    (Hlog : log_file_ lm2 = encode_log recs ++ tail)
    (Hwf : Forall wf_record recs)
    (Htail : torn_tail tail)
    (Hsize : File.size (log_file_ lm2) < U64.modulus)
    (Hrec : recovery fuel lm2 bm2 = Done (lm3, bm3)) :
  (total_records lm1 = N.of_nat (length ops)
   ∧ ∀ type, count_at (log_record_type_to_count lm1) type = count_ops type ops)
  ∧ (total_records lm3 = N.of_nat (length recs)
     ∧ ∀ type, type ≠ INVALID_RECORD_TYPE →
         count_at (log_record_type_to_count lm3) type = count_records type recs).
Proof.
  split; split.
  - rewrite (run_ops_total _ _ _ _ _ _ Hrun).
    change (total_records (reset lm0 log_file)) with 0.
    rewrite N.add_0_l. now apply wrap_small.
  - intros type. rewrite (run_ops_counts _ _ _ _ _ _ type Hrun) by reflexivity.
    change (count_at (log_record_type_to_count (reset lm0 log_file)) type) with 0.
    rewrite N.add_0_l. apply wrap_small.
    pose proof (count_ops_le type ops). lia.
  - destruct (recovery_lm _ _ _ _ _ Hrec) as (st & Hscan & ->).
    destruct (recovery_init_frame lm2) as (Ef & El & Eo).
    rewrite (recovery_loop_log recs (recovery_init lm2) [] tail fuel) in Hscan;
      [|rewrite Ef; exact Hlog|exact Eo|rewrite El, Ef; reflexivity
       |rewrite Ef; exact Hsize|exact Hwf|exact Htail].
    destruct (decide (length recs < fuel)%nat); [|discriminate Hscan].
    injection Hscan as <-.
    rewrite total_records_scan_records, total_records_recovery_init, N.add_0_l.
    apply wrap_small. unfold File.size in Hsize. rewrite Hlog, length_app in Hsize.
    pose proof (length_encode_log recs). lia.
  - intros type Hne.
    destruct (recovery_lm _ _ _ _ _ Hrec) as (st & Hscan & ->).
    destruct (recovery_init_frame lm2) as (Ef & El & Eo).
    rewrite (recovery_loop_log recs (recovery_init lm2) [] tail fuel) in Hscan;
      [|rewrite Ef; exact Hlog|exact Eo|rewrite El, Ef; reflexivity
       |rewrite Ef; exact Hsize|exact Hwf|exact Htail].
    destruct (decide (length recs < fuel)%nat); [|discriminate Hscan].
    injection Hscan as <-.
    rewrite count_at_scan_records; rewrite count_at_recovery_init by exact Hne;
      [|reflexivity].
    rewrite N.add_0_l. apply wrap_small.
    unfold File.size in Hsize. rewrite Hlog, length_app in Hsize.
    pose proof (length_encode_log recs). pose proof (count_records_le type recs). lia.
Qed.

Lemma total_records_counts_log_witness :
  (N.of_nat (length Examples.single_commit) < U64.modulus
   ∧ run_ops 7 Examples.single_commit (reset (new []) []) Examples.empty_pool
     = Done (Examples.after_single_commit.1, Examples.after_single_commit.2)
   ∧ log_file_ (new (encode_log Examples.interleaved))
     = encode_log Examples.interleaved ++ []
   ∧ Forall wf_record Examples.interleaved
   ∧ torn_tail []
   ∧ File.size (log_file_ (new (encode_log Examples.interleaved))) < U64.modulus
   ∧ recovery 7 (new (encode_log Examples.interleaved)) Examples.empty_pool
     = Done (Examples.after_recovery.1, Examples.after_recovery.2))
  ∧ total_records Examples.after_single_commit.1 = 4
  ∧ count_at (log_record_type_to_count Examples.after_single_commit.1) UPDATE_RECORD = 2
  ∧ total_records Examples.after_recovery.1 = 6.
Proof.
  assert (H1 : N.of_nat (length Examples.single_commit) < U64.modulus)
    by (vm_compute; reflexivity).
  assert (H2 : run_ops 7 Examples.single_commit (reset (new []) []) Examples.empty_pool
               = Done (Examples.after_single_commit.1, Examples.after_single_commit.2))
    by (vm_compute; reflexivity).
  assert (H3 : log_file_ (new (encode_log Examples.interleaved))
               = encode_log Examples.interleaved ++ [])
    by (vm_compute; reflexivity).
  assert (H4 : Forall wf_record Examples.interleaved).
  { unfold Examples.interleaved.
    repeat (apply Forall_cons; split; [vm_compute; intuition congruence|]).
    apply Forall_nil_2. }
  assert (H5 : torn_tail []) by exact I.
  assert (H6 : File.size (log_file_ (new (encode_log Examples.interleaved)))
               < U64.modulus)
    by (vm_compute; reflexivity).
  assert (H7 : recovery 7 (new (encode_log Examples.interleaved)) Examples.empty_pool
               = Done (Examples.after_recovery.1, Examples.after_recovery.2))
    by (vm_compute; reflexivity).
  split; [exact (conj H1 (conj H2 (conj H3 (conj H4 (conj H5 (conj H6 H7))))))|].
  destruct (total_records_counts_log 7 Examples.single_commit (new []) []
              Examples.empty_pool Examples.after_single_commit.1
              Examples.after_single_commit.2 Examples.interleaved []
              (new (encode_log Examples.interleaved)) Examples.empty_pool
              Examples.after_recovery.1 Examples.after_recovery.2
              H1 H2 H3 H4 H5 H6 H7) as [[T1 C1] [T3 _]].
  split; [exact T1|]. split; [exact (C1 UPDATE_RECORD)|exact T3].
Defined.

End RecordCounts.

(** ** Properties of appends, rollback and recovery on encoded logs *)

Section AppendLayout.

Import LogManager.

Lemma resize_extend (f : File.t) n :
  File.resize f (N.of_nat (length f) + n) = f ++ replicate (N.to_nat n) x00.
Proof.
  unfold File.resize. rewrite take_ge by lia. f_equal. f_equal. lia.
Qed.

Lemma write_block_segment (pre old post data : list byte) f o n :
  f = pre ++ old ++ post →
  o = N.of_nat (length pre) →
  n = N.of_nat (length old) →
  n ≤ N.of_nat (length data) →
  File.write_block f data o n = Some (pre ++ take (N.to_nat n) data ++ post).
Proof.
  intros -> -> -> Hd. unfold File.write_block.
  rewrite decide_True by (rewrite !length_app; lia).
  f_equal. rewrite !Nat2N.id.
  rewrite take_app_length. f_equal. f_equal.
  replace (N.to_nat (N.of_nat (length pre) + N.of_nat (length old)))
    with (length pre + length old)%nat by lia.
  rewrite drop_app_add', drop_app_length; [reflexivity|reflexivity].
Qed.

Lemma take_encode_u64 v : take 8 (Bytes.encode_u64 v) = Bytes.encode_u64 v.
Proof. reflexivity. Qed.

(** The three appends that write a tag and a transaction id. *)
Lemma append_txn_record (f : File.t) type txn_id :
  N.of_nat (length f) + 9 < U64.modulus →
  (f1 ← File.write_block
          (File.resize f (N.of_nat (length f) +! sizeof_uchar +! sizeof_u64))
          (Bytes.encode_u64 txn_id) (N.of_nat (length f) +! sizeof_uchar) sizeof_u64;
   File.write_block f1 (tag_bytes type) (N.of_nat (length f)) sizeof_uchar)
  = Some (f ++ tag_bytes type ++ Bytes.encode_u64 txn_id).
Proof.
  intros Hfit. unwrap.
  replace (N.of_nat (length f) + 1 + 8) with (N.of_nat (length f) + 9) by lia.
  rewrite resize_extend.
  rewrite (write_block_segment (f ++ [x00]) (replicate 8 x00) []
             (Bytes.encode_u64 txn_id));
    [|rewrite <- app_assoc; reflexivity|rewrite length_app; cbn [length]; lia
     |reflexivity|cbn; lia].
  cbn [mbind option_bind].
  rewrite (write_block_segment f [x00] (Bytes.encode_u64 txn_id ++ [])
             (tag_bytes type));
    [|rewrite <- app_assoc; reflexivity|reflexivity|reflexivity|cbn; lia].
  now rewrite app_nil_r.
Qed.

(** The three appends that write a tag only. *)
Lemma append_tag_record (f : File.t) type :
  N.of_nat (length f) + 1 < U64.modulus →
  File.write_block (File.resize f (N.of_nat (length f) +! sizeof_uchar))
    (tag_bytes type) (N.of_nat (length f)) sizeof_uchar
  = Some (f ++ tag_bytes type).
Proof.
  intros Hfit. unwrap. rewrite resize_extend.
  rewrite (write_block_segment f [x00] [] (tag_bytes type));
    [|reflexivity|reflexivity|reflexivity|cbn; lia].
  reflexivity.
Qed.

Lemma zero_block_update len :
  replicate (N.to_nat (33 + 2 * len)) x00
  = [x00] ++ replicate 8 x00 ++ replicate 8 x00 ++ replicate 8 x00
      ++ replicate 8 x00 ++ replicate (N.to_nat len) x00
      ++ replicate (N.to_nat len) x00.
Proof.
  replace (N.to_nat (33 + 2 * len))
    with (1 + (8 + (8 + (8 + (8 + (N.to_nat len + N.to_nat len))))))%nat by lia.
  now rewrite !replicate_add.
Qed.

(** The append of an UPDATE record: seven writes, the tag last. *)
Lemma append_update_record (f : File.t) txn_id page_id len offset before_img after_img :
  N.of_nat (length f) + (33 + 2 * len) < U64.modulus →
  let o := N.of_nat (length f) in
  (f1 ← File.write_block
          (File.resize f (o +! sizeof_uchar +! 4 *! sizeof_u64 +! 2 *! len))
          (Bytes.encode_u64 txn_id) (o +! sizeof_uchar) sizeof_u64;
   f2 ← File.write_block f1 (Bytes.encode_u64 page_id)
          (o +! sizeof_uchar +! sizeof_u64) sizeof_u64;
   f3 ← File.write_block f2 (Bytes.encode_u64 len)
          (o +! sizeof_uchar +! 2 *! sizeof_u64) sizeof_u64;
   f4 ← File.write_block f3 (Bytes.encode_u64 offset)
          (o +! sizeof_uchar +! 3 *! sizeof_u64) sizeof_u64;
   f5 ← File.write_block f4 before_img (o +! sizeof_uchar +! 4 *! sizeof_u64) len;
   f6 ← File.write_block f5 after_img
          (o +! sizeof_uchar +! 4 *! sizeof_u64 +! len) len;
   File.write_block f6 (tag_bytes UPDATE_RECORD) o sizeof_uchar)
  = if decide (len ≤ N.of_nat (length before_img) ∧ len ≤ N.of_nat (length after_img))
    then Some (f ++ tag_bytes UPDATE_RECORD ++ Bytes.encode_u64 txn_id
                 ++ Bytes.encode_u64 page_id ++ Bytes.encode_u64 len
                 ++ Bytes.encode_u64 offset ++ take (N.to_nat len) before_img
                 ++ take (N.to_nat len) after_img)
    else None.
Proof.
  intros Hfit o. subst o. unwrap.
  replace (N.of_nat (length f) + 1 + 32 + 2 * len)
    with (N.of_nat (length f) + (33 + 2 * len)) by lia.
  rewrite resize_extend, zero_block_update.
  set (zl := replicate (N.to_nat len) x00).
  assert (Hzl : N.of_nat (length zl) = len)
    by (unfold zl; rewrite length_replicate; lia).
  rewrite (write_block_segment (f ++ [x00]) (replicate 8 x00)
             (replicate 8 x00 ++ replicate 8 x00 ++ replicate 8 x00 ++ zl ++ zl)
             (Bytes.encode_u64 txn_id));
    [|rewrite <- !app_assoc; reflexivity|rewrite length_app; cbn [length]; lia
     |reflexivity|cbn; lia].
  cbn [mbind option_bind]. rewrite take_encode_u64.
  rewrite (write_block_segment (f ++ [x00] ++ Bytes.encode_u64 txn_id) (replicate 8 x00)
             (replicate 8 x00 ++ replicate 8 x00 ++ zl ++ zl)
             (Bytes.encode_u64 page_id));
    [|rewrite <- !app_assoc; reflexivity
     |rewrite !length_app, length_encode_u64; cbn [length]; lia
     |reflexivity|cbn; lia].
  cbn [mbind option_bind]. rewrite take_encode_u64.
  rewrite (write_block_segment
             (f ++ [x00] ++ Bytes.encode_u64 txn_id ++ Bytes.encode_u64 page_id)
             (replicate 8 x00) (replicate 8 x00 ++ zl ++ zl) (Bytes.encode_u64 len));
    [|rewrite <- !app_assoc; reflexivity
     |rewrite !length_app, !length_encode_u64; cbn [length]; lia
     |reflexivity|cbn; lia].
  cbn [mbind option_bind]. rewrite take_encode_u64.
  rewrite (write_block_segment
             (f ++ [x00] ++ Bytes.encode_u64 txn_id ++ Bytes.encode_u64 page_id
                ++ Bytes.encode_u64 len)
             (replicate 8 x00) (zl ++ zl) (Bytes.encode_u64 offset));
    [|rewrite <- !app_assoc; reflexivity
     |rewrite !length_app, !length_encode_u64; cbn [length]; lia
     |reflexivity|cbn; lia].
  cbn [mbind option_bind]. rewrite take_encode_u64.
  destruct (decide (len ≤ N.of_nat (length before_img))) as [Hb|Hb].
  2: { rewrite decide_False by tauto. unfold File.write_block at 3.
       rewrite decide_False by tauto. reflexivity. }
  rewrite (write_block_segment
             (f ++ [x00] ++ Bytes.encode_u64 txn_id ++ Bytes.encode_u64 page_id
                ++ Bytes.encode_u64 len ++ Bytes.encode_u64 offset)
             zl zl before_img);
    [|rewrite <- !app_assoc; reflexivity
     |rewrite !length_app, !length_encode_u64; cbn [length]; lia
     |lia|exact Hb].
  cbn [mbind option_bind].
  destruct (decide (len ≤ N.of_nat (length after_img))) as [Ha|Ha].
  2: { rewrite decide_False by tauto. unfold File.write_block at 2.
       rewrite decide_False by tauto. reflexivity. }
  rewrite decide_True by tauto.
  rewrite (write_block_segment
             (f ++ [x00] ++ Bytes.encode_u64 txn_id ++ Bytes.encode_u64 page_id
                ++ Bytes.encode_u64 len ++ Bytes.encode_u64 offset
                ++ take (N.to_nat len) before_img)
             zl [] after_img);
    [|rewrite app_nil_r, <- !app_assoc; reflexivity
     |rewrite !length_app, !length_encode_u64, length_take; cbn [length]; lia
     |lia|exact Ha].
  cbn [mbind option_bind].
  rewrite (write_block_segment f [x00]
             (Bytes.encode_u64 txn_id ++ Bytes.encode_u64 page_id
                ++ Bytes.encode_u64 len ++ Bytes.encode_u64 offset
                ++ take (N.to_nat len) before_img ++ take (N.to_nat len) after_img)
             (tag_bytes UPDATE_RECORD));
    [|rewrite <- !app_assoc, app_nil_r; reflexivity|reflexivity|reflexivity|cbn; lia].
  reflexivity.
Qed.

Ltac use_txn_append Hrun type txn_id :=
  match type of Hrun with
  | context [File.write_block (File.resize ?f ?n) ?d ?o ?k] =>
      let Hw := fresh "Hw" in
      let E := fresh "E" in
      pose proof (append_txn_record f type txn_id) as Hw;
      destruct (File.write_block (File.resize f n) d o k) as [?f1|] eqn:E;
      cbn [mbind option_bind of_option outcome_mbind outcome_bind] in Hw, Hrun;
      [|discriminate Hrun]
  end.

Lemma run_op_layout fuel op lm bm lm' bm'
    (Hinv : current_offset_ lm = File.size (log_file_ lm))
    (Hfit : current_offset_ lm + op_size op < U64.modulus)
    (Hrun : run_op fuel op lm bm = Done (lm', bm')) :
  log_file_ lm' = log_file_ lm ++ encode_record (record_of_op op)
  ∧ current_offset_ lm' = File.size (log_file_ lm')
  ∧ File.size (encode_record (record_of_op op)) = op_size op
  ∧ (wf_op op → wf_record (record_of_op op)).
Proof.
  unfold File.size in *.
  destruct op as [t|t|t p len off b a|t| | |];
    cbn [run_op op_size record_of_op wf_op wf_record] in *.
  - unfold log_abort in Hrun. rewrite Hinv in Hrun, Hfit.
    use_txn_append Hrun ABORT_RECORD t.
    rewrite (Hw Hfit) in Hrun.
    cbn [mbind option_bind of_option outcome_mbind outcome_bind] in Hrun.
    match type of Hrun with
    | context [rollback_txn ?a ?b ?c ?d] =>
        destruct (rollback_txn a b c d) as [[lm4 bm4]| |] eqn:Er;
        cbn [mbind outcome_mbind outcome_bind] in Hrun; try discriminate Hrun
    end.
    apply rollback_txn_lm in Er. subst lm4. injection Hrun as <- _.
    cbn [with_txns incr with_counts with_offset with_file log_file_ current_offset_].
    rewrite Hinv. split; [reflexivity|]. split; [|split; [reflexivity|tauto]].
    unfold encode_record. rewrite !length_app. cbn. unwrap. lia.
  - unfold log_commit in Hrun. rewrite Hinv in Hrun, Hfit.
    use_txn_append Hrun COMMIT_RECORD t.
    rewrite (Hw Hfit) in Hrun.
    cbn [mbind option_bind of_option outcome_mbind outcome_bind] in Hrun.
    injection Hrun as <- _.
    cbn [with_txns incr with_counts with_offset with_file log_file_ current_offset_].
    rewrite Hinv. split; [reflexivity|]. split; [|split; [reflexivity|tauto]].
    unfold encode_record. rewrite !length_app. cbn. unwrap. lia.
  - unfold log_update in Hrun. cbn zeta in Hrun. rewrite Hinv in Hrun, Hfit.
    pose proof (append_update_record (log_file_ lm) t p len off b a Hfit) as Hw.
    cbn zeta in Hw.
    repeat match type of Hrun with
           | context [File.write_block ?f ?d ?o ?k] =>
               destruct (File.write_block f d o k) as [?f1|] eqn:?E;
               cbn [mbind option_bind of_option outcome_mbind outcome_bind] in Hw, Hrun;
               [|discriminate Hrun]
           end.
    destruct (decide (len ≤ N.of_nat (length b) ∧ len ≤ N.of_nat (length a)))
      as [[Hb Ha]|]; [|discriminate Hw].
    apply (inj Some) in Hw. rename Hw into Hf7. injection Hrun as <- _.
    cbn [with_txns incr with_counts with_offset with_file log_file_ current_offset_].
    rewrite Hinv.
    assert (Hlen : N.of_nat
                     (length
                        (encode_record
                           (Update (UpdateInfo.mk t p len off (take (N.to_nat len) b)
                                      (take (N.to_nat len) a)))))
                   = 33 + 2 * len).
    { unfold encode_record, encode_payload.
      cbn [UpdateInfo.txn_id UpdateInfo.page_id UpdateInfo.length UpdateInfo.offset
           UpdateInfo.before_img UpdateInfo.after_img].
      rewrite !length_app, !length_encode_u64, !length_take, length_tag_bytes. lia. }
    split; [exact Hf7|]. split; [|split; [exact Hlen|]].
    + rewrite Hf7.
      rewrite !length_app, !length_encode_u64, !length_take, length_tag_bytes.
      unwrap. lia.
    + cbn [UpdateInfo.txn_id UpdateInfo.page_id UpdateInfo.length UpdateInfo.offset
           UpdateInfo.before_img UpdateInfo.after_img].
      rewrite !length_take. intros (? & ? & ? & ?). repeat split; try assumption; lia.
  - unfold log_txn_begin in Hrun. rewrite Hinv in Hrun, Hfit.
    use_txn_append Hrun BEGIN_RECORD t.
    rewrite (Hw Hfit) in Hrun.
    cbn [mbind option_bind of_option outcome_mbind outcome_bind] in Hrun.
    injection Hrun as <- _.
    cbn [with_txns incr with_counts with_offset with_file log_file_ current_offset_
         get_total_log_records].
    rewrite Hinv. split; [reflexivity|]. split; [|split; [reflexivity|tauto]].
    unfold encode_record. rewrite !length_app. cbn. unwrap. lia.
  - unfold log_checkpoint in Hrun. rewrite Hinv in Hrun, Hfit.
    rewrite (append_tag_record _ CHECKPOINT_RECORD Hfit) in Hrun.
    cbn [mbind option_bind of_option outcome_mbind outcome_bind] in Hrun.
    injection Hrun as <- _.
    cbn [with_txns incr with_counts with_offset with_file log_file_ current_offset_].
    rewrite Hinv. split; [reflexivity|]. split; [|split; [reflexivity|tauto]].
    unfold encode_record. rewrite !length_app. cbn. unwrap. lia.
  - unfold log_fuzzy_checkpoint_begin in Hrun.
    cbn [with_page_ids log_file_ current_offset_] in Hrun.
    rewrite Hinv in Hrun, Hfit.
    rewrite (append_tag_record _ BEGIN_FUZZY_CHECKPOINT_RECORD Hfit) in Hrun.
    cbn [mbind option_bind of_option outcome_mbind outcome_bind] in Hrun.
    injection Hrun as <- _.
    cbn [snd with_txns incr with_counts with_offset with_file with_page_ids
         log_file_ current_offset_].
    rewrite Hinv. split; [reflexivity|]. split; [|split; [reflexivity|tauto]].
    unfold encode_record. rewrite !length_app. cbn. unwrap. lia.
  - unfold log_fuzzy_checkpoint_end in Hrun. rewrite Hinv in Hrun, Hfit.
    rewrite (append_tag_record _ END_FUZZY_CHECKPOINT_RECORD Hfit) in Hrun.
    cbn [mbind option_bind of_option outcome_mbind outcome_bind] in Hrun.
    injection Hrun as <- _.
    cbn [with_txns incr with_counts with_offset with_file with_page_ids
         log_file_ current_offset_].
    rewrite Hinv. split; [reflexivity|]. split; [|split; [reflexivity|tauto]].
    unfold encode_record. rewrite !length_app. cbn. unwrap. lia.
Qed.

Lemma encode_log_app l1 l2 : encode_log (l1 ++ l2) = encode_log l1 ++ encode_log l2.
Proof.
  induction l1 as [|r l1 IH]; [reflexivity|].
  cbn [app encode_log]. now rewrite IH, app_assoc.
Qed.

Lemma run_ops_layout fuel ops :
  ∀ lm bm lm' bm',
    current_offset_ lm = File.size (log_file_ lm) →
    current_offset_ lm + ops_size ops < U64.modulus →
    run_ops fuel ops lm bm = Done (lm', bm') →
    log_file_ lm' = log_file_ lm ++ encode_log (record_of_op <$> ops)
    ∧ current_offset_ lm' = File.size (log_file_ lm')
    ∧ File.size (encode_log (record_of_op <$> ops)) = ops_size ops
    ∧ (Forall wf_op ops → Forall wf_record (record_of_op <$> ops)).
Proof.
  induction ops as [|op ops IH]; intros lm bm lm' bm' Hinv Hfit Hrun.
  - injection Hrun as <- _. cbn [fmap list_fmap encode_log]. rewrite app_nil_r.
    split; [reflexivity|]. split; [exact Hinv|]. split; [reflexivity|].
    intros _. constructor.
  - cbn [run_ops] in Hrun. cbn [ops_size foldr] in Hfit. fold (ops_size ops) in Hfit.
    destruct (run_op fuel op lm bm) as [[lm1 bm1]| |] eqn:E;
      cbn [mbind outcome_mbind outcome_bind] in Hrun; try discriminate Hrun.
    destruct (run_op_layout fuel op lm bm lm1 bm1 Hinv) as (F1 & O1 & S1 & W1);
      [lia|exact E|].
    destruct (IH lm1 bm1 lm' bm' O1) as (F2 & O2 & S2 & W2); [|exact Hrun|].
    { rewrite O1, F1. unfold File.size in *. rewrite length_app. rewrite Hinv in Hfit. lia. }
    cbn [fmap list_fmap encode_log].
    split; [rewrite F2, F1, <- app_assoc; reflexivity|]. split; [exact O2|]. split.
    + unfold File.size in *. cbn [ops_size foldr]. fold (ops_size ops).
      rewrite length_app. lia.
    + intros Hall. apply Forall_cons in Hall as [H1 H2].
      apply Forall_cons. split; [exact (W1 H1)|exact (W2 H2)].
Qed.

End AppendLayout.

Section CrashRecovery.

Import LogManager.

Ltac split_writes H :=
  repeat match type of H with
         | context [File.write_block ?f ?d ?o ?n] =>
             destruct (File.write_block f d o n);
             cbn [mbind option_bind of_option outcome_mbind outcome_bind] in H;
             try discriminate H
         end.

(** What an append does to the transaction map. *)
Lemma run_op_txns fuel op lm bm lm' bm' :
  run_op fuel op lm bm = Done (lm', bm') →
  txn_id_to_first_log_record lm'
  = match op with
    | OpAbort txn_id | OpCommit txn_id => delete txn_id (txn_id_to_first_log_record lm)
    | OpBegin txn_id =>
        map_insert txn_id (total_records lm) (txn_id_to_first_log_record lm)
    | _ => txn_id_to_first_log_record lm
    end.
Proof.
  intros H. destruct op; cbn [run_op] in H.
  - unfold log_abort in H. split_writes H.
    match type of H with
    | context [rollback_txn ?a ?b ?c ?d] =>
        destruct (rollback_txn a b c d) as [[lm4 bm4]| |] eqn:E;
        cbn [mbind outcome_mbind outcome_bind] in H; try discriminate H
    end.
    apply rollback_txn_lm in E. subst lm4. injection H as <- _. reflexivity.
  - unfold log_commit in H. split_writes H. injection H as <- _. reflexivity.
  - unfold log_update in H. split_writes H. injection H as <- _. reflexivity.
  - unfold log_txn_begin in H. split_writes H. injection H as <- _. reflexivity.
  - unfold log_checkpoint in H. split_writes H. injection H as <- _. reflexivity.
  - unfold log_fuzzy_checkpoint_begin in H. split_writes H. injection H as <- _.
    reflexivity.
  - unfold log_fuzzy_checkpoint_end in H. split_writes H. injection H as <- _.
    reflexivity.
Qed.

Lemma total_records_ext lm1 lm2 :
  (∀ k, count_at (log_record_type_to_count lm1) k
        = count_at (log_record_type_to_count lm2) k) →
  total_records lm1 = total_records lm2.
Proof.
  intros H. unfold total_records, get_total_log_records. cbn [fst].
  now rewrite !H.
Qed.

Lemma record_type_of_op op : record_type (record_of_op op) = op_type op.
Proof. destruct op; reflexivity. Qed.

(** The scan of recovery follows the appends: after the record of an
  append that is not an ABORT, it has the transaction map and the
  counters that the append left. *)
Lemma scan_follows_append fuel op lm bm lm' bm' st :
  op_type op ≠ ABORT_RECORD →
  run_op fuel op lm bm = Done (lm', bm') →
  txn_id_to_first_log_record lm = txn_id_to_first_log_record (rc_lm st) →
  (∀ k, count_at (log_record_type_to_count lm) k
        = count_at (log_record_type_to_count (rc_lm st)) k) →
  txn_id_to_first_log_record lm'
  = txn_id_to_first_log_record (rc_lm (apply_record (record_of_op op) st))
  ∧ (∀ k, count_at (log_record_type_to_count lm') k
          = count_at (log_record_type_to_count
                        (rc_lm (apply_record (record_of_op op) st))) k).
Proof.
  intros Hna Hrun Ht Hc. split.
  - rewrite (run_op_txns _ _ _ _ _ _ Hrun).
    destruct op; cbn [op_type] in Hna; try congruence;
      cbn [record_of_op apply_record rc_lm]; try (now rewrite Ht).
    unfold get_total_log_records. cbn [rc_lm incr with_counts with_txns
      txn_id_to_first_log_record].
    rewrite Ht. f_equal. apply total_records_ext. exact Hc.
  - intros k. rewrite (run_op_counts _ _ _ _ _ _ Hrun k), count_at_apply_record.
    rewrite record_type_of_op, Hc. reflexivity.
Qed.

Lemma scan_follows_appends fuel ops :
  ∀ lm bm lm' bm' st,
    Forall (λ op, op_type op ≠ ABORT_RECORD) ops →
    run_ops fuel ops lm bm = Done (lm', bm') →
    txn_id_to_first_log_record lm = txn_id_to_first_log_record (rc_lm st) →
    (∀ k, count_at (log_record_type_to_count lm) k
          = count_at (log_record_type_to_count (rc_lm st)) k) →
    txn_id_to_first_log_record lm'
    = txn_id_to_first_log_record (rc_lm (scan_records (record_of_op <$> ops) st))
    ∧ (∀ k, count_at (log_record_type_to_count lm') k
            = count_at (log_record_type_to_count
                          (rc_lm (scan_records (record_of_op <$> ops) st))) k).
Proof.
  induction ops as [|op ops IH]; intros lm bm lm' bm' st Hna Hrun Ht Hc.
  - injection Hrun as <- _. split; assumption.
  - cbn [run_ops] in Hrun.
    destruct (run_op fuel op lm bm) as [[lm1 bm1]| |] eqn:E;
      cbn [mbind outcome_mbind outcome_bind] in Hrun; try discriminate Hrun.
    apply Forall_cons in Hna as [Hna1 Hna].
    destruct (scan_follows_append fuel op lm bm lm1 bm1 st Hna1 E Ht Hc) as [Ht1 Hc1].
    exact (IH lm1 bm1 lm' bm' (apply_record (record_of_op op) st) Hna Hrun Ht1 Hc1).
Qed.

Lemma count_at_fresh lm f k :
  count_at (log_record_type_to_count (new [])) k
  = count_at (log_record_type_to_count (rc_lm (recovery_init (reset lm f)))) k.
Proof. destruct k; reflexivity. Qed.

Lemma scan_records_frame recs :
  ∀ st, log_file_ (rc_lm (scan_records recs st)) = log_file_ (rc_lm st)
        ∧ current_offset_ (rc_lm (scan_records recs st)) = current_offset_ (rc_lm st).
Proof.
  induction recs as [|r recs IH]; intros st; [split; reflexivity|].
  cbn [scan_records foldl]. fold (scan_records recs (apply_record r st)).
  destruct (IH (apply_record r st)) as [-> ->].
  destruct (apply_record_frame r st) as (-> & -> & _). split; reflexivity.
Qed.

(** Crash and recovery rebuild the indexes: after appends without an
  ABORT on a new log manager over an empty file, resetting a log
  manager onto the file and running recovery gives back the
  transaction map, every counter and the offset that the appending log
  manager had. *)
Theorem crash_recovery_rebuilds_indexes fuel fuel' ops bm lm1 bm1 bm2 lm3 bm3
    (Hwf : Forall wf_op ops)
    (Hna : Forall (λ op, op_type op ≠ ABORT_RECORD) ops)
    (Hfit : ops_size ops < U64.modulus)
    (Hrun : run_ops fuel ops (new []) bm = Done (lm1, bm1))
    (Hrec : recovery fuel' (reset lm1 (log_file_ lm1)) bm2 = Done (lm3, bm3)) :
  txn_id_to_first_log_record lm3 = txn_id_to_first_log_record lm1
  ∧ (∀ k, count_at (log_record_type_to_count lm3) k
          = count_at (log_record_type_to_count lm1) k)
  ∧ current_offset_ lm3 = current_offset_ lm1
  ∧ log_file_ lm3 = log_file_ lm1.
Proof.
  destruct (run_ops_layout fuel ops (new []) bm lm1 bm1 eq_refl Hfit Hrun)
    as (F1 & O1 & S1 & W1).
  cbn [new log_file_ app] in F1. change (log_file_ (new [])) with (@nil byte) in F1.
  cbn [app] in F1.
  destruct (recovery_lm _ _ _ _ _ Hrec) as (st & Hscan & ->).
  set (st0 := recovery_init (reset lm1 (log_file_ lm1))) in *.
  rewrite (recovery_loop_log (record_of_op <$> ops) st0 [] [] fuel') in Hscan;
    [|rewrite app_nil_r; exact F1|reflexivity|reflexivity
     |change (log_file_ (rc_lm st0)) with (log_file_ lm1);
      rewrite F1, S1; exact Hfit
     |exact (W1 Hwf)|exact I].
  destruct (decide (length (record_of_op <$> ops) < fuel')%nat); [|discriminate Hscan].
  injection Hscan as <-.
  destruct (scan_follows_appends fuel ops (new []) bm lm1 bm1 st0 Hna Hrun eq_refl
              (count_at_fresh lm1 (log_file_ lm1))) as [Ht Hc].
  destruct (scan_records_frame (record_of_op <$> ops) st0) as [Ef Eo].
  split; [symmetry; exact Ht|]. split; [intros k; symmetry; apply Hc|].
  split; [rewrite Eo, O1; reflexivity|exact Ef].
Qed.

End CrashRecovery.

Section PageWrites.

Import LogManager.

Lemma image_at_cons p off b bs :
  BufferManager.image_at p off (b :: bs)
  = <[(p, off) := b]> (BufferManager.image_at p (off + 1) bs).
Proof.
  unfold BufferManager.image_at. cbn [imap]. rewrite list_to_map_cons.
  rewrite N.add_0_r. f_equal. f_equal. apply imap_ext.
  intros i x _. cbn. do 2 f_equal. lia.
Qed.

Lemma lookup_image_at p off bs q j :
  BufferManager.image_at p off bs !! (q, j)
  = if decide (p = q ∧ off ≤ j < off + N.of_nat (length bs))
    then bs !! N.to_nat (j - off)
    else None.
Proof.
  revert off. induction bs as [|b bs IH]; intros off.
  - cbn [length]. rewrite decide_False by lia. reflexivity.
  - rewrite image_at_cons.
    destruct (decide ((p, off) = (q, j))) as [[= -> ->]|Hne].
    + rewrite lookup_insert_eq. rewrite decide_True by (cbn [length]; lia).
      now rewrite N.sub_diag.
    + rewrite lookup_insert_ne by exact Hne. rewrite IH. cbn [length].
      destruct (decide (p = q)) as [->|Hpq].
      * assert (off ≠ j) by congruence.
        destruct (decide (off + 1 ≤ j < off + 1 + N.of_nat (length bs))).
        -- rewrite decide_True by lia. rewrite decide_True by lia.
           replace (N.to_nat (j - off)) with (S (N.to_nat (j - (off + 1)))) by lia.
           reflexivity.
        -- rewrite decide_False by lia. rewrite decide_False by lia. reflexivity.
      * rewrite decide_False by tauto. rewrite decide_False by tauto. reflexivity.
Qed.

Lemma undo_image_app l1 l2 : undo_image (l1 ++ l2) = undo_image l2 ∪ undo_image l1.
Proof.
  induction l1 as [|w l1 IH].
  - cbn [app undo_image]. now rewrite (right_id_L ∅ (∪)).
  - cbn [app undo_image]. rewrite IH. now rewrite (assoc_L (∪)).
Qed.

Lemma undo_pages_app l1 l2 : undo_pages (l1 ++ l2) = undo_pages l2 ∪ undo_pages l1.
Proof.
  induction l1 as [|w l1 IH].
  - cbn [app undo_pages]. now rewrite (right_id_L ∅ (∪)).
  - cbn [app undo_pages]. rewrite IH. now rewrite (assoc_L (∪)).
Qed.

Lemma undo_image_not_covered ws p i :
  (∀ w, w ∈ ws → ¬ covers w p i) → undo_image ws !! (p, i) = None.
Proof.
  induction ws as [|w ws IH]; intros H; [reflexivity|].
  cbn [undo_image]. apply lookup_union_None. split.
  - apply IH. intros v Hv. apply H. now right.
  - rewrite lookup_image_at. rewrite decide_False; [reflexivity|].
    intros [Hp Hr]. apply (H w); [now left|].
    split; [exact Hp|]. rewrite length_take in Hr. lia.
Qed.

Lemma elem_of_undo_pages ws p :
  p ∈ undo_pages ws ↔ ∃ u, u ∈ ws ∧ UpdateInfo.page_id u = p.
Proof.
  induction ws as [|w ws IH]; cbn [undo_pages].
  - split; [set_solver|]. intros (u & Hu & _). by apply elem_of_nil in Hu.
  - rewrite elem_of_union, IH, elem_of_singleton. split.
    + intros [(u & Hu & Hp)| ->]; [exists u|exists w]; split; auto; by constructor.
    + intros (u & Hu & Hp). apply elem_of_cons in Hu as [->|Hu]; [by right|].
      left. by exists u.
Qed.

(** [rollback_txn] over a log of encoded records, as one expression. *)
Lemma rollback_txn_log fuel txn_id lm bm recs tail :
  File.size (log_file_ lm) < U64.modulus →
  is_Some (txn_id_to_first_log_record lm !! txn_id) →
  log_file_ lm = encode_log recs ++ tail →
  Forall wf_record recs →
  torn_tail tail →
  current_offset_ lm = File.size (log_file_ lm) →
  (length recs < fuel)%nat →
  rollback_txn fuel txn_id lm bm
  = of_option (pair lm <$> undo_updates (rev (updates_to_undo txn_id recs)) bm).
Proof.
  intros Hsize [n Hlive] Hlog Hwf Htail Hoff Hfuel.
  unfold rollback_txn. rewrite Hlive.
  destruct (rollback_loop_log lm txn_id Hsize recs [] [] fuel tail Hlog Hwf Htail
              Hoff Hfuel) as [off Hscan].
  cbn [length] in Hscan. change (N.of_nat 0) with 0 in Hscan.
  rewrite Hscan. cbn [mbind outcome_mbind outcome_bind rb_updates app].
  destruct (undo_updates (rev (updates_to_undo txn_id recs)) bm); reflexivity.
Qed.

(** What a returning [rollback_txn] leaves in the buffer manager. *)
Lemma rollback_txn_log_Done fuel txn_id lm bm lm' bm' recs tail :
  File.size (log_file_ lm) < U64.modulus →
  is_Some (txn_id_to_first_log_record lm !! txn_id) →
  log_file_ lm = encode_log recs ++ tail →
  Forall wf_record recs →
  torn_tail tail →
  current_offset_ lm = File.size (log_file_ lm) →
  (length recs < fuel)%nat →
  rollback_txn fuel txn_id lm bm = Done (lm', bm') →
  Forall (undo_in_bounds (BufferManager.page_size bm)) (updates_to_undo txn_id recs)
  ∧ bm' = BufferManager.mk (BufferManager.page_size bm)
            (undo_image (rev (updates_to_undo txn_id recs)) ∪ BufferManager.data bm)
            (undo_pages (rev (updates_to_undo txn_id recs)) ∪ BufferManager.dirty bm)
            (BufferManager.disk bm).
Proof.
  intros Hsize Hlive Hlog Hwf Htail Hoff Hfuel Hrun.
  rewrite (rollback_txn_log fuel txn_id lm bm recs tail Hsize Hlive Hlog Hwf Htail
             Hoff Hfuel), undo_updates_spec in Hrun.
  destruct (decide (Forall (undo_in_bounds (BufferManager.page_size bm))
                      (rev (updates_to_undo txn_id recs)))) as [Hb|Hb];
    [|discriminate Hrun].
  injection Hrun as _ <-. split; [|reflexivity].
  rewrite <- (rev_involutive (updates_to_undo txn_id recs)).
  now apply List.Forall_rev.
Qed.



End PageWrites.

Section AbortUndo.

Import LogManager.

Lemma updates_to_undo_abort txn_id recs :
  updates_to_undo txn_id (recs ++ [Abort txn_id]) = updates_to_undo txn_id recs.
Proof.
  induction recs as [|r recs IH].
  - cbn [app updates_to_undo]. now rewrite decide_True.
  - cbn [app updates_to_undo]. rewrite IH. reflexivity.
Qed.


End AbortUndo.

Section RecoveredMap.

Import LogManager.

Lemma scan_records_app l1 l2 st :
  scan_records (l1 ++ l2) st = scan_records l2 (scan_records l1 st).
Proof. unfold scan_records. apply foldl_app. Qed.

Lemma lookup_apply_record r st txn_id :
  txn_id_to_first_log_record (rc_lm (apply_record r st)) !! txn_id
  = match r with
    | Begin t =>
        if decide (t = txn_id)
        then Some (default (total_records (rc_lm st))
                     (txn_id_to_first_log_record (rc_lm st) !! txn_id))
        else txn_id_to_first_log_record (rc_lm st) !! txn_id
    | Commit t =>
        if decide (t = txn_id) then None
        else txn_id_to_first_log_record (rc_lm st) !! txn_id
    | _ => txn_id_to_first_log_record (rc_lm st) !! txn_id
    end.
Proof.
  destruct r as [t|t|u|t| | |]; cbn [apply_record rc_lm]; try reflexivity.
  - cbn [incr with_counts with_txns txn_id_to_first_log_record].
    destruct (decide (t = txn_id)) as [->|Hne].
    + apply lookup_delete_eq.
    + now apply lookup_delete_ne.
  - unfold get_total_log_records.
    cbn [rc_lm incr with_counts with_txns txn_id_to_first_log_record].
    destruct (decide (t = txn_id)) as [->|Hne].
    + apply map_insert_lookup.
    + now apply map_insert_lookup_ne.
Qed.

Lemma scan_records_no_commit recs :
  ∀ st txn_id n,
    Commit txn_id ∉ recs →
    txn_id_to_first_log_record (rc_lm st) !! txn_id = Some n →
    txn_id_to_first_log_record (rc_lm (scan_records recs st)) !! txn_id = Some n.
Proof.
  induction recs as [|r recs IH]; intros st txn_id n Hnc Hn; [exact Hn|].
  cbn [scan_records foldl]. fold (scan_records recs (apply_record r st)).
  apply not_elem_of_cons in Hnc as [Hr Hnc].
  apply IH; [exact Hnc|]. rewrite lookup_apply_record, Hn.
  destruct r as [t|t|u|t| | |]; try reflexivity.
  - rewrite decide_False by congruence. reflexivity.
  - destruct (decide (t = txn_id)); reflexivity.
Qed.

Lemma scan_records_no_begin recs :
  ∀ st txn_id,
    Begin txn_id ∉ recs →
    txn_id_to_first_log_record (rc_lm st) !! txn_id = None →
    txn_id_to_first_log_record (rc_lm (scan_records recs st)) !! txn_id = None.
Proof.
  induction recs as [|r recs IH]; intros st txn_id Hnb Hn; [exact Hn|].
  cbn [scan_records foldl]. fold (scan_records recs (apply_record r st)).
  apply not_elem_of_cons in Hnb as [Hr Hnb].
  apply IH; [exact Hnb|]. rewrite lookup_apply_record, Hn.
  destruct r as [t|t|u|t| | |]; try reflexivity.
  - destruct (decide (t = txn_id)); reflexivity.
  - rewrite decide_False by congruence. reflexivity.
Qed.

(** The state that [recovery] returns, on a log of encoded records. *)
Lemma recovery_log fuel lm bm lm' bm' recs tail :
  log_file_ lm = encode_log recs ++ tail →
  Forall wf_record recs →
  torn_tail tail →
  File.size (log_file_ lm) < U64.modulus →
  recovery fuel lm bm = Done (lm', bm') →
  lm' = rc_lm (scan_records recs (recovery_init lm)).
Proof.
  intros Hlog Hwf Htail Hsize Hrec.
  destruct (recovery_lm _ _ _ _ _ Hrec) as (st & Hscan & ->).
  rewrite (recovery_loop_log recs (recovery_init lm) [] tail fuel) in Hscan;
    [|exact Hlog|reflexivity|reflexivity|exact Hsize|exact Hwf|exact Htail].
  destruct (decide (length recs < fuel)%nat); [|discriminate Hscan].
  now injection Hscan as <-.
Qed.

(** After recovery a transaction whose COMMIT record is followed by no
  BEGIN of the same id has no entry in the transaction map. *)
Theorem recovery_drops_committed fuel lm bm lm' bm' before txn_id after tail
    (Hlog : log_file_ lm = encode_log (before ++ Commit txn_id :: after) ++ tail)
    (Hwf : Forall wf_record (before ++ Commit txn_id :: after))
    (Htail : torn_tail tail)
    (Hsize : File.size (log_file_ lm) < U64.modulus)
    (Hnb : Begin txn_id ∉ after)
    (Hrec : recovery fuel lm bm = Done (lm', bm')) :
  txn_id_to_first_log_record lm' !! txn_id = None.
Proof.
  rewrite (recovery_log fuel lm bm lm' bm' _ tail Hlog Hwf Htail Hsize Hrec).
  rewrite scan_records_app. cbn [scan_records foldl].
  fold (scan_records after (apply_record (Commit txn_id)
                              (scan_records before (recovery_init lm)))).
  apply scan_records_no_begin; [exact Hnb|].
  rewrite lookup_apply_record. now rewrite decide_True.
Qed.

(** After recovery the entry of a transaction is the ordinal of its
  BEGIN record, the number of records in front of it, when the
  transaction had no entry before recovery, no earlier BEGIN, and no
  COMMIT behind the BEGIN; an ABORT record behind it does not remove
  the entry. *)
Theorem recovery_enters_ordinal fuel lm bm lm' bm' before txn_id after tail
    (Hlog : log_file_ lm = encode_log (before ++ Begin txn_id :: after) ++ tail)
    (Hwf : Forall wf_record (before ++ Begin txn_id :: after))
    (Htail : torn_tail tail)
    (Hsize : File.size (log_file_ lm) < U64.modulus)
    (Hfresh : txn_id_to_first_log_record lm !! txn_id = None)
    (Hnb : Begin txn_id ∉ before)
    (Hnc : Commit txn_id ∉ after)
    (Hrec : recovery fuel lm bm = Done (lm', bm')) :
  txn_id_to_first_log_record lm' !! txn_id = Some (N.of_nat (length before)).
Proof.
  rewrite (recovery_log fuel lm bm lm' bm' _ tail Hlog Hwf Htail Hsize Hrec).
  rewrite scan_records_app. cbn [scan_records foldl].
  fold (scan_records after (apply_record (Begin txn_id)
                              (scan_records before (recovery_init lm)))).
  apply scan_records_no_commit; [exact Hnc|].
  rewrite lookup_apply_record. rewrite decide_True by reflexivity.
  rewrite (scan_records_no_begin before (recovery_init lm) txn_id Hnb Hfresh).
  cbn [default]. f_equal.
  rewrite total_records_scan_records, total_records_recovery_init, N.add_0_l.
  apply wrap_small.
  unfold File.size in Hsize. rewrite Hlog, !length_app in Hsize.
  pose proof (length_encode_log (before ++ Begin txn_id :: after)) as Hl.
  rewrite length_app in Hl. lia.
Qed.

(** Recovery does not clear the transaction map: an entry that the log
  manager holds when recovery starts is still there afterwards, with
  its ordinal, unless the log has a COMMIT record of that transaction. *)
Theorem recovery_keeps_earlier_entry fuel lm bm lm' bm' recs txn_id n tail
    (Hlog : log_file_ lm = encode_log recs ++ tail)
    (Hwf : Forall wf_record recs)
    (Htail : torn_tail tail)
    (Hsize : File.size (log_file_ lm) < U64.modulus)
    (Hold : txn_id_to_first_log_record lm !! txn_id = Some n)
    (Hnc : Commit txn_id ∉ recs)
    (Hrec : recovery fuel lm bm = Done (lm', bm')) :
  txn_id_to_first_log_record lm' !! txn_id = Some n.
Proof.
  rewrite (recovery_log fuel lm bm lm' bm' recs tail Hlog Hwf Htail Hsize Hrec).
  apply scan_records_no_commit; [exact Hnc|exact Hold].
Qed.

End RecoveredMap.

Section Termination.

Import LogManager.

Lemma rollback_txn_no_fuel_out fuel txn_id lm bm recs tail :
  File.size (log_file_ lm) < U64.modulus →
  log_file_ lm = encode_log recs ++ tail →
  Forall wf_record recs →
  torn_tail tail →
  current_offset_ lm = File.size (log_file_ lm) →
  (length recs < fuel)%nat →
  (∃ bm', rollback_txn fuel txn_id lm bm = Done (lm, bm'))
  ∨ rollback_txn fuel txn_id lm bm = Fault.
Proof.
  intros Hsize Hlog Hwf Htail Hoff Hfuel.
  destruct (txn_id_to_first_log_record lm !! txn_id) as [n|] eqn:Hlive.
  - rewrite (rollback_txn_log fuel txn_id lm bm recs tail Hsize (mk_is_Some _ _ Hlive)
               Hlog Hwf Htail Hoff Hfuel).
    destruct (undo_updates (rev (updates_to_undo txn_id recs)) bm) as [bm'|];
      [left; exists bm'|right]; reflexivity.
  - left. exists bm. unfold rollback_txn. now rewrite Hlive.
Qed.

Lemma rollback_all_no_fuel_out fuel txns lm recs tail :
  File.size (log_file_ lm) < U64.modulus →
  log_file_ lm = encode_log recs ++ tail →
  Forall wf_record recs →
  torn_tail tail →
  current_offset_ lm = File.size (log_file_ lm) →
  (length recs < fuel)%nat →
  ∀ bm, (∃ bm', rollback_all fuel txns lm bm = Done (lm, bm'))
        ∨ rollback_all fuel txns lm bm = Fault.
Proof.
  intros Hsize Hlog Hwf Htail Hoff Hfuel.
  induction txns as [|txn_id txns IH]; intros bm.
  - left. exists bm. reflexivity.
  - cbn [rollback_all].
    destruct (rollback_txn_no_fuel_out fuel txn_id lm bm recs tail Hsize Hlog Hwf
                Htail Hoff Hfuel) as [[bm1 ->]| ->];
      cbn [mbind outcome_mbind outcome_bind]; [apply IH|now right].
Qed.

(** On a log of encoded records both scans need one iteration per
  record: with fuel above the number of records [recovery] returns,
  the log manager being the one the scan rebuilt, or faults on a page
  write that leaves its page; it does not run out of fuel. *)
Theorem recovery_terminates fuel lm bm recs tail
    (Hlog : log_file_ lm = encode_log recs ++ tail)
    (Hwf : Forall wf_record recs)
    (Htail : torn_tail tail)
    (Hsize : File.size (log_file_ lm) < U64.modulus)
    (Hfuel : (length recs < fuel)%nat) :
  (∃ bm', recovery fuel lm bm
          = Done (rc_lm (scan_records recs (recovery_init lm)), bm'))
  ∨ recovery fuel lm bm = Fault.
Proof.
  unfold recovery.
  rewrite (recovery_loop_log recs (recovery_init lm) [] tail fuel);
    [|exact Hlog|reflexivity|reflexivity|exact Hsize|exact Hwf|exact Htail].
  rewrite decide_True by exact Hfuel. cbn [mbind outcome_mbind outcome_bind].
  set (st := scan_records recs (recovery_init lm)).
  destruct (scan_records_frame recs (recovery_init lm)) as [Ef Eo].
  fold st in Ef, Eo.
  change (log_file_ (rc_lm (recovery_init lm))) with (log_file_ lm) in Ef.
  change (current_offset_ (rc_lm (recovery_init lm)))
    with (File.size (log_file_ lm)) in Eo.
  assert (Hsize' : File.size (log_file_ (rc_lm st)) < U64.modulus)
    by (rewrite Ef; exact Hsize).
  assert (Hlog' : log_file_ (rc_lm st) = encode_log recs ++ tail)
    by (rewrite Ef; exact Hlog).
  assert (Hoff' : current_offset_ (rc_lm st) = File.size (log_file_ (rc_lm st)))
    by (rewrite Eo, Ef; reflexivity).
  destruct (redo_aborted (aborted_txns st) (redo_candidates st) bm) as [bm1|];
    cbn [of_option mbind outcome_mbind outcome_bind]; [|now right].
  destruct (rollback_all_no_fuel_out fuel (ascending (aborted_txns st)) (rc_lm st)
              recs tail Hsize' Hlog' Hwf Htail Hoff' Hfuel bm1) as [[bm2 ->]| ->];
    cbn [mbind outcome_mbind outcome_bind]; [|now right].
  apply rollback_all_no_fuel_out with (recs := recs) (tail := tail); assumption.
Qed.

End Termination.

Section TornTail.

Import LogManager.

Lemma rollback_all_log fuel txns lm recs tail :
  File.size (log_file_ lm) < U64.modulus →
  log_file_ lm = encode_log recs ++ tail →
  Forall wf_record recs →
  torn_tail tail →
  current_offset_ lm = File.size (log_file_ lm) →
  (length recs < fuel)%nat →
  ∀ bm, rollback_all fuel txns lm bm
        = of_option
            (pair lm <$> undo_transactions recs (txn_id_to_first_log_record lm) txns bm).
Proof.
  intros Hsize Hlog Hwf Htail Hoff Hfuel.
  induction txns as [|txn_id txns IH]; intros bm; [reflexivity|].
  cbn [rollback_all undo_transactions].
  destruct (txn_id_to_first_log_record lm !! txn_id) as [n|] eqn:Hlive.
  - rewrite (rollback_txn_log fuel txn_id lm bm recs tail Hsize (mk_is_Some _ _ Hlive)
               Hlog Hwf Htail Hoff Hfuel).
    destruct (undo_updates (rev (updates_to_undo txn_id recs)) bm) as [bm'|];
      cbn [fmap option_fmap option_map of_option mbind outcome_mbind outcome_bind
           option_bind]; [apply IH|reflexivity].
  - unfold rollback_txn. rewrite Hlive. cbn [mbind outcome_mbind outcome_bind].
    apply IH.
Qed.

(** [recovery] over a log of encoded records, as one expression. *)
Lemma recovery_log_spec fuel lm bm recs tail :
  log_file_ lm = encode_log recs ++ tail →
  Forall wf_record recs →
  torn_tail tail →
  File.size (log_file_ lm) < U64.modulus →
  recovery fuel lm bm
  = if decide (length recs < fuel)%nat then
      let st := scan_records recs (recovery_init lm) in
      let entries := txn_id_to_first_log_record (rc_lm st) in
      of_option
        (bm1 ← redo_aborted (aborted_txns st) (redo_candidates st) bm;
         bm2 ← undo_transactions recs entries (ascending (aborted_txns st)) bm1;
         bm3 ← undo_transactions recs entries
                 (filter (λ txn_id, txn_id ∉ aborted_txns st) (ascending (dom entries)))
                 bm2;
         Some (rc_lm st, bm3))
    else OutOfFuel.
Proof.
  intros Hlog Hwf Htail Hsize. unfold recovery.
  rewrite (recovery_loop_log recs (recovery_init lm) [] tail fuel);
    [|exact Hlog|reflexivity|reflexivity|exact Hsize|exact Hwf|exact Htail].
  destruct (decide (length recs < fuel)%nat) as [Hfuel|]; [|reflexivity].
  cbn [mbind outcome_mbind outcome_bind]. cbn zeta.
  set (st := scan_records recs (recovery_init lm)).
  destruct (scan_records_frame recs (recovery_init lm)) as [Ef Eo].
  fold st in Ef, Eo.
  change (log_file_ (rc_lm (recovery_init lm))) with (log_file_ lm) in Ef.
  change (current_offset_ (rc_lm (recovery_init lm)))
    with (File.size (log_file_ lm)) in Eo.
  assert (Hsize' : File.size (log_file_ (rc_lm st)) < U64.modulus)
    by (rewrite Ef; exact Hsize).
  assert (Hlog' : log_file_ (rc_lm st) = encode_log recs ++ tail)
    by (rewrite Ef; exact Hlog).
  assert (Hoff' : current_offset_ (rc_lm st) = File.size (log_file_ (rc_lm st)))
    by (rewrite Eo, Ef; reflexivity).
  destruct (redo_aborted (aborted_txns st) (redo_candidates st) bm) as [bm1|];
    cbn [of_option mbind outcome_mbind outcome_bind option_bind]; [|reflexivity].
  rewrite (rollback_all_log fuel _ (rc_lm st) recs tail Hsize' Hlog' Hwf Htail Hoff' Hfuel).
  destruct (undo_transactions recs (txn_id_to_first_log_record (rc_lm st))
              (ascending (aborted_txns st)) bm1) as [bm2|];
    cbn [fmap option_fmap option_map of_option mbind outcome_mbind outcome_bind
         option_bind]; [|reflexivity].
  rewrite (rollback_all_log fuel _ (rc_lm st) recs tail Hsize' Hlog' Hwf Htail Hoff' Hfuel).
  destruct (undo_transactions recs (txn_id_to_first_log_record (rc_lm st)) _ bm2);
    reflexivity.
Qed.

Lemma apply_record_retarget f r st :
  apply_record r (retarget f st) = retarget f (apply_record r st).
Proof. destruct r; reflexivity. Qed.

Lemma scan_records_retarget f recs :
  ∀ st, scan_records recs (retarget f st) = retarget f (scan_records recs st).
Proof.
  induction recs as [|r recs IH]; intros st; [reflexivity|].
  cbn [scan_records foldl]. fold (scan_records recs (apply_record r (retarget f st))).
  fold (scan_records recs (apply_record r st)).
  now rewrite apply_record_retarget, IH.
Qed.

Lemma recovery_retarget fuel lm bm recs tail :
  log_file_ lm = encode_log recs ++ tail →
  Forall wf_record recs →
  torn_tail tail →
  File.size (log_file_ lm) < U64.modulus →
  (λ r, (indexes r.1, r.2)) <$> recovery fuel lm bm
  = (λ r, (indexes r.1, r.2)) <$> recovery fuel (with_file lm (encode_log recs)) bm.
Proof.
  intros Hlog Hwf Htail Hsize.
  assert (Hle : File.size (encode_log recs) < U64.modulus).
  { unfold File.size in *. rewrite Hlog, length_app in Hsize. lia. }
  rewrite (recovery_log_spec fuel lm bm recs tail Hlog Hwf Htail Hsize).
  rewrite (recovery_log_spec fuel (with_file lm (encode_log recs)) bm recs []);
    [|cbn [with_file log_file_]; now rewrite app_nil_r|exact Hwf|exact I|exact Hle].
  destruct (decide (length recs < fuel)%nat); [|reflexivity].
  cbn zeta.
  change (recovery_init (with_file lm (encode_log recs)))
    with (retarget (encode_log recs) (recovery_init lm)).
  rewrite scan_records_retarget.
  set (st := scan_records recs (recovery_init lm)).
  cbn [retarget rc_lm aborted_txns with_offset with_file txn_id_to_first_log_record].
  change (redo_candidates (retarget (encode_log recs) st)) with (redo_candidates st).
  destruct (redo_aborted (aborted_txns st) (redo_candidates st) bm) as [bm1|];
    cbn [mbind option_bind]; [|reflexivity].
  destruct (undo_transactions recs (txn_id_to_first_log_record (rc_lm st))
              (ascending (aborted_txns st)) bm1) as [bm2|];
    cbn [mbind option_bind]; [|reflexivity].
  destruct (undo_transactions recs (txn_id_to_first_log_record (rc_lm st)) _ bm2);
    reflexivity.
Qed.

(** A zero tag ends the log: whatever bytes follow it, recovery returns
  the indexes and the buffer manager that it returns on the file cut
  off at the zero tag. *)
Theorem recovery_ignores_torn_tail fuel lm bm recs junk
    (Hlog : log_file_ lm = encode_log recs ++ x00 :: junk)
    (Hwf : Forall wf_record recs)
    (Hsize : File.size (log_file_ lm) < U64.modulus) :
  (λ r, (indexes r.1, r.2)) <$> recovery fuel lm bm
  = (λ r, (indexes r.1, r.2)) <$> recovery fuel (with_file lm (encode_log recs)) bm.
Proof. exact (recovery_retarget fuel lm bm recs (x00 :: junk) Hlog Hwf eq_refl Hsize). Qed.


End TornTail.

Section FuzzySteps.

Import LogManager.

Lemma foldl_lookup_total_seq {A B} `{Inhabited A} (g : B → A → B) (rest : list A) :
  ∀ (pre : list A) (b : B),
    foldl (λ acc i, g acc ((pre ++ rest) !!! i)) b (seq (length pre) (length rest))
    = foldl g b rest.
Proof.
  induction rest as [|x rest IH]; intros pre b; [reflexivity|].
  cbn [length seq foldl].
  rewrite (list_lookup_total_middle pre rest x) by reflexivity.
  specialize (IH (pre ++ [x]) (g b x)).
  rewrite <- app_assoc, length_app in IH. cbn [app length] in IH.
  replace (length pre + 1)%nat with (S (length pre)) in IH by lia.
  exact IH.
Qed.

Lemma foldl_ext_elem {A B} (f g : B → A → B) (l : list A) :
  (∀ b x, x ∈ l → f b x = g b x) → ∀ b, foldl f b l = foldl g b l.
Proof.
  induction l as [|x l IH]; intros Hfg b; [reflexivity|].
  cbn [foldl]. rewrite (Hfg b x) by (by left).
  apply IH. intros b' y Hy. apply Hfg. by right.
Qed.

(** A fuzzy checkpoint whose steps [0 .. n-1] run in order asks for one
  flush of every page id that was dirty at its begin, in the order of
  the snapshot; [n] is the number the begin returned. *)
Theorem fuzzy_steps_flush_snapshot lm bm n lm1
    (Hbegin : log_fuzzy_checkpoint_begin lm bm = Some (n, lm1)) :
  n = N.of_nat (length (BufferManager.get_dirty_page_ids bm))
  ∧ fuzzy_checkpoint_page_ids lm1 = BufferManager.get_dirty_page_ids bm
  ∧ run_steps lm1 bm (N.of_nat <$> seq 0 (N.to_nat n))
    = foldl BufferManager.flush_page bm (BufferManager.get_dirty_page_ids bm).
Proof.
  unfold log_fuzzy_checkpoint_begin in Hbegin.
  destruct (File.write_block _ _ _ _) as [f1|];
    cbn [mbind option_bind] in Hbegin; [|discriminate Hbegin].
  injection Hbegin as <- <-.
  cbn [incr with_counts with_offset with_file with_page_ids fuzzy_checkpoint_page_ids].
  split; [reflexivity|]. split; [reflexivity|].
  rewrite Nat2N.id. unfold run_steps.
  set (ids := BufferManager.get_dirty_page_ids bm).
  rewrite foldl_fmap.
  rewrite <- (foldl_lookup_total_seq BufferManager.flush_page ids [] bm).
  cbn [app length]. apply foldl_ext_elem.
  intros b i Hi. apply elem_of_seq in Hi.
  unfold log_fuzzy_checkpoint_do_step.
  cbn [incr with_counts with_offset with_file with_page_ids fuzzy_checkpoint_page_ids].
  fold ids. rewrite decide_False by lia. cbn [snd]. now rewrite Nat2N.id.
Qed.

End FuzzySteps.

Section PrintedLog.

Import PrintLog.

Lemma printLog_body_record f pre r rest lines :
  f = pre ++ encode_record r ++ rest →
  File.size f < U64.modulus →
  wf_record r →
  printLog_body f (mk_print (N.of_nat (length pre)) lines)
  = Some (Continue (mk_print (N.of_nat (length (pre ++ encode_record r)))
                      (lines ++ [record_line r]))).
Proof.
  unfold File.size. intros Hfile Hsize Hwf.
  assert (Hlen : N.of_nat (length pre) + N.of_nat (length (encode_record r))
                 ≤ N.of_nat (length f)).
  { rewrite Hfile, !length_app. lia. }
  assert (Hnext : N.of_nat (length (pre ++ encode_record r))
                  = N.of_nat (length pre) + N.of_nat (length (encode_record r))).
  { rewrite length_app. lia. }
  rewrite Hnext. rewrite (length_encode_record r Hwf) in *. clear Hnext.
  unfold printLog_body. cbn [pr_offset pr_lines].
  rewrite (read_uchar_segment pre (encode_payload r ++ rest) (record_type r));
    [|rewrite Hfile, encode_record_tag, <- app_assoc; reflexivity|reflexivity].
  cbn [mbind option_bind].
  destruct r as [t|t|u|t| | |]; cbn [record_type tag_of record_line]; tag_consts.
  - unwrap. rewrite (txn_layout _ pre (Abort t) rest t Hfile) by (auto; exact Hwf).
    reflexivity.
  - unwrap. rewrite (txn_layout _ pre (Commit t) rest t Hfile) by (auto; exact Hwf).
    reflexivity.
  - destruct (update_layout _ pre u rest Hfile Hwf) as (Rt & Rp & Rl & Ro & _ & _).
    destruct Hwf as (Ht & Hp & Hl & Ho & Hb & Ha).
    unwrap. rewrite Rt. cbn [mbind option_bind].
    rewrite Rp. cbn [mbind option_bind].
    rewrite Rl. cbn [mbind option_bind].
    rewrite Ro. cbn [mbind option_bind]. unwrap. reflexivity.
  - unwrap. rewrite (txn_layout _ pre (Begin t) rest t Hfile) by (auto; exact Hwf).
    reflexivity.
  - unwrap. reflexivity.
  - unwrap. reflexivity.
  - unwrap. reflexivity.
Qed.

Lemma printLog_loop_log recs :
  ∀ f pre tail lines fuel,
    f = pre ++ encode_log recs ++ tail →
    File.size f < U64.modulus →
    Forall wf_record recs →
    torn_tail tail →
    (length recs < fuel)%nat →
    pr_lines <$> printLog_loop fuel f (mk_print (N.of_nat (length pre)) lines)
    = Done (lines ++ (record_line <$> recs)).
Proof.
  induction recs as [|r recs IH]; intros f pre tail lines fuel Hfile Hsize Hwf Htail Hfuel;
    (destruct fuel as [|fuel]; [cbn [length] in Hfuel; lia|]);
    cbn [printLog_loop pr_offset].
  - cbn [encode_log app fmap list_fmap] in *. rewrite app_nil_r.
    destruct tail as [|b tail].
    + rewrite decide_False; [reflexivity|].
      unfold File.size. rewrite Hfile, app_nil_r. lia.
    + cbn in Htail. subst b.
      rewrite decide_True
        by (unfold File.size; rewrite Hfile, length_app; cbn [length]; lia).
      unfold printLog_body. cbn [pr_offset].
      rewrite (read_uchar_zero pre tail f _ Hfile eq_refl).
      cbn [mbind option_bind tag_of]. rewrite decide_True by reflexivity.
      reflexivity.
  - cbn [encode_log] in Hfile. rewrite <- app_assoc in Hfile.
    apply Forall_cons in Hwf as [Hr Hwf].
    pose proof (encode_record_nonempty r) as Hne.
    rewrite decide_True
      by (unfold File.size; rewrite Hfile, !length_app; lia).
    rewrite (printLog_body_record f pre r (encode_log recs ++ tail) lines Hfile Hsize Hr).
    rewrite (IH f (pre ++ encode_record r) tail (lines ++ [record_line r]) fuel);
      [|rewrite Hfile, <- app_assoc; reflexivity|exact Hsize|exact Hwf|exact Htail
       |cbn [length] in Hfuel; lia].
    cbn [fmap list_fmap]. now rewrite <- app_assoc.
Qed.

(** [printLog] decodes what the appends encode: on a file that holds a
  sequence of encoded records it writes one line per record, in the
  order of the records, and nothing for a torn tail. *)
Theorem printLog_lists_records fuel f recs tail
    (Hfile : f = encode_log recs ++ tail)
    (Hsize : File.size f < U64.modulus)
    (Hwf : Forall wf_record recs)
    (Htail : torn_tail tail)
    (Hfuel : (length recs < fuel)%nat) :
  printLog fuel f = Done (record_line <$> recs).
Proof.
  unfold printLog.
  exact (printLog_loop_log recs f [] tail [] fuel Hfile Hsize Hwf Htail Hfuel).
Qed.

End PrintedLog.

Section LostAppend.

Import LogManager.

(** What [log_update] leaves when [current_offset_] is the size of the
  file. *)
Lemma log_update_shape txn_id page_id len offset before_img after_img lm lm2 :
  current_offset_ lm = File.size (log_file_ lm) →
  File.size (log_file_ lm) + (33 + 2 * len) < U64.modulus →
  log_update txn_id page_id len offset before_img after_img lm = Some lm2 →
  ∃ o,
    lm2 = incr UPDATE_RECORD
            (with_offset
               (with_file lm
                  (log_file_ lm
                     ++ encode_record
                          (record_of_op
                             (OpUpdate txn_id page_id len offset before_img after_img))))
               o).
Proof.
  intros Hinv Hfit Hrun. unfold File.size in *.
  unfold log_update in Hrun. cbn zeta in Hrun. rewrite Hinv in Hrun.
  pose proof (append_update_record (log_file_ lm) txn_id page_id len offset
                before_img after_img Hfit) as Hw.
  cbn zeta in Hw.
  repeat match type of Hrun with
         | context [File.write_block ?f ?d ?o ?k] =>
             destruct (File.write_block f d o k) as [?f1|] eqn:?E;
             cbn [mbind option_bind] in Hw, Hrun;
             [|discriminate Hrun]
         end.
  destruct (decide (len ≤ N.of_nat (length before_img)
                    ∧ len ≤ N.of_nat (length after_img))); [|discriminate Hw].
  apply (inj Some) in Hw. injection Hrun as <-. rewrite Hw.
  eexists. reflexivity.
Qed.

(** The counters that recovery zeroes and the offset that it sets do
  not reach its scan. *)
Lemma foldl_zero lm ks :
  foldl (λ lm type, zero type lm) lm ks
  = with_counts lm (foldl (λ c type, <[type := 0]> c) (log_record_type_to_count lm) ks).
Proof.
  revert lm. induction ks as [|k ks IH]; intros lm; [now destruct lm|].
  cbn [foldl]. rewrite IH. reflexivity.
Qed.

Lemma lookup_foldl_zero ks :
  ∀ (c : gmap LogRecordType N) k,
    foldl (λ c type, <[type := 0]> c) c ks !! k
    = if decide (k ∈ ks) then Some 0 else c !! k.
Proof.
  induction ks as [|t ks IH]; intros c k; cbn [foldl].
  - destruct (decide (k ∈ [])) as [H|]; [by apply elem_of_nil in H|reflexivity].
  - rewrite IH.
    destruct (decide (k ∈ ks)) as [Hin|Hout].
    + rewrite decide_True by (by right). reflexivity.
    + destruct (decide (k = t)) as [->|Hne].
      * rewrite decide_True by (by left). apply lookup_insert_eq.
      * rewrite decide_False
          by (intros H; apply elem_of_cons in H as [H|H]; contradiction).
        now apply lookup_insert_ne.
Qed.

Lemma recovery_init_incr type lm o :
  type ∈ counted_types →
  recovery_init (incr type (with_offset lm o)) = recovery_init lm.
Proof.
  intros Hin. unfold recovery_init. rewrite !foldl_zero.
  unfold incr, with_counts, with_offset.
  cbn [log_file_ current_offset_ fuzzy_checkpoint_page_ids
       txn_id_to_first_log_record log_record_type_to_count].
  do 2 f_equal.
  apply map_eq. intros k. rewrite !lookup_foldl_zero.
  destruct (decide (k ∈ counted_types)) as [|Hout]; [reflexivity|].
  apply lookup_insert_ne. intros ->. contradiction.
Qed.

(** Recovery leaves [current_offset_] at the size of the whole file,
  behind the zero tag at which its scan stopped, so that an update
  logged afterwards lies behind that zero tag as well: its record is in
  the file, and a later recovery returns the indexes and the buffer
  manager that it returns when the update was never logged. *)
Theorem update_after_torn_recovery_is_lost fuel fuel' lm bm lm1 bm1 lm2 bm2 recs junk
    txn_id page_id len offset before_img after_img
    (Hlog : log_file_ lm = encode_log recs ++ x00 :: junk)
    (Hwf : Forall wf_record recs)
    (Hfit : File.size (log_file_ lm) + (33 + 2 * len) < U64.modulus)
    (Hrec : recovery fuel lm bm = Done (lm1, bm1))
    (Hupd : log_update txn_id page_id len offset before_img after_img lm1 = Some lm2) :
  log_file_ lm2
  = log_file_ lm
      ++ encode_record
           (record_of_op (OpUpdate txn_id page_id len offset before_img after_img))
  ∧ (λ r, (indexes r.1, r.2)) <$> recovery fuel' lm2 bm2
    = (λ r, (indexes r.1, r.2)) <$> recovery fuel' lm1 bm2.
Proof.
  assert (Hsize : File.size (log_file_ lm) < U64.modulus) by lia.
  pose proof (recovery_log fuel lm bm lm1 bm1 recs (x00 :: junk) Hlog Hwf eq_refl
                Hsize Hrec) as Hlm1.
  destruct (scan_records_frame recs (recovery_init lm)) as [Hf Ho].
  destruct (recovery_init_frame lm) as (Hf0 & Ho0 & _).
  rewrite <- Hlm1 in Hf, Ho. rewrite Hf0 in Hf. rewrite Ho0 in Ho.
  destruct (log_update_shape txn_id page_id len offset before_img after_img lm1 lm2)
    as [o Hlm2]; [congruence|rewrite Hf; exact Hfit|exact Hupd|].
  set (e := encode_record _) in *.
  assert (Hf2 : log_file_ lm2 = log_file_ lm ++ e).
  { rewrite Hlm2. cbn [incr with_counts with_offset with_file log_file_].
    now rewrite Hf. }
  split; [exact Hf2|].
  assert (He : File.size e ≤ 33 + 2 * len).
  { subst e. unfold encode_record, encode_payload, record_of_op.
    cbn [UpdateInfo.txn_id UpdateInfo.page_id UpdateInfo.length UpdateInfo.offset
         UpdateInfo.before_img UpdateInfo.after_img].
    unfold File.size.
    rewrite !length_app, !length_encode_u64, !length_take, length_tag_bytes.
    lia. }
  rewrite (recovery_retarget fuel' lm2 bm2 recs (x00 :: junk ++ e)).
  - rewrite (recovery_retarget fuel' lm1 bm2 recs (x00 :: junk));
      [|congruence|exact Hwf|reflexivity|now rewrite Hf].
    unfold recovery.
    replace (recovery_init (with_file lm2 (encode_log recs)))
      with (recovery_init (with_file lm1 (encode_log recs))); [reflexivity|].
    rewrite Hlm2.
    change (with_file (incr UPDATE_RECORD (with_offset (with_file lm1 (log_file_ lm1 ++ e)) o))
              (encode_log recs))
      with (incr UPDATE_RECORD (with_offset (with_file lm1 (encode_log recs)) o)).
    symmetry. apply recovery_init_incr.
    unfold counted_types. do 2 apply list_elem_of_further. apply list_elem_of_here.
  - rewrite Hf2, Hlog, <- app_assoc. reflexivity.
  - exact Hwf.
  - reflexivity.
  - rewrite Hf2. unfold File.size in *. rewrite length_app. lia.
Qed.

Lemma update_after_torn_recovery_is_lost_witness :
  (log_file_ MoreExamples.torn_lm = encode_log [Begin 1] ++ x00 :: [x04; x09]
   ∧ Forall wf_record [Begin 1]
   ∧ File.size (log_file_ MoreExamples.torn_lm) + (33 + 2 * 2) < U64.modulus
   ∧ recovery 3 MoreExamples.torn_lm Examples.empty_pool
     = Done (MoreExamples.after_torn.1, MoreExamples.after_torn.2)
   ∧ log_update 1 7 2 10 [x00; x00] [x11; x11] MoreExamples.after_torn.1
     = Some MoreExamples.after_lost_update)
  ∧ (λ r, (indexes r.1, r.2))
      <$> recovery 4 MoreExamples.after_lost_update MoreExamples.after_torn.2
    = (λ r, (indexes r.1, r.2))
        <$> recovery 4 MoreExamples.after_torn.1 MoreExamples.after_torn.2.
Proof.
  assert (H1 : log_file_ MoreExamples.torn_lm
               = encode_log [Begin 1] ++ x00 :: [x04; x09]) by reflexivity.
  assert (H2 : Forall wf_record [Begin 1])
    by (apply Forall_cons; split; [vm_compute; reflexivity|apply Forall_nil_2]).
  assert (H3 : File.size (log_file_ MoreExamples.torn_lm) + (33 + 2 * 2)
               < U64.modulus) by (vm_compute; reflexivity).
  assert (H4 : recovery 3 MoreExamples.torn_lm Examples.empty_pool
               = Done (MoreExamples.after_torn.1, MoreExamples.after_torn.2))
    by (vm_compute; reflexivity).
  assert (H5 : log_update 1 7 2 10 [x00; x00] [x11; x11] MoreExamples.after_torn.1
               = Some MoreExamples.after_lost_update) by (vm_compute; reflexivity).
  split; [exact (conj H1 (conj H2 (conj H3 (conj H4 H5))))|].
  exact (proj2 (update_after_torn_recovery_is_lost 3 4 MoreExamples.torn_lm
                  Examples.empty_pool MoreExamples.after_torn.1
                  MoreExamples.after_torn.2 MoreExamples.after_lost_update
                  MoreExamples.after_torn.2 [Begin 1] [x04; x09] 1 7 2 10
                  [x00; x00] [x11; x11] H1 H2 H3 H4 H5)).
Defined.

End LostAppend.

(** ** The entry points, and the examples evaluated *)

Section Extras.

Import LogManager.

Ltac wf_records :=
  repeat (apply Forall_cons; split; [vm_compute; intuition congruence|]);
  apply Forall_nil_2.

Ltac not_in_list :=
  let H := fresh in
  intros H;
  repeat (apply elem_of_cons in H as [H|H]; [discriminate H|]);
  by apply elem_of_nil in H.

(** An append that returns has enlarged the file by exactly the
  encoding of its record, every earlier byte unchanged, and has left
  [current_offset_] at the end of the file. *)
Theorem append_extends_log fuel op lm bm lm' bm'
    (Hinv : current_offset_ lm = File.size (log_file_ lm))
    (Hfit : current_offset_ lm + op_size op < U64.modulus)
    (Hrun : run_op fuel op lm bm = Done (lm', bm')) :
  log_file_ lm' = log_file_ lm ++ encode_record (record_of_op op)
  ∧ current_offset_ lm' = File.size (log_file_ lm')
  ∧ File.size (encode_record (record_of_op op)) = op_size op.
Proof.
  destruct (run_op_layout fuel op lm bm lm' bm' Hinv Hfit Hrun) as (H1 & H2 & H3 & _).
  auto.
Qed.

Lemma append_extends_log_witness :
  (current_offset_ (new []) = File.size (log_file_ (new []))
   ∧ current_offset_ (new []) + op_size MoreExamples.one_update < U64.modulus
   ∧ run_op 0 MoreExamples.one_update (new []) Examples.empty_pool
     = Done (MoreExamples.after_one_update.1, MoreExamples.after_one_update.2))
  ∧ log_file_ MoreExamples.after_one_update.1
    = log_file_ (new []) ++ encode_record (record_of_op MoreExamples.one_update).
Proof.
  assert (H1 : current_offset_ (new []) = File.size (log_file_ (new [])))
    by reflexivity.
  assert (H2 : current_offset_ (new []) + op_size MoreExamples.one_update
               < U64.modulus) by (vm_compute; reflexivity).
  assert (H3 : run_op 0 MoreExamples.one_update (new []) Examples.empty_pool
               = Done (MoreExamples.after_one_update.1,
                       MoreExamples.after_one_update.2))
    by (vm_compute; reflexivity).
  split; [exact (conj H1 (conj H2 H3))|].
  exact (proj1 (append_extends_log 0 MoreExamples.one_update (new [])
                  Examples.empty_pool MoreExamples.after_one_update.1
                  MoreExamples.after_one_update.2 H1 H2 H3)).
Defined.

(** After any sequence of appends that return, on a log manager whose
  [current_offset_] is the size of its file, the file is the old file
  followed by the encodings of the appended records in order, and
  [current_offset_] is again the size of the file: the sum of the
  encoded sizes. *)
Theorem appends_build_log fuel ops lm bm lm' bm'
    (Hinv : current_offset_ lm = File.size (log_file_ lm))
    (Hfit : current_offset_ lm + ops_size ops < U64.modulus)
    (Hrun : run_ops fuel ops lm bm = Done (lm', bm')) :
  log_file_ lm' = log_file_ lm ++ encode_log (record_of_op <$> ops)
  ∧ current_offset_ lm' = current_offset_ lm + ops_size ops
  ∧ current_offset_ lm' = File.size (log_file_ lm').
Proof.
  destruct (run_ops_layout fuel ops lm bm lm' bm' Hinv Hfit Hrun) as (H1 & H2 & H3 & _).
  split; [exact H1|]. split; [|exact H2].
  rewrite H2, H1. unfold File.size in *. rewrite length_app, Hinv. lia.
Qed.

Lemma appends_build_log_witness :
  (current_offset_ (new []) = File.size (log_file_ (new []))
   ∧ current_offset_ (new []) + ops_size MoreExamples.history < U64.modulus
   ∧ run_ops 7 MoreExamples.history (new []) Examples.empty_pool
     = Done (MoreExamples.after_history.1, MoreExamples.after_history.2))
  ∧ current_offset_ MoreExamples.after_history.1 = 101.
Proof.
  assert (H1 : current_offset_ (new []) = File.size (log_file_ (new [])))
    by reflexivity.
  assert (H2 : current_offset_ (new []) + ops_size MoreExamples.history < U64.modulus)
    by (vm_compute; reflexivity).
  assert (H3 : run_ops 7 MoreExamples.history (new []) Examples.empty_pool
               = Done (MoreExamples.after_history.1, MoreExamples.after_history.2))
    by (vm_compute; reflexivity).
  split; [exact (conj H1 (conj H2 H3))|].
  exact (proj1 (proj2 (appends_build_log 7 MoreExamples.history (new [])
                         Examples.empty_pool MoreExamples.after_history.1
                         MoreExamples.after_history.2 H1 H2 H3))).
Defined.

Lemma crash_recovery_rebuilds_indexes_witness :
  (Forall wf_op MoreExamples.history
   ∧ Forall (λ op, op_type op ≠ ABORT_RECORD) MoreExamples.history
   ∧ ops_size MoreExamples.history < U64.modulus
   ∧ run_ops 7 MoreExamples.history (new []) Examples.empty_pool
     = Done (MoreExamples.after_history.1, MoreExamples.after_history.2)
   ∧ recovery 7 (reset MoreExamples.after_history.1
                   (log_file_ MoreExamples.after_history.1)) Examples.empty_pool
     = Done (MoreExamples.after_crash.1, MoreExamples.after_crash.2))
  ∧ txn_id_to_first_log_record MoreExamples.after_crash.1
    = txn_id_to_first_log_record MoreExamples.after_history.1.
Proof.
  assert (H1 : Forall wf_op MoreExamples.history).
  { repeat (apply Forall_cons; split; [vm_compute; intuition congruence|]).
    apply Forall_nil_2. }
  assert (H2 : Forall (λ op, op_type op ≠ ABORT_RECORD) MoreExamples.history).
  { repeat (apply Forall_cons; split; [discriminate|]). apply Forall_nil_2. }
  assert (H3 : ops_size MoreExamples.history < U64.modulus)
    by (vm_compute; reflexivity).
  assert (H4 : run_ops 7 MoreExamples.history (new []) Examples.empty_pool
               = Done (MoreExamples.after_history.1, MoreExamples.after_history.2))
    by (vm_compute; reflexivity).
  assert (H5 : recovery 7 (reset MoreExamples.after_history.1
                             (log_file_ MoreExamples.after_history.1))
                 Examples.empty_pool
               = Done (MoreExamples.after_crash.1, MoreExamples.after_crash.2))
    by (vm_compute; reflexivity).
  split; [exact (conj H1 (conj H2 (conj H3 (conj H4 H5))))|].
  exact (proj1 (crash_recovery_rebuilds_indexes 7 7 MoreExamples.history
                  Examples.empty_pool MoreExamples.after_history.1
                  MoreExamples.after_history.2 Examples.empty_pool
                  MoreExamples.after_crash.1 MoreExamples.after_crash.2
                  H1 H2 H3 H4 H5)).
Defined.




Lemma recovery_drops_committed_witness :
  (log_file_ (new (encode_log Examples.interleaved))
   = encode_log ([Begin 1; Update Examples.ua; Begin 2; Update Examples.ub;
                  Update Examples.uc] ++ Commit 2 :: []) ++ []
   ∧ Forall wf_record ([Begin 1; Update Examples.ua; Begin 2; Update Examples.ub;
                        Update Examples.uc] ++ Commit 2 :: [])
   ∧ torn_tail []
   ∧ File.size (log_file_ (new (encode_log Examples.interleaved))) < U64.modulus
   ∧ (Begin 2 ∉ @nil LogRecord)
   ∧ recovery 7 (new (encode_log Examples.interleaved)) Examples.empty_pool
     = Done (MoreExamples.after_interleaved.1, MoreExamples.after_interleaved.2))
  ∧ txn_id_to_first_log_record MoreExamples.after_interleaved.1 !! 2 = None.
Proof.
  assert (H1 : log_file_ (new (encode_log Examples.interleaved))
               = encode_log ([Begin 1; Update Examples.ua; Begin 2;
                              Update Examples.ub; Update Examples.uc]
                             ++ Commit 2 :: []) ++ [])
    by (vm_compute; reflexivity).
  assert (H2 : Forall wf_record ([Begin 1; Update Examples.ua; Begin 2;
                                  Update Examples.ub; Update Examples.uc]
                                 ++ Commit 2 :: []))
    by (cbn [app]; wf_records).
  assert (H3 : torn_tail []) by exact I.
  assert (H4 : File.size (log_file_ (new (encode_log Examples.interleaved)))
               < U64.modulus) by (vm_compute; reflexivity).
  assert (H5 : Begin 2 ∉ @nil LogRecord) by not_in_list.
  assert (H6 : recovery 7 (new (encode_log Examples.interleaved)) Examples.empty_pool
               = Done (MoreExamples.after_interleaved.1,
                       MoreExamples.after_interleaved.2))
    by (vm_compute; reflexivity).
  split; [exact (conj H1 (conj H2 (conj H3 (conj H4 (conj H5 H6)))))|].
  exact (recovery_drops_committed 7 (new (encode_log Examples.interleaved))
           Examples.empty_pool MoreExamples.after_interleaved.1
           MoreExamples.after_interleaved.2
           [Begin 1; Update Examples.ua; Begin 2; Update Examples.ub;
            Update Examples.uc] 2 [] [] H1 H2 H3 H4 H5 H6).
Defined.

Lemma recovery_enters_ordinal_witness :
  (log_file_ (new (encode_log MoreExamples.begin_begin_abort))
   = encode_log ([Begin 1] ++ Begin 2 :: [Abort 2]) ++ []
   ∧ Forall wf_record ([Begin 1] ++ Begin 2 :: [Abort 2])
   ∧ torn_tail []
   ∧ File.size (log_file_ (new (encode_log MoreExamples.begin_begin_abort)))
     < U64.modulus
   ∧ txn_id_to_first_log_record (new (encode_log MoreExamples.begin_begin_abort))
       !! 2 = None
   ∧ (Begin 2 ∉ [Begin 1])
   ∧ (Commit 2 ∉ [Abort 2])
   ∧ recovery 4 (new (encode_log MoreExamples.begin_begin_abort))
       Examples.empty_pool
     = Done (MoreExamples.after_begin_begin_abort.1,
             MoreExamples.after_begin_begin_abort.2))
  ∧ txn_id_to_first_log_record MoreExamples.after_begin_begin_abort.1 !! 2
    = Some 1.
Proof.
  assert (H1 : log_file_ (new (encode_log MoreExamples.begin_begin_abort))
               = encode_log ([Begin 1] ++ Begin 2 :: [Abort 2]) ++ [])
    by (vm_compute; reflexivity).
  assert (H2 : Forall wf_record ([Begin 1] ++ Begin 2 :: [Abort 2]))
    by (cbn [app]; wf_records).
  assert (H3 : torn_tail []) by exact I.
  assert (H4 : File.size (log_file_ (new (encode_log MoreExamples.begin_begin_abort)))
               < U64.modulus) by (vm_compute; reflexivity).
  assert (H5 : txn_id_to_first_log_record
                 (new (encode_log MoreExamples.begin_begin_abort)) !! 2 = None)
    by (vm_compute; reflexivity).
  assert (H6 : Begin 2 ∉ [Begin 1]) by not_in_list.
  assert (H7 : Commit 2 ∉ [Abort 2]) by not_in_list.
  assert (H8 : recovery 4 (new (encode_log MoreExamples.begin_begin_abort))
                 Examples.empty_pool
               = Done (MoreExamples.after_begin_begin_abort.1,
                       MoreExamples.after_begin_begin_abort.2))
    by (vm_compute; reflexivity).
  split;
    [exact (conj H1 (conj H2 (conj H3 (conj H4 (conj H5 (conj H6 (conj H7 H8)))))))|].
  exact (recovery_enters_ordinal 4 (new (encode_log MoreExamples.begin_begin_abort))
           Examples.empty_pool MoreExamples.after_begin_begin_abort.1
           MoreExamples.after_begin_begin_abort.2 [Begin 1] 2 [Abort 2] []
           H1 H2 H3 H4 H5 H6 H7 H8).
Defined.

Lemma recovery_keeps_earlier_entry_witness :
  (log_file_ MoreExamples.stale_lm = encode_log Examples.interleaved ++ []
   ∧ Forall wf_record Examples.interleaved
   ∧ torn_tail []
   ∧ File.size (log_file_ MoreExamples.stale_lm) < U64.modulus
   ∧ txn_id_to_first_log_record MoreExamples.stale_lm !! 5 = Some 3
   ∧ (Commit 5 ∉ Examples.interleaved)
   ∧ recovery 7 MoreExamples.stale_lm Examples.empty_pool
     = Done (MoreExamples.after_stale.1, MoreExamples.after_stale.2))
  ∧ txn_id_to_first_log_record MoreExamples.after_stale.1 !! 5 = Some 3.
Proof.
  assert (H1 : log_file_ MoreExamples.stale_lm
               = encode_log Examples.interleaved ++ [])
    by (vm_compute; reflexivity).
  assert (H2 : Forall wf_record Examples.interleaved)
    by (unfold Examples.interleaved; wf_records).
  assert (H3 : torn_tail []) by exact I.
  assert (H4 : File.size (log_file_ MoreExamples.stale_lm) < U64.modulus)
    by (vm_compute; reflexivity).
  assert (H5 : txn_id_to_first_log_record MoreExamples.stale_lm !! 5 = Some 3)
    by (vm_compute; reflexivity).
  assert (H6 : Commit 5 ∉ Examples.interleaved)
    by (unfold Examples.interleaved; not_in_list).
  assert (H7 : recovery 7 MoreExamples.stale_lm Examples.empty_pool
               = Done (MoreExamples.after_stale.1, MoreExamples.after_stale.2))
    by (vm_compute; reflexivity).
  split; [exact (conj H1 (conj H2 (conj H3 (conj H4 (conj H5 (conj H6 H7))))))|].
  exact (recovery_keeps_earlier_entry 7 MoreExamples.stale_lm Examples.empty_pool
           MoreExamples.after_stale.1 MoreExamples.after_stale.2
           Examples.interleaved 5 3 [] H1 H2 H3 H4 H5 H6 H7).
Defined.

Lemma recovery_terminates_witness :
  (log_file_ (new MoreExamples.torn_interleaved)
   = encode_log Examples.interleaved ++ [x00; x04]
   ∧ Forall wf_record Examples.interleaved
   ∧ torn_tail [x00; x04]
   ∧ File.size (log_file_ (new MoreExamples.torn_interleaved)) < U64.modulus
   ∧ (length Examples.interleaved < 7)%nat)
  ∧ ((∃ bm', recovery 7 (new MoreExamples.torn_interleaved) Examples.empty_pool
             = Done (rc_lm (scan_records Examples.interleaved
                              (recovery_init (new MoreExamples.torn_interleaved))),
                     bm'))
     ∨ recovery 7 (new MoreExamples.torn_interleaved) Examples.empty_pool = Fault).
Proof.
  assert (H1 : log_file_ (new MoreExamples.torn_interleaved)
               = encode_log Examples.interleaved ++ [x00; x04]) by reflexivity.
  assert (H2 : Forall wf_record Examples.interleaved)
    by (unfold Examples.interleaved; wf_records).
  assert (H3 : torn_tail [x00; x04]) by reflexivity.
  assert (H4 : File.size (log_file_ (new MoreExamples.torn_interleaved))
               < U64.modulus) by (vm_compute; reflexivity).
  assert (H5 : (length Examples.interleaved < 7)%nat) by (vm_compute; lia).
  split; [exact (conj H1 (conj H2 (conj H3 (conj H4 H5))))|].
  exact (recovery_terminates 7 (new MoreExamples.torn_interleaved)
           Examples.empty_pool Examples.interleaved [x00; x04] H1 H2 H3 H4 H5).
Defined.

Lemma printLog_lists_records_witness :
  (MoreExamples.torn_interleaved = encode_log Examples.interleaved ++ [x00; x04]
   ∧ File.size MoreExamples.torn_interleaved < U64.modulus
   ∧ Forall wf_record Examples.interleaved
   ∧ torn_tail [x00; x04]
   ∧ (length Examples.interleaved < 7)%nat)
  ∧ PrintLog.printLog 7 MoreExamples.torn_interleaved
    = Done (record_line <$> Examples.interleaved).
Proof.
  assert (H1 : MoreExamples.torn_interleaved
               = encode_log Examples.interleaved ++ [x00; x04]) by reflexivity.
  assert (H2 : File.size MoreExamples.torn_interleaved < U64.modulus)
    by (vm_compute; reflexivity).
  assert (H3 : Forall wf_record Examples.interleaved)
    by (unfold Examples.interleaved; wf_records).
  assert (H4 : torn_tail [x00; x04]) by reflexivity.
  assert (H5 : (length Examples.interleaved < 7)%nat) by (vm_compute; lia).
  split; [exact (conj H1 (conj H2 (conj H3 (conj H4 H5))))|].
  exact (printLog_lists_records 7 MoreExamples.torn_interleaved
           Examples.interleaved [x00; x04] H1 H2 H3 H4 H5).
Defined.

Lemma recovery_ignores_torn_tail_witness :
  (log_file_ MoreExamples.torn_lm = encode_log [Begin 1] ++ x00 :: [x04; x09]
   ∧ Forall wf_record [Begin 1]
   ∧ File.size (log_file_ MoreExamples.torn_lm) < U64.modulus)
  ∧ (λ r, (indexes r.1, r.2))
      <$> recovery 3 MoreExamples.torn_lm Examples.empty_pool
    = (λ r, (indexes r.1, r.2))
        <$> recovery 3 (with_file MoreExamples.torn_lm (encode_log [Begin 1]))
              Examples.empty_pool.
Proof.
  assert (H1 : log_file_ MoreExamples.torn_lm
               = encode_log [Begin 1] ++ x00 :: [x04; x09]) by reflexivity.
  assert (H2 : Forall wf_record [Begin 1]) by wf_records.
  assert (H3 : File.size (log_file_ MoreExamples.torn_lm) < U64.modulus)
    by (vm_compute; reflexivity).
  split; [exact (conj H1 (conj H2 H3))|].
  exact (recovery_ignores_torn_tail 3 MoreExamples.torn_lm Examples.empty_pool
           [Begin 1] [x04; x09] H1 H2 H3).
Defined.


Lemma fuzzy_steps_flush_snapshot_witness :
  log_fuzzy_checkpoint_begin (new []) MoreExamples.dirty_pool
  = Some (MoreExamples.after_fuzzy_begin.1, MoreExamples.after_fuzzy_begin.2)
  ∧ fuzzy_checkpoint_page_ids MoreExamples.after_fuzzy_begin.2
    = BufferManager.get_dirty_page_ids MoreExamples.dirty_pool.
Proof.
  assert (H1 : log_fuzzy_checkpoint_begin (new []) MoreExamples.dirty_pool
               = Some (MoreExamples.after_fuzzy_begin.1,
                       MoreExamples.after_fuzzy_begin.2))
    by (vm_compute; reflexivity).
  split; [exact H1|].
  exact (proj1 (proj2 (fuzzy_steps_flush_snapshot (new [])
                         MoreExamples.dirty_pool MoreExamples.after_fuzzy_begin.1
                         MoreExamples.after_fuzzy_begin.2 H1))).
Defined.

End Extras.
